(** * CreatorCover: the generation pipeline and its remote adapter

    A shallow embedding of [services/geminiService.ts] (the remote API
    adapter and the key-authorization guard) and of the orchestrator
    handlers of the [App] component ([startProcess], [handleEditImage]),
    followed by the properties the specification states about them.

    Conventions.
    - A JavaScript string is a Rocq [string] holding the bytes of its
      (generalised) UTF-8 encoding; ASCII text is itself.
    - [undefined] is [None] in an [option].
    - An [async] function is a state transformer over the world it talks
      to; its promise is an [Outcome]: fulfilled, rejected, or never
      settled. *)

From Stdlib Require Import ZArith NArith Ascii String List Bool Lia.
From stdpp Require Import gmap strings list fin_maps pretty.

Set Warnings "-register-all,-clear-no-such-hyp".
Local Open Scope string_scope.

(* ===================================================================== *)
(** ** JavaScript values that JSON can denote *)
(* ===================================================================== *)

(** A number is kept as the decimal it was written as, [mantissa * 10 ^
    exponent]; the only thing the program asks of a number is whether it
    is truthy. *)
Inductive JsVal :=
| JNull
| JBool (b : bool)
| JNumber (mantissa exponent : Z)
| JString (s : string)
| JArray (items : list JsVal)
| JObject (props : gmap string JsVal).

(** A decimal is falsy when the double it rounds to is zero: it is zero,
    or it is at most half the least subnormal, [2 ^ -1075]. *)
Definition number_is_zero (m e : Z) : bool :=
  if (0 <=? e)%Z then (m =? 0)%Z
  else (Z.abs m * 2 ^ 1075 <=? 10 ^ (- e))%Z.

Definition truthy (v : JsVal) : bool :=
  match v with
  | JNull => false
  | JBool b => b
  | JNumber m e => negb (number_is_zero m e)
  | JString s => negb (String.eqb s EmptyString)
  | JArray _ => true
  | JObject _ => true
  end.

(** Truthiness of a possibly [undefined] value. *)
Definition truthy_opt (v : option JsVal) : bool :=
  match v with
  | Some v => truthy v
  | None => false
  end.

(** [a || b] on possibly [undefined] values. *)
Definition js_or (a b : option JsVal) : option JsVal :=
  if truthy_opt a then a else b.

(* ===================================================================== *)
(** ** Characters and UTF-8 *)
(* ===================================================================== *)

Definition char_code (c : ascii) : N := N_of_ascii c.

Definition is_digit (c : ascii) : bool := ((48 <=? char_code c) && (char_code c <=? 57))%N.

Definition digit_value (c : ascii) : N := (char_code c - 48)%N.

Definition hex_value (c : ascii) : option N :=
  let n := char_code c in
  if ((48 <=? n) && (n <=? 57))%N then Some (n - 48)%N
  else if ((65 <=? n) && (n <=? 70))%N then Some (n - 55)%N
  else if ((97 <=? n) && (n <=? 102))%N then Some (n - 87)%N
  else None.

Definition byte (n : N) : ascii := ascii_of_N n.

(** The double quote. *)
Definition dquote : ascii := byte 34.

(** The (generalised) UTF-8 bytes of a code point. *)
Definition utf8 (cp : N) : list ascii :=
  if (cp <? 128)%N then [byte cp]
  else if (cp <? 2048)%N then
    [byte (192 + cp / 64); byte (128 + cp mod 64)]
  else if (cp <? 65536)%N then
    [byte (224 + cp / 4096); byte (128 + (cp / 64) mod 64);
     byte (128 + cp mod 64)]
  else
    [byte (240 + cp / 262144); byte (128 + (cp / 4096) mod 64);
     byte (128 + (cp / 64) mod 64); byte (128 + cp mod 64)].

Definition is_high_surrogate (u : N) : bool := ((55296 <=? u) && (u <=? 56319))%N.
Definition is_low_surrogate (u : N) : bool := ((56320 <=? u) && (u <=? 57343))%N.

Definition combine_surrogates (hi lo : N) : N :=
  (65536 + (hi - 55296) * 1024 + (lo - 56320))%N.

(** Code points of a byte string, reading its UTF-8 sequences; a byte
    that starts no sequence stands for itself. *)
Fixpoint code_points (bs : list ascii) : list N :=
  match bs with
  | [] => []
  | b0 :: r0 =>
    let n0 := char_code b0 in
    let cont (b : ascii) := (char_code b mod 64)%N in
    match r0 with
    | b1 :: r1 =>
      if ((192 <=? n0) && (n0 <? 224))%N then
        ((n0 - 192) * 64 + cont b1)%N :: code_points r1
      else
        match r1 with
        | b2 :: r2 =>
          if ((224 <=? n0) && (n0 <? 240))%N then
            ((n0 - 224) * 4096 + cont b1 * 64 + cont b2)%N :: code_points r2
          else
            match r2 with
            | b3 :: r3 =>
              if (240 <=? n0)%N then
                ((n0 - 240) * 262144 + cont b1 * 4096 + cont b2 * 64 + cont b3)%N
                  :: code_points r3
              else n0 :: code_points r0
            | [] => n0 :: code_points r0
            end
        | [] => n0 :: code_points r0
        end
    | [] => [n0]
    end
  end.

(** UTF-16 code units of a code point. *)
Definition utf16 (cp : N) : list N :=
  if (cp <? 65536)%N then [cp]
  else [(55296 + (cp - 65536) / 1024)%N; (56320 + (cp - 65536) mod 1024)%N].

(** The code units of a JavaScript string, each as a one-unit string:
    what indexing the string yields. *)
Definition code_unit_strings (s : string) : list string :=
  map (fun u => string_of_list_ascii (utf8 u))
      (flat_map utf16 (code_points (list_ascii_of_string s))).

(* ===================================================================== *)
(** ** [JSON.parse] *)
(* ===================================================================== *)

(** [JSON.parse] belongs to the JavaScript runtime, not to the
    repository; it is modelled after the JSON grammar (ECMA-404): a
    lexer that is a state machine over the characters, and a parser that
    keeps the open arrays and objects on a stack. [None] stands for the
    [SyntaxError] it throws. *)

Inductive Token :=
| TLBrace | TRBrace | TLBracket | TRBracket | TColon | TComma
| TScalar (v : JsVal).

(** Where the lexer is inside a number. *)
Inductive NumState :=
| NMinus      (* after the sign: a digit must follow *)
| NZero       (* integer part is a single 0 *)
| NInt        (* integer part, first digit 1-9 *)
| NDot        (* after the point: a digit must follow *)
| NFrac       (* fraction digits *)
| NExp        (* after e or E: a sign or a digit must follow *)
| NExpSign    (* after the exponent sign: a digit must follow *)
| NExpDigits. (* exponent digits *)

Record NumAcc := {
  num_neg : bool;     (* a leading minus *)
  num_mant : Z;       (* the digits read so far, point ignored *)
  num_scale : Z;      (* how many of them follow the point *)
  num_eneg : bool;    (* a minus in the exponent *)
  num_exp : Z         (* the exponent digits *)
}.

Definition num_start (neg : bool) (d : Z) : NumAcc :=
  {| num_neg := neg; num_mant := d; num_scale := 0; num_eneg := false; num_exp := 0 |}.

Definition num_value (a : NumAcc) : JsVal :=
  JNumber (if num_neg a then - num_mant a else num_mant a)%Z
          ((if num_eneg a then - num_exp a else num_exp a) - num_scale a)%Z.

Definition push_int (a : NumAcc) (c : ascii) : NumAcc :=
  {| num_neg := num_neg a; num_mant := num_mant a * 10 + Z.of_N (digit_value c);
     num_scale := num_scale a; num_eneg := num_eneg a; num_exp := num_exp a |}.

Definition push_frac (a : NumAcc) (c : ascii) : NumAcc :=
  {| num_neg := num_neg a; num_mant := num_mant a * 10 + Z.of_N (digit_value c);
     num_scale := num_scale a + 1; num_eneg := num_eneg a; num_exp := num_exp a |}.

Definition push_exp (a : NumAcc) (c : ascii) : NumAcc :=
  {| num_neg := num_neg a; num_mant := num_mant a;
     num_scale := num_scale a; num_eneg := num_eneg a;
     num_exp := num_exp a * 10 + Z.of_N (digit_value c) |}.

Definition set_eneg (a : NumAcc) (b : bool) : NumAcc :=
  {| num_neg := num_neg a; num_mant := num_mant a;
     num_scale := num_scale a; num_eneg := b; num_exp := num_exp a |}.

Inductive LexState :=
| LIdle
| LStr (acc : list ascii)                  (* inside a string; [acc] reversed *)
| LEsc (acc : list ascii)                  (* after a backslash *)
| LUni (acc : list ascii) (digits : nat) (u : N)   (* inside \uXXXX *)
| LStrHi (acc : list ascii) (hi : N)       (* a high surrogate escape awaits its pair *)
| LEscHi (acc : list ascii) (hi : N)
| LUniHi (acc : list ascii) (hi : N) (digits : nat) (u : N)
| LNum (st : NumState) (a : NumAcc)
| LLit (rest : list ascii) (v : JsVal).    (* the rest of true, false or null *)

Definition is_ws (c : ascii) : bool :=
  let n := char_code c in ((n =? 32) || (n =? 9) || (n =? 10) || (n =? 13))%N.

Definition push_bytes (bs acc : list ascii) : list ascii := (rev bs ++ acc)%list.

Definition string_token (acc : list ascii) : Token :=
  TScalar (JString (string_of_list_ascii (rev acc))).

(** A character met between tokens. *)
Definition lex_idle (c : ascii) : option (LexState * list Token) :=
  if is_ws c then Some (LIdle, [])
  else if Ascii.eqb c "{" then Some (LIdle, [TLBrace])
  else if Ascii.eqb c "}" then Some (LIdle, [TRBrace])
  else if Ascii.eqb c "[" then Some (LIdle, [TLBracket])
  else if Ascii.eqb c "]" then Some (LIdle, [TRBracket])
  else if Ascii.eqb c ":" then Some (LIdle, [TColon])
  else if Ascii.eqb c "," then Some (LIdle, [TComma])
  else if Ascii.eqb c dquote then Some (LStr [], [])
  else if Ascii.eqb c "-" then Some (LNum NMinus (num_start true 0), [])
  else if Ascii.eqb c "0" then Some (LNum NZero (num_start false 0), [])
  else if is_digit c then Some (LNum NInt (num_start false (Z.of_N (digit_value c))), [])
  else if Ascii.eqb c "t" then Some (LLit (list_ascii_of_string "rue") (JBool true), [])
  else if Ascii.eqb c "f" then Some (LLit (list_ascii_of_string "alse") (JBool false), [])
  else if Ascii.eqb c "n" then Some (LLit (list_ascii_of_string "ull") JNull, [])
  else None.

(** A character inside a string, outside any escape. *)
Definition lex_str (acc : list ascii) (c : ascii) : option (LexState * list Token) :=
  if Ascii.eqb c dquote then Some (LIdle, [string_token acc])
  else if Ascii.eqb c "\" then Some (LEsc acc, [])
  else if (char_code c <? 32)%N then None
  else Some (LStr (c :: acc), []).

(** The character after a backslash. *)
Definition lex_esc (acc : list ascii) (c : ascii) : option (LexState * list Token) :=
  if Ascii.eqb c dquote then Some (LStr (c :: acc), [])
  else if Ascii.eqb c "\" then Some (LStr (c :: acc), [])
  else if Ascii.eqb c "/" then Some (LStr (c :: acc), [])
  else if Ascii.eqb c "b" then Some (LStr (byte 8 :: acc), [])
  else if Ascii.eqb c "f" then Some (LStr (byte 12 :: acc), [])
  else if Ascii.eqb c "n" then Some (LStr (byte 10 :: acc), [])
  else if Ascii.eqb c "r" then Some (LStr (byte 13 :: acc), [])
  else if Ascii.eqb c "t" then Some (LStr (byte 9 :: acc), [])
  else if Ascii.eqb c "u" then Some (LUni acc 4 0%N, [])
  else None.

(** A \uXXXX escape is complete with code unit [u]. *)
Definition unit_done (acc : list ascii) (u : N) : LexState :=
  if is_high_surrogate u then LStrHi acc u
  else LStr (push_bytes (utf8 u) acc).

Definition lex_uni (done : N -> LexState) (again : nat -> N -> LexState)
    (digits : nat) (u : N) (c : ascii) : option (LexState * list Token) :=
  match hex_value c with
  | None => None
  | Some h =>
    let u' := (u * 16 + h)%N in
    match digits with
    | 0 => None
    | 1 => Some (done u', [])
    | S k => Some (again k u', [])
    end
  end.

(** A character inside a number: it extends the number, or ends it and
    is then read as the start of the next token. *)
Definition lex_num (st : NumState) (a : NumAcc) (c : ascii)
    : option (LexState * list Token) :=
  let close :=
    match lex_idle c with
    | Some (st', toks) => Some (st', TScalar (num_value a) :: toks)
    | None => None
    end in
  let dot_or_exp :=
    if Ascii.eqb c "." then Some (LNum NDot a, [])
    else if Ascii.eqb c "e" || Ascii.eqb c "E" then Some (LNum NExp a, [])
    else close in
  match st with
  | NMinus =>
    if Ascii.eqb c "0" then Some (LNum NZero a, [])
    else if is_digit c then Some (LNum NInt (push_int a c), [])
    else None
  | NZero => dot_or_exp
  | NInt => if is_digit c then Some (LNum NInt (push_int a c), []) else dot_or_exp
  | NDot => if is_digit c then Some (LNum NFrac (push_frac a c), []) else None
  | NFrac =>
    if is_digit c then Some (LNum NFrac (push_frac a c), [])
    else if Ascii.eqb c "e" || Ascii.eqb c "E" then Some (LNum NExp a, [])
    else close
  | NExp =>
    if Ascii.eqb c "+" then Some (LNum NExpSign a, [])
    else if Ascii.eqb c "-" then Some (LNum NExpSign (set_eneg a true), [])
    else if is_digit c then Some (LNum NExpDigits (push_exp a c), [])
    else None
  | NExpSign => if is_digit c then Some (LNum NExpDigits (push_exp a c), []) else None
  | NExpDigits => if is_digit c then Some (LNum NExpDigits (push_exp a c), []) else close
  end.

Definition lex_step (st : LexState) (c : ascii) : option (LexState * list Token) :=
  match st with
  | LIdle => lex_idle c
  | LStr acc => lex_str acc c
  | LEsc acc => lex_esc acc c
  | LUni acc digits u => lex_uni (unit_done acc) (LUni acc) digits u c
  | LStrHi acc hi =>
    if Ascii.eqb c "\" then Some (LEscHi acc hi, [])
    else lex_str (push_bytes (utf8 hi) acc) c
  | LEscHi acc hi =>
    if Ascii.eqb c "u" then Some (LUniHi acc hi 4 0%N, [])
    else lex_esc (push_bytes (utf8 hi) acc) c
  | LUniHi acc hi digits u =>
    lex_uni (fun lo =>
               if is_low_surrogate lo
               then LStr (push_bytes (utf8 (combine_surrogates hi lo)) acc)
               else unit_done (push_bytes (utf8 hi) acc) lo)
            (LUniHi acc hi) digits u c
  | LNum ns a => lex_num ns a c
  | LLit rest v =>
    match rest with
    | [] => None
    | [x] => if Ascii.eqb c x then Some (LIdle, [TScalar v]) else None
    | x :: rest' => if Ascii.eqb c x then Some (LLit rest' v, []) else None
    end
  end.

(** The end of the text. *)
Definition lex_end (st : LexState) : option (list Token) :=
  match st with
  | LIdle => Some []
  | LNum NZero a | LNum NInt a | LNum NFrac a | LNum NExpDigits a =>
    Some [TScalar (num_value a)]
  | _ => None
  end.

Fixpoint lex (st : LexState) (cs : list ascii) : option (list Token) :=
  match cs with
  | [] => lex_end st
  | c :: cs' =>
    match lex_step st c with
    | None => None
    | Some (st', toks) =>
      match lex st' cs' with
      | None => None
      | Some more => Some (toks ++ more)%list
      end
    end
  end.

(** An array or object that is still open. *)
Inductive Frame :=
| KArr (acc : list JsVal)                        (* elements so far, reversed *)
| KObj (props : gmap string JsVal) (key : string). (* members so far, and the key awaiting its value *)

Inductive ParseState :=
| SValue                                        (* a value must follow *)
| SArrFirst                                     (* after [ : a value or ] *)
| SObjKey (props : gmap string JsVal) (first : bool)  (* a key, or } right after the brace *)
| SObjColon (props : gmap string JsVal) (key : string)
| SDone (v : JsVal).                            (* a value is complete *)

Definition parse_value_token (stack : list Frame) (t : Token)
    : option (ParseState * list Frame) :=
  match t with
  | TScalar v => Some (SDone v, stack)
  | TLBracket => Some (SArrFirst, KArr [] :: stack)
  | TLBrace => Some (SObjKey ∅ true, stack)
  | _ => None
  end.

Definition parse_step (st : ParseState) (stack : list Frame) (t : Token)
    : option (ParseState * list Frame) :=
  match st with
  | SValue => parse_value_token stack t
  | SArrFirst =>
    match t, stack with
    | TRBracket, KArr acc :: stack' => Some (SDone (JArray (rev acc)), stack')
    | TRBracket, _ => None
    | _, _ => parse_value_token stack t
    end
  | SObjKey props first =>
    match t with
    | TScalar (JString k) => Some (SObjColon props k, stack)
    | TRBrace => if first then Some (SDone (JObject props), stack) else None
    | _ => None
    end
  | SObjColon props k =>
    match t with
    | TColon => Some (SValue, KObj props k :: stack)
    | _ => None
    end
  | SDone v =>
    match stack, t with
    | KArr acc :: stack', TComma => Some (SValue, KArr (v :: acc) :: stack')
    | KArr acc :: stack', TRBracket => Some (SDone (JArray (rev (v :: acc))), stack')
    | KObj props k :: stack', TComma => Some (SObjKey (<[k := v]> props) false, stack')
    | KObj props k :: stack', TRBrace => Some (SDone (JObject (<[k := v]> props)), stack')
    | _, _ => None
    end
  end.

Fixpoint parse_tokens (st : ParseState) (stack : list Frame) (ts : list Token)
    : option JsVal :=
  match ts with
  | [] =>
    match st, stack with
    | SDone v, [] => Some v
    | _, _ => None
    end
  | t :: ts' =>
    match parse_step st stack t with
    | None => None
    | Some (st', stack') => parse_tokens st' stack' ts'
    end
  end.

Definition JSON_parse (text : string) : option JsVal :=
  match lex LIdle (list_ascii_of_string text) with
  | None => None
  | Some ts => parse_tokens SValue [] ts
  end.

(* ===================================================================== *)
(** ** Strings, errors and interpolated text *)
(* ===================================================================== *)

(** [s.includes(needle)] *)
Fixpoint includes (s needle : string) : bool :=
  if String.prefix needle s then true
  else match s with
       | EmptyString => false
       | String _ s' => includes s' needle
       end.

(** [s.split(',')[1]]: the text between the first and the second comma,
    [undefined] when there is no comma. *)
Fixpoint until_comma (s : string) : string :=
  match s with
  | EmptyString => EmptyString
  | String c s' => if Ascii.eqb c "," then EmptyString else String c (until_comma s')
  end.

Fixpoint split_comma_1 (s : string) : option string :=
  match s with
  | EmptyString => None
  | String c s' => if Ascii.eqb c "," then Some (until_comma s') else split_comma_1 s'
  end.

(** What a template literal makes of a possibly [undefined] string. *)
Definition string_or_undefined (s : option string) : string :=
  match s with
  | Some s => s
  | None => "undefined"
  end.

(** A thrown value: an error object, of which the program reads
    [message] and [status]. *)
Record JsError := {
  message : option string;
  status : option Z
}.

(** [new Error(msg)] *)
Definition Error (msg : string) : JsError :=
  {| message := Some msg; status := None |}.

(** What [JSON.parse] throws; the wording is the engine's. *)
Definition SyntaxError_JSON : JsError := Error "Unexpected token in JSON".

(** What reading property [p] of [null] throws; the wording is the engine's. *)
Definition TypeError_null (p : string) : JsError :=
  Error ("Cannot read properties of null (reading '" ++ p ++ "')").

(** The test both retry sites apply to a caught error:
    [error.message?.includes('403') || error.status === 403 ||
     error.message?.includes('PERMISSION_DENIED')]. *)
Definition is_permission_denied (error : JsError) : bool :=
  match message error with Some m => includes m "403" | None => false end
  || match status error with Some s => (s =? 403)%Z | None => false end
  || match message error with Some m => includes m "PERMISSION_DENIED" | None => false end.

(** A string built by a template literal: literal pieces and the values
    spliced between them. The conversion of a spliced value to text is
    left to the runtime. *)
Inductive Segment :=
| Lit (s : string)
| Splice (v : option JsVal).

Definition Text := list Segment.

Definition lit (s : string) : Text := [Lit s].

(* ===================================================================== *)
(** ** Promises and the state monad of [async] code *)
(* ===================================================================== *)

(** How a promise ends. *)
Inductive Outcome (A : Type) :=
| Fulfilled (a : A)
| Rejected (e : JsError)
| Pending.                      (* it never settles *)

Arguments Fulfilled {A} a.
Arguments Rejected {A} e.
Arguments Pending {A}.

(** An [async] computation over a state [S]. *)
Definition M (S A : Type) : Type := S -> Outcome A * S.

Definition ret {S A} (a : A) : M S A := fun s => (Fulfilled a, s).

Definition throw {S A} (e : JsError) : M S A := fun s => (Rejected e, s).

Definition bind {S A B} (m : M S A) (k : A -> M S B) : M S B :=
  fun s =>
    match m s with
    | (Fulfilled a, s') => k a s'
    | (Rejected e, s') => (Rejected e, s')
    | (Pending, s') => (Pending, s')
    end.

Notation "x <- m ;; k" := (bind m (fun x => k))
  (at level 100, m at next level, right associativity).
Notation "m ;; k" := (bind m (fun _ => k))
  (at level 100, right associativity).

Definition gets {S A} (f : S -> A) : M S A := fun s => (Fulfilled (f s), s).

Definition modify {S} (f : S -> S) : M S unit := fun s => (Fulfilled tt, f s).

(** [try { m } catch (e) { handler e }] *)
Definition try_catch {S A} (m : M S A) (handler : JsError -> M S A) : M S A :=
  fun s =>
    match m s with
    | (Rejected e, s') => handler e s'
    | r => r
    end.

(** [try { m } finally { cleanup }]: the cleanup runs once [m] has
    settled, and the outcome of [m] stands unless the cleanup fails. *)
Definition try_finally {S A} (m : M S A) (cleanup : M S unit) : M S A :=
  fun s =>
    match m s with
    | (Pending, s') => (Pending, s')
    | (r, s') =>
      match cleanup s' with
      | (Fulfilled _, s'') => (r, s'')
      | (Rejected e, s'') => (Rejected e, s'')
      | (Pending, s'') => (Pending, s'')
      end
    end.

(* ===================================================================== *)
(** ** The remote generation service and the host page *)
(* ===================================================================== *)

(** *** What the remote service answers *)

Record InlineData := { data : option string }.

Record Part := { inlineData : option InlineData }.

Record Content := { parts : option (list Part) }.

Record Web := { web_uri : option string; web_title : option string }.

Record GroundingChunk := { web : option Web }.

Record GroundingMetadata := { groundingChunks : option (list GroundingChunk) }.

Record Candidate := {
  content : option Content;
  groundingMetadata : option GroundingMetadata
}.

Record GenerateContentResponse := {
  text : option string;
  candidates : option (list Candidate)
}.

Record Video := { uri : option string }.

Record GeneratedVideo := { video : option Video }.

Record GenerateVideosResponse := { generatedVideos : option (list GeneratedVideo) }.

Record Operation := {
  done : option bool;
  response : option GenerateVideosResponse
}.

Definition Blob := string.

(** How an awaited remote call ends. *)
Inductive Reply (A : Type) :=
| Resolves (a : A)
| Rejects (e : JsError)
| NeverSettles.

Arguments Resolves {A} a.
Arguments Rejects {A} e.
Arguments NeverSettles {A}.

Record FetchResponse := {
  ok : bool;
  http_status : Z;
  statusText : string;
  blob : Reply Blob             (* how [videoResponse.blob()] ends *)
}.

(** *** What a request carries *)

Inductive RequestPart :=
| TextPart (t : Text)
| InlinePart (mimeType : string) (bytes : option string).

(** *** The host authorization surface *)

(** Modelled from the spec: the host authorization surface
    ([window.aistudio]), which the hosting page provides and the
    repository only calls. It offers [hasSelectedApiKey() -> bool] and
    [openSelectKey()], which completes when the key-selection dialog
    closes; the adapter tests each method for presence before calling
    it, so the record says which ones the object has. *)
Record AiStudio := {
  has_hasSelectedApiKey : bool;
  has_openSelectKey : bool
}.

(** *** Everything observable *)

Inductive Event :=
| EnsureApiKeyCall (force : bool)          (* [ensureApiKey(force)] is entered *)
| HasSelectedApiKey                        (* host: is a key selected? *)
| OpenSelectKey                            (* host: the key-selection dialog *)
| GenerateContent (model : string) (contents : list RequestPart)
| GenerateVideos (model : string) (prompt : string) (imageBytes : option string)
| GetVideosOperation
| Sleep (ms : Z)
| Fetch (url : string)
| ReadBlob
| CreateObjectURL (b : Blob)
| ConsoleError (msg : option string) (e : option JsError)
| ConsoleLog (msg : string)
| Alert (msg : string).

(** The world an adapter call runs in: the host page, the answers the
    remote service will give (one queue per operation, consumed in the
    order the requests are issued; an exhausted queue answers no more),
    and the trace of what has been done so far. The code reads
    [process.env.API_KEY] and never writes it, and so it is with
    [API_KEY] here. A host page that puts the selected key there when
    its dialog closes replaces one key by another: what is proved
    below asks only that a key is set, except where the key itself is
    named, and that is said of a guard that opens no dialog. *)
Record World := {
  API_KEY : option string;                     (* [process.env.API_KEY] *)
  aistudio : option AiStudio;                  (* [window.aistudio] *)
  selectedKey : option string;                 (* the key the host holds *)
  keyDialogs : list (option string);           (* what the user will do in the coming dialogs *)
  generateContent_replies : list (Reply GenerateContentResponse);
  generateVideos_replies : list (Reply Operation);
  getVideosOperation_replies : list (Reply Operation);
  fetch_replies : list (Reply FetchResponse);
  objectURLs : list Blob;                      (* blobs that were given a URL *)
  trace : list Event
}.

(** *** Primitive steps *)

Definition set_trace (w : World) (t : list Event) : World :=
  {| API_KEY := API_KEY w; aistudio := aistudio w; selectedKey := selectedKey w;
     keyDialogs := keyDialogs w;
     generateContent_replies := generateContent_replies w;
     generateVideos_replies := generateVideos_replies w;
     getVideosOperation_replies := getVideosOperation_replies w;
     fetch_replies := fetch_replies w; objectURLs := objectURLs w; trace := t |}.

Definition set_key (w : World) (k : option string) (ds : list (option string)) : World :=
  {| API_KEY := API_KEY w; aistudio := aistudio w; selectedKey := k;
     keyDialogs := ds;
     generateContent_replies := generateContent_replies w;
     generateVideos_replies := generateVideos_replies w;
     getVideosOperation_replies := getVideosOperation_replies w;
     fetch_replies := fetch_replies w; objectURLs := objectURLs w; trace := trace w |}.

Definition set_generateContent_replies (w : World) (q : list (Reply GenerateContentResponse)) : World :=
  {| API_KEY := API_KEY w; aistudio := aistudio w; selectedKey := selectedKey w;
     keyDialogs := keyDialogs w;
     generateContent_replies := q;
     generateVideos_replies := generateVideos_replies w;
     getVideosOperation_replies := getVideosOperation_replies w;
     fetch_replies := fetch_replies w; objectURLs := objectURLs w; trace := trace w |}.

Definition set_generateVideos_replies (w : World) (q : list (Reply Operation)) : World :=
  {| API_KEY := API_KEY w; aistudio := aistudio w; selectedKey := selectedKey w;
     keyDialogs := keyDialogs w;
     generateContent_replies := generateContent_replies w;
     generateVideos_replies := q;
     getVideosOperation_replies := getVideosOperation_replies w;
     fetch_replies := fetch_replies w; objectURLs := objectURLs w; trace := trace w |}.

Definition set_getVideosOperation_replies (w : World) (q : list (Reply Operation)) : World :=
  {| API_KEY := API_KEY w; aistudio := aistudio w; selectedKey := selectedKey w;
     keyDialogs := keyDialogs w;
     generateContent_replies := generateContent_replies w;
     generateVideos_replies := generateVideos_replies w;
     getVideosOperation_replies := q;
     fetch_replies := fetch_replies w; objectURLs := objectURLs w; trace := trace w |}.

Definition set_fetch_replies (w : World) (q : list (Reply FetchResponse)) : World :=
  {| API_KEY := API_KEY w; aistudio := aistudio w; selectedKey := selectedKey w;
     keyDialogs := keyDialogs w;
     generateContent_replies := generateContent_replies w;
     generateVideos_replies := generateVideos_replies w;
     getVideosOperation_replies := getVideosOperation_replies w;
     fetch_replies := q; objectURLs := objectURLs w; trace := trace w |}.

Definition set_objectURLs (w : World) (u : list Blob) : World :=
  {| API_KEY := API_KEY w; aistudio := aistudio w; selectedKey := selectedKey w;
     keyDialogs := keyDialogs w;
     generateContent_replies := generateContent_replies w;
     generateVideos_replies := generateVideos_replies w;
     getVideosOperation_replies := getVideosOperation_replies w;
     fetch_replies := fetch_replies w; objectURLs := u; trace := trace w |}.

(** Record an event. *)
Definition emit (e : Event) : M World unit :=
  modify (fun w => set_trace w (trace w ++ [e])%list).

(** [await] on a call that ends as [r]. *)
Definition await {A} (r : Reply A) : M World A :=
  match r with
  | Resolves a => ret a
  | Rejects e => throw e
  | NeverSettles => fun w => (Pending, w)
  end.

(** The next answer of a queue; [rest] puts the remainder back. *)
Definition next_reply {A} (queue : World -> list (Reply A))
    (rest : World -> list (Reply A) -> World) : M World A :=
  fun w =>
    match queue w with
    | [] => (Pending, w)
    | r :: q => await r (rest w q)
    end.

(** The answer a request will get, taken off its queue when the request
    is sent and not yet awaited; a request past the end of the queue is
    never answered. *)
Definition take_reply {A} (queue : World -> list (Reply A))
    (rest : World -> list (Reply A) -> World) : M World (Reply A) :=
  fun w =>
    match queue w with
    | [] => (Fulfilled NeverSettles, w)
    | r :: q => (Fulfilled r, rest w q)
    end.

(** What the constructor of the client throws when it is given no key.
    The constructor is the library's, not the repository's: the browser
    build of [@google/genai] refuses an [apiKey] that is [undefined] (or
    [null]) with this error, and accepts any string. *)
Definition missing_api_key : JsError :=
  Error "An API Key must be set when running in a browser".

(** [const getAI = () => new GoogleGenAI({ apiKey: process.env.API_KEY })].
    The client carries the key into its requests, which the trace does
    not record, so all that is kept of it is that it could be built. *)
Definition getAI : M World unit :=
  key <- gets API_KEY;;
  match key with
  | Some _ => ret tt
  | None => throw missing_api_key
  end.

(** [await ai.models.generateContent({model, contents, ...})] *)
Definition ai_generateContent (model : string) (contents : list RequestPart)
    : M World GenerateContentResponse :=
  emit (GenerateContent model contents);;
  next_reply generateContent_replies set_generateContent_replies.

(** [await ai.models.generateVideos({model, prompt, image, config})] *)
Definition ai_generateVideos (model prompt : string) (imageBytes : option string)
    : M World Operation :=
  emit (GenerateVideos model prompt imageBytes);;
  next_reply generateVideos_replies set_generateVideos_replies.

(** [await ai.operations.getVideosOperation({operation})] *)
Definition ai_getVideosOperation : M World Operation :=
  emit GetVideosOperation;;
  next_reply getVideosOperation_replies set_getVideosOperation_replies.

(** [await fetch(url)] *)
Definition fetch (url : string) : M World FetchResponse :=
  emit (Fetch url);;
  next_reply fetch_replies set_fetch_replies.

(** [await videoResponse.blob()] *)
Definition read_blob (r : FetchResponse) : M World Blob :=
  emit ReadBlob;; await (blob r).

(** [URL.createObjectURL(blob)]: a fresh URL for the blob. *)
Definition createObjectURL (b : Blob) : M World string :=
  emit (CreateObjectURL b);;
  n <- gets (fun w => length (objectURLs w));;
  modify (fun w => set_objectURLs w (objectURLs w ++ [b])%list);;
  ret ("blob:" ++ pretty n).

(** [await new Promise(resolve => setTimeout(resolve, ms))] *)
Definition sleep (ms : Z) : M World unit := emit (Sleep ms).

Definition console_error (msg : option string) (e : option JsError) : M World unit :=
  emit (ConsoleError msg e).

Definition console_log (msg : string) : M World unit := emit (ConsoleLog msg).

(** [await win.aistudio.hasSelectedApiKey()] *)
Definition aistudio_hasSelectedApiKey : M World bool :=
  emit HasSelectedApiKey;;
  gets (fun w => match selectedKey w with Some _ => true | None => false end).

(** [await win.aistudio.openSelectKey()]: the dialog opens, the user
    picks a key or dismisses it, and the call completes. *)
Definition aistudio_openSelectKey : M World unit :=
  emit OpenSelectKey;;
  modify (fun w =>
    match keyDialogs w with
    | [] => w
    | Some k :: rest => set_key w (Some k) rest
    | None :: rest => set_key w (selectedKey w) rest
    end).

(** Calls made one after the other, each run as far as it goes: the
    outcomes in the order of the calls. *)
Fixpoint run_all {A} (ps : list (M World A)) (w : World) : list (Outcome A) * World :=
  match ps with
  | [] => ([], w)
  | p :: ps' =>
    let (r, w') := p w in
    let (rs, w'') := run_all ps' w' in
    (r :: rs, w'')
  end.

(** [array.map(() => call())] for an [async] call: every call runs up to
    its first [await] before the next one starts, and what comes back
    is one promise per call, [Fulfilled a] for a call that now awaits
    [a], [Rejected e] for one that threw before it awaited anything. *)
Definition start_all {A} (starts : list (M World A)) : M World (list (Outcome A)) :=
  fun w => let (rs, w') := run_all starts w in (Fulfilled rs, w').

Fixpoint first_rejection {A} (rs : list (Outcome A)) : option JsError :=
  match rs with
  | [] => None
  | Rejected e :: _ => Some e
  | _ :: rs' => first_rejection rs'
  end.

Fixpoint all_fulfilled {A} (rs : list (Outcome A)) : option (list A) :=
  match rs with
  | [] => Some []
  | Fulfilled a :: rs' =>
    match all_fulfilled rs' with
    | Some l => Some (a :: l)
    | None => None
    end
  | _ :: _ => None
  end.

(** How [Promise.all] settles on the outcomes of its promises: rejected
    when one is rejected, fulfilled with all the values when all are
    fulfilled, pending otherwise. *)
Definition settle_all {A} (rs : list (Outcome A)) : Outcome (list A) :=
  match first_rejection rs with
  | Some e => Rejected e
  | None =>
    match all_fulfilled rs with
    | Some l => Fulfilled l
    | None => Pending
    end
  end.

(** The started calls go on as their answers come in. The answers come
    in the order in which the requests were sent, and a call runs from
    its answer to its end, with whatever it sends and awaits on the
    way, before the next answer is looked at; a call whose answer never
    comes stays where it is. The first call that is rejected ends the
    list: [Promise.all] settles there, and what the calls still in
    flight do afterwards is not followed. *)
Fixpoint resume_all {A B} (resume : A -> M World B) (promises : list (Outcome A))
    (w : World) : list (Outcome B) * World :=
  match promises with
  | [] => ([], w)
  | promise :: promises' =>
    let (r, w') :=
      match promise with
      | Fulfilled a => resume a w
      | Rejected e => (Rejected e, w)
      | Pending => (Pending, w)
      end in
    match r with
    | Rejected e => ([Rejected e], w')
    | _ => let (rs, w'') := resume_all resume promises' w' in (r :: rs, w'')
    end
  end.

(** [await Promise.all(promises)] over calls started with [start_all]:
    a promise that is rejected already rejects the whole at once. *)
Definition Promise_all {A B} (resume : A -> M World B) (promises : list (Outcome A))
    : M World (list B) :=
  fun w =>
    match first_rejection promises with
    | Some e => (Rejected e, w)
    | None => let (rs, w') := resume_all resume promises w in (settle_all rs, w')
    end.

(* ===================================================================== *)
(** ** [types.ts]: the tables the adapter and the component consult *)
(* ===================================================================== *)

Definition Language := string.

Record LanguageEntry := { code : Language; label : string }.

Record Marketplace := { id : string; name : string }.

(** The entries of the string table the orchestrator reads. *)
Record Translations := {
  analyzing : string;
  crafting : string;
  painting : string;
  applyingEdits : string;
  generatingVideo : string;
  errorKey : string;
  errorEdit : string;
  errorVideo : string
}.

Inductive AppStep := DETAILS | RESEARCH | GENERATION | VIDEO.

(** [types.ts] is not among the sources; its tables are parameters. *)
Record Tables := {
  LANGUAGES : list LanguageEntry;
  MARKETPLACES : list Marketplace;
  TRANSLATIONS : Language -> Translations
}.

(** What research returns. [trends] and [references] are whatever the
    parsed answer held. *)
Record Source := { source_uri : option string; source_title : option string }.

Record GroundingData := {
  trends : JsVal;
  references : JsVal;
  sources : list Source
}.

(* ===================================================================== *)
(** ** [services/geminiService.ts] *)
(* ===================================================================== *)

(** [v.p] for a property name [p] that no prototype defines: reading it
    off [null] throws, off anything but an object gives [undefined]. *)
Definition member (v : JsVal) (p : string) : option JsVal :=
  match v with
  | JObject props => props !! p
  | _ => None
  end.

Definition read_property {S} (v : JsVal) (p : string) : M S (option JsVal) :=
  match v with
  | JNull => throw (TypeError_null p)
  | _ => ret (member v p)
  end.

(** [JSON.parse(text)] as a step that may throw. *)
Definition parse_json {S} (text : string) : M S JsVal :=
  match JSON_parse text with
  | Some v => ret v
  | None => throw SyntaxError_JSON
  end.

(** [s || fallback] on a possibly [undefined] string. *)
Definition string_or (s : option string) (fallback : string) : string :=
  match s with
  | Some s => if String.eqb s EmptyString then fallback else s
  | None => fallback
  end.

(** [v || fallback] when the fallback is a value. *)
Definition value_or (v : option JsVal) (fallback : JsVal) : JsVal :=
  if truthy_opt v then match v with Some x => x | None => fallback end else fallback.

Definition q : string := String dquote EmptyString.

Definition quoted (s : string) : string := q ++ s ++ q.

(** [const ensureApiKey = async (force: boolean = false) => ...] *)
Definition ensureApiKey (force : bool) : M World unit :=
  emit (EnsureApiKeyCall force);;
  win <- gets aistudio;;
  match win with
  | Some studio =>
    hasKey <- (if has_hasSelectedApiKey studio then aistudio_hasSelectedApiKey
               else ret false);;
    if force || negb hasKey then
      if has_openSelectKey studio then aistudio_openSelectKey else ret tt
    else ret tt
  | None => ret tt
  end.

Section Adapter.

Variable T : Tables.

(** [LANGUAGES.find(l => l.code === language)?.label || 'English'] *)
Definition langLabel_of (language : Language) : string :=
  string_or (option_map label
               (List.find (fun l => String.eqb (code l) language) (LANGUAGES T)))
            "English".

(** [MARKETPLACES.find(m => m.id === marketplaceId)?.name || 'Amazon'] *)
Definition marketplaceName_of (marketplaceId : option JsVal) : string :=
  string_or (option_map name
               (List.find (fun m => match marketplaceId with
                                    | Some (JString s) => String.eqb (id m) s
                                    | _ => false
                                    end) (MARKETPLACES T)))
            "Amazon".

Definition researchTrends_prompt (searchContext : Text) (marketplaceName : string)
    (topic : option JsVal) (langLabel : string) : Text :=
  ([Lit "You are an expert Art Director for Amazon KDP. 
      Search specifically for the current "; Lit q; Lit "Best Sellers in "]
   ++ searchContext ++
   [Lit q; Lit " on "; Lit marketplaceName; Lit ".
      
      1. Analyze the top 3-5 best-selling book covers VISUALLY.
      2. Identify the specific Title and Author of the books you found.
      3. Explain briefly why their cover is working (colors, font, imagery).
      4. Synthesize a trend summary for a new book on topic: "; Lit q; Splice topic; Lit q; Lit ".
      
      Return a JSON object with:
      - trends: The summary of the visual style.
      - references: An array of the specific books you analyzed (Title, Author, VisualHook).
      
      Language for text fields: "; Lit langLabel; Lit "."])%list.

(** The links of the grounding metadata:
    [response.candidates?.[0]?.groundingMetadata?.groundingChunks
       ?.map(chunk => chunk.web ? {uri, title} : null).filter(Boolean) || []] *)
Definition grounding_sources (response : GenerateContentResponse) : list Source :=
  match candidates response with
  | Some (c :: _) =>
    match groundingMetadata c with
    | Some gm =>
      match groundingChunks gm with
      | Some chunks =>
        flat_map (fun chunk =>
                    match web chunk with
                    | Some w => [{| source_uri := web_uri w; source_title := web_title w |}]
                    | None => []
                    end) chunks
      | None => []
      end
    | None => []
    end
  | _ => []
  end.

Definition research_default_text : string :=
  "{" ++ quoted "trends" ++ ": " ++ quoted EmptyString ++ ", "
      ++ quoted "references" ++ ": []}".

Definition research_fallback : GroundingData :=
  {| trends := JString "Unable to fetch live trends. Using general design principles.";
     references := JArray [];
     sources := [] |}.

(** The [try] block of [researchTrends]. *)
Definition researchTrends_try (category topic targetMarket marketplaceId : option JsVal)
    (language : Language) : M World GroundingData :=
  let langLabel := langLabel_of language in
  let marketplaceName := marketplaceName_of marketplaceId in
  let searchContext : Text :=
    if truthy_opt targetMarket then [Splice targetMarket]
    else [Splice category; Lit " books"] in
  response <- ai_generateContent "gemini-3-flash-preview"
      [TextPart (researchTrends_prompt searchContext marketplaceName topic langLabel)];;
  data <- parse_json (string_or (text response) research_default_text);;
  let sources := grounding_sources response in
  data_trends <- read_property data "trends";;
  data_references <- read_property data "references";;
  ret {| trends := value_or data_trends (JString "Analysis complete.");
         references := value_or data_references (JArray []);
         sources := sources |}.

(** [export const researchTrends = async (category, topic, targetMarket,
    marketplaceId, language): Promise<GroundingData>] *)
Definition researchTrends (category topic targetMarket marketplaceId : option JsVal)
    (language : Language) : M World GroundingData :=
  getAI;;
  try_catch (researchTrends_try category topic targetMarket marketplaceId language)
    (fun error =>
       console_error (Some "Trend research failed") (Some error);;
       ret research_fallback).

Definition generateBookText_prompt (topic category author : option JsVal)
    (langLabel : string) : Text :=
  [Lit "Generate catchy book metadata for a bestseller in "; Lit q; Splice category; Lit q;
   Lit " about "; Lit q; Splice topic; Lit q; Lit " by author "; Lit q; Splice author; Lit q;
   Lit ".
    Return ONLY a JSON object with keys: title, subtitle, description.
    
    Language: "; Lit langLabel; Lit ".
    
    - title: Catchy, memorable, fits the genre, in "; Lit langLabel; Lit ".
    - subtitle: Explains the value proposition or hook, in "; Lit langLabel; Lit ".
    - description: A short, punchy, motivational blurb (max 25 words) for the front cover, in ";
   Lit langLabel; Lit "."].

(** The object literal of the [catch]: title [Untitled], subtitle and
    description empty. *)
Definition placeholder : JsVal :=
  JObject (<["title" := JString "Untitled"]>
           (<["subtitle" := JString EmptyString]>
            (<["description" := JString EmptyString]> ∅))).

(** The [try { return JSON.parse(response.text || '{}') } catch (e) {...}]
    at the end of [generateBookText]. *)
Definition parse_book_text {S} (response : GenerateContentResponse) : M S JsVal :=
  try_catch (parse_json (string_or (text response) "{}"))
            (fun e => ret placeholder).

(** [export const generateBookText = async (topic, category, author,
    language): Promise<Partial<BookMetadata>>] *)
Definition generateBookText (topic category author : option JsVal)
    (language : Language) : M World JsVal :=
  getAI;;
  let langLabel := langLabel_of language in
  response <- ai_generateContent "gemini-3-flash-preview"
      [TextPart (generateBookText_prompt topic category author langLabel)];;
  parse_book_text response.

End Adapter.

(** [response.candidates?.[0]?.content?.parts || []] *)
Definition response_parts (response : GenerateContentResponse) : list Part :=
  match candidates response with
  | Some (c :: _) =>
    match content c with
    | Some ct => match parts ct with Some ps => ps | None => [] end
    | None => []
    end
  | _ => []
  end.

(** The loop [for (const part of ...) if (part.inlineData) return
    `data:image/png;base64,${part.inlineData.data}`]: the first inline
    image, if any. *)
Fixpoint first_inline_image (ps : list Part) : option string :=
  match ps with
  | [] => None
  | part :: ps' =>
    match inlineData part with
    | Some d => Some ("data:image/png;base64," ++ string_or_undefined (data d))
    | None => first_inline_image ps'
    end
  end.

(** The [try] block of [generateSingleImage]. *)
Definition generateSingleImage_try (prompt : Text) : M World string :=
  response <- ai_generateContent "gemini-3-pro-image-preview" [TextPart prompt];;
  match first_inline_image (response_parts response) with
  | Some image => ret image
  | None => throw (Error "No image generated in this attempt")
  end.

(** [const generateSingleImage = async (prompt, retry): Promise<string>].
    The function calls itself once, with [retry] false; the inner call
    is [generateSingleImage_last]. *)
Definition generateSingleImage_last (prompt : Text) : M World string :=
  getAI;;
  try_catch (generateSingleImage_try prompt) (fun error => throw error).

(** The [catch] block of [generateSingleImage]. *)
Definition generateSingleImage_catch (prompt : Text) (retry : bool) (error : JsError)
    : M World string :=
  if retry && is_permission_denied error then
    console_log "Permission denied, prompting for key selection again...";;
    ensureApiKey true;;
    generateSingleImage_last prompt
  else throw error.

Definition generateSingleImage (prompt : Text) (retry : bool) : M World string :=
  getAI;;
  try_catch (generateSingleImage_try prompt) (generateSingleImage_catch prompt retry).

(** [generateSingleImage(prompt, retry)] in two parts, as
    [generateCoverImages] needs it: up to its first [await], where the
    client is built and the request is sent, and from the answer to the
    request onwards. [generateSingleImage_in_two_parts] below shows
    that the two parts make up the function. *)
Definition generateSingleImage_start (prompt : Text)
    : M World (Reply GenerateContentResponse) :=
  getAI;;
  emit (GenerateContent "gemini-3-pro-image-preview" [TextPart prompt]);;
  take_reply generateContent_replies set_generateContent_replies.

Definition generateSingleImage_resume (prompt : Text) (retry : bool)
    (answer : Reply GenerateContentResponse) : M World string :=
  try_catch
    (response <- await answer;;
     match first_inline_image (response_parts response) with
     | Some image => ret image
     | None => throw (Error "No image generated in this attempt")
     end)
    (generateSingleImage_catch prompt retry).

(** [export const generateCoverImages = async (prompt): Promise<string[]>].
    The three calls are started together, [[1, 2, 3].map(() =>
    generateSingleImage(prompt, true))], and awaited together. *)
Definition generateCoverImages (prompt : Text) : M World (list string) :=
  ensureApiKey false;;
  try_catch
    (promises <- start_all (map (fun _ : nat => generateSingleImage_start prompt)
                              [1; 2; 3]);;
     Promise_all (generateSingleImage_resume prompt true) promises)
    (fun error =>
       console_error (Some "Image generation failed") (Some error);;
       throw error).

(** [export const editCoverImage = async (imageBase64, instruction):
    Promise<string>] *)
Definition editCoverImage (imageBase64 instruction : string) : M World string :=
  getAI;;
  let cleanBase64 := split_comma_1 imageBase64 in
  try_catch
    (response <- ai_generateContent "gemini-2.5-flash-image"
        [InlinePart "image/png" cleanBase64; TextPart (lit instruction)];;
     match first_inline_image (response_parts response) with
     | Some image => ret image
     | None => throw (Error "No edited image returned")
     end)
    (fun error =>
       console_error (Some "Image editing failed") (Some error);;
       throw error).

(** [!operation.done] is false only for a [done] that is [true]. *)
Definition is_done (operation : Operation) : bool :=
  match done operation with
  | Some true => true
  | _ => false
  end.

(** [while (!operation.done) { await sleep(5000); operation = await
    getVideosOperation(operation) }]. Every round takes one answer off
    the queue of [getVideosOperation]; [fuel] bounds the rounds and is
    set above the length of that queue by the caller. *)
Fixpoint poll (fuel : nat) (operation : Operation) : M World Operation :=
  if is_done operation then ret operation
  else
    match fuel with
    | O => fun w => (Pending, w)
    | S fuel' =>
      sleep 5000;;
      operation' <- ai_getVideosOperation;;
      poll fuel' operation'
    end.

(** [operation.response?.generatedVideos?.[0]?.video?.uri] *)
Definition operation_videoUri (operation : Operation) : option string :=
  match response operation with
  | Some r =>
    match generatedVideos r with
    | Some (v :: _) =>
      match video v with
      | Some vd => uri vd
      | None => None
      end
    | _ => None
    end
  | None => None
  end.

(** The [try] block of the inner [generate] of [generateVeoVideo]. *)
Definition generate_try (imageBase64 prompt : string) : M World string :=
  let cleanBase64 := split_comma_1 imageBase64 in
  operation <- ai_generateVideos "veo-3.1-fast-generate-preview"
      (string_or (Some prompt) "Cinematic camera movement bringing this book cover to life.")
      cleanBase64;;
  fuel <- gets (fun w => S (length (getVideosOperation_replies w)));;
  operation <- poll fuel operation;;
  match operation_videoUri operation with
  | None => throw (Error "Video generation failed to return URI")
  | Some videoUri =>
    if String.eqb videoUri EmptyString
    then throw (Error "Video generation failed to return URI")
    else
      key <- gets API_KEY;;
      videoResponse <- fetch (videoUri ++ "&key=" ++ string_or_undefined key);;
      if negb (ok videoResponse) then
        if (http_status videoResponse =? 403)%Z then throw (Error "PERMISSION_DENIED")
        else throw (Error ("Video fetch failed: " ++ statusText videoResponse))
      else
        videoBlob <- read_blob videoResponse;;
        createObjectURL videoBlob
  end.

(** [const generate = async (retry: boolean) => ...]; as in
    [generateSingleImage], the one inner call has [retry] false. *)
Definition generate_last (imageBase64 prompt : string) : M World string :=
  getAI;;
  try_catch (generate_try imageBase64 prompt) (fun error => throw error).

Definition generate (imageBase64 prompt : string) (retry : bool) : M World string :=
  getAI;;
  try_catch (generate_try imageBase64 prompt)
    (fun error =>
       if retry && is_permission_denied error then
         console_log "Permission denied for Veo, prompting for key selection again...";;
         ensureApiKey true;;
         generate_last imageBase64 prompt
       else throw error).

(** [export const generateVeoVideo = async (imageBase64, prompt):
    Promise<string>] *)
Definition generateVeoVideo (imageBase64 prompt : string) : M World string :=
  ensureApiKey false;;
  try_catch (generate imageBase64 prompt true)
    (fun error =>
       console_error (Some "Veo generation failed") (Some error);;
       throw error).

(* ===================================================================== *)
(** ** The [App] component: session state and handlers *)
(* ===================================================================== *)

(** The component's state. [metadata] is the object the merges of
    generated text leave behind: a map from property names to values. *)
Record AppState := {
  step : AppStep;
  isLoading : bool;
  statusMessage : Text;
  language : Language;
  metadata : gmap string JsVal;
  groundingData : option GroundingData;
  generatedImages : list string;
  coverImage : option string;
  videoUrl : option string;
  editPrompt : string;
  videoPrompt : string
}.

Record Session := { app : AppState; world : World }.

Definition liftW {A} (m : M World A) : M Session A :=
  fun s => let (r, w') := m (world s) in (r, {| app := app s; world := w' |}).

Definition update (f : AppState -> AppState) : M Session unit :=
  modify (fun s => {| app := f (app s); world := world s |}).

(** The state with one field replaced. *)
Definition with_step (v : AppStep) (a : AppState) : AppState :=
  {| step := v; isLoading := isLoading a; statusMessage := statusMessage a;
     language := language a; metadata := metadata a; groundingData := groundingData a;
     generatedImages := generatedImages a; coverImage := coverImage a;
     videoUrl := videoUrl a; editPrompt := editPrompt a; videoPrompt := videoPrompt a |}.

Definition with_isLoading (v : bool) (a : AppState) : AppState :=
  {| step := step a; isLoading := v; statusMessage := statusMessage a;
     language := language a; metadata := metadata a; groundingData := groundingData a;
     generatedImages := generatedImages a; coverImage := coverImage a;
     videoUrl := videoUrl a; editPrompt := editPrompt a; videoPrompt := videoPrompt a |}.

Definition with_statusMessage (v : Text) (a : AppState) : AppState :=
  {| step := step a; isLoading := isLoading a; statusMessage := v;
     language := language a; metadata := metadata a; groundingData := groundingData a;
     generatedImages := generatedImages a; coverImage := coverImage a;
     videoUrl := videoUrl a; editPrompt := editPrompt a; videoPrompt := videoPrompt a |}.

Definition with_metadata (v : gmap string JsVal) (a : AppState) : AppState :=
  {| step := step a; isLoading := isLoading a; statusMessage := statusMessage a;
     language := language a; metadata := v; groundingData := groundingData a;
     generatedImages := generatedImages a; coverImage := coverImage a;
     videoUrl := videoUrl a; editPrompt := editPrompt a; videoPrompt := videoPrompt a |}.

Definition with_groundingData (v : option GroundingData) (a : AppState) : AppState :=
  {| step := step a; isLoading := isLoading a; statusMessage := statusMessage a;
     language := language a; metadata := metadata a; groundingData := v;
     generatedImages := generatedImages a; coverImage := coverImage a;
     videoUrl := videoUrl a; editPrompt := editPrompt a; videoPrompt := videoPrompt a |}.

Definition with_generatedImages (v : list string) (a : AppState) : AppState :=
  {| step := step a; isLoading := isLoading a; statusMessage := statusMessage a;
     language := language a; metadata := metadata a; groundingData := groundingData a;
     generatedImages := v; coverImage := coverImage a; videoUrl := videoUrl a;
     editPrompt := editPrompt a; videoPrompt := videoPrompt a |}.

Definition with_coverImage (v : option string) (a : AppState) : AppState :=
  {| step := step a; isLoading := isLoading a; statusMessage := statusMessage a;
     language := language a; metadata := metadata a; groundingData := groundingData a;
     generatedImages := generatedImages a; coverImage := v; videoUrl := videoUrl a;
     editPrompt := editPrompt a; videoPrompt := videoPrompt a |}.

Definition with_videoUrl (v : option string) (a : AppState) : AppState :=
  {| step := step a; isLoading := isLoading a; statusMessage := statusMessage a;
     language := language a; metadata := metadata a; groundingData := groundingData a;
     generatedImages := generatedImages a; coverImage := coverImage a; videoUrl := v;
     editPrompt := editPrompt a; videoPrompt := videoPrompt a |}.

Definition with_editPrompt (v : string) (a : AppState) : AppState :=
  {| step := step a; isLoading := isLoading a; statusMessage := statusMessage a;
     language := language a; metadata := metadata a; groundingData := groundingData a;
     generatedImages := generatedImages a; coverImage := coverImage a;
     videoUrl := videoUrl a; editPrompt := v; videoPrompt := videoPrompt a |}.

(** The setters of the [useState] hooks. *)
Definition setStep (v : AppStep) : M Session unit := update (with_step v).

Definition setIsLoading (v : bool) : M Session unit := update (with_isLoading v).

Definition setStatusMessage (v : Text) : M Session unit := update (with_statusMessage v).

(** [setMetadata(prev => f(prev))] *)
Definition setMetadata (f : gmap string JsVal -> gmap string JsVal) : M Session unit :=
  update (fun a => with_metadata (f (metadata a)) a).

Definition setGroundingData (v : option GroundingData) : M Session unit := update (with_groundingData v).

Definition setGeneratedImages (v : list string) : M Session unit := update (with_generatedImages v).

Definition setCoverImage (v : option string) : M Session unit := update (with_coverImage v).

Definition setVideoUrl (v : option string) : M Session unit := update (with_videoUrl v).

Definition setEditPrompt (v : string) : M Session unit := update (with_editPrompt v).

Definition alert (msg : string) : M Session unit := liftW (emit (Alert msg)).

(** The own enumerable properties a spread [...v] copies: those of an
    object; the indices of an array or of a string; none of the rest. *)
Definition own_properties (v : JsVal) : gmap string JsVal :=
  match v with
  | JObject props => props
  | JArray items => list_to_map (imap (fun i x => (pretty i, x)) items)
  | JString s =>
    list_to_map (imap (fun i u => (pretty i, JString u)) (code_unit_strings s))
  | _ => ∅
  end.

(** [{ ...prev, ...v }] *)
Definition spread (prev : gmap string JsVal) (v : JsVal) : gmap string JsVal :=
  own_properties v ∪ prev.

Section App.

Variable T : Tables.

Definition imagePrompt_of (metadata : gmap string JsVal) (marketplaceName : string)
    (niche : option JsVal) (research : GroundingData) : Text :=
  [Lit "
        Create a stunning, high-resolution book cover art (NO TEXT) for a ";
   Splice (metadata !! "category"); Lit " book.
        Marketplace: "; Lit marketplaceName; Lit ".
        Niche: "; Splice niche; Lit ".
        Topic: "; Splice (metadata !! "topic"); Lit ".
        Art Direction: "; Splice (Some (trends research)); Lit ".
        
        CRITICAL COMPOSITION RULES:
        1. TOP 40% of the image MUST be a PLAIN, SOLID, DARK or NEUTRAL BACKGROUND (sky, wall, void). 
        2. NO complex details, NO faces, NO objects in the TOP 40% to ensure title readability.
        3. The MAIN SUBJECT/CHARACTER/ACTION must be strictly contained in the BOTTOM 60% of the frame.
        
        Style: Professional, polished, cinematic lighting.
      "].

(** The [try] block of [startProcess]; [metadata], [language] and [t]
    are those of the render the handler closes over. *)
Definition startProcess_try (metadata : gmap string JsVal) (language : Language)
    (t : Translations) : M Session unit :=
  let marketplaceName := marketplaceName_of T (metadata !! "amazonMarketplace") in
  let niche := js_or (metadata !! "targetMarket") (metadata !! "category") in
  setStatusMessage [Lit (analyzing t); Lit " "; Lit marketplaceName; Lit " (";
                    Splice niche; Lit ")..."];;
  research <- liftW (researchTrends T (metadata !! "category") (metadata !! "topic")
                       (metadata !! "targetMarket") (metadata !! "amazonMarketplace")
                       language);;
  setGroundingData (Some research);;
  setStatusMessage (lit (crafting t));;
  textData <- liftW (generateBookText T (metadata !! "topic") (metadata !! "category")
                       (metadata !! "author") language);;
  setMetadata (fun prev => spread prev textData);;
  setStatusMessage (lit (painting t));;
  let imagePrompt := imagePrompt_of metadata marketplaceName niche research in
  images <- liftW (generateCoverImages imagePrompt);;
  setGeneratedImages images;;
  setCoverImage (head images);;
  setStep GENERATION.

(** [const startProcess = async () => ...] *)
Definition startProcess : M Session unit :=
  a <- gets app;;
  let metadata := metadata a in
  let language := language a in
  let t := TRANSLATIONS T language in
  if negb (truthy_opt (metadata !! "topic")) || negb (truthy_opt (metadata !! "author"))
  then alert "Please enter a topic and author name."
  else
    setStep RESEARCH;;
    setIsLoading true;;
    try_finally
      (try_catch (startProcess_try metadata language t)
         (fun error =>
            liftW (console_error None (Some error));;
            alert (errorKey t)))
      (setIsLoading false;;
       setStatusMessage (lit EmptyString)).

(** [const handleEditImage = async () => ...]; [!coverImage] holds of
    [null] and of the empty string. *)
Definition handleEditImage : M Session unit :=
  a <- gets app;;
  let t := TRANSLATIONS T (language a) in
  match coverImage a with
  | None => ret tt
  | Some image =>
    if String.eqb image EmptyString || String.eqb (editPrompt a) EmptyString then ret tt
    else
      setIsLoading true;;
      setStatusMessage (lit (applyingEdits t));;
      try_finally
        (try_catch
           (newImage <- liftW (editCoverImage image (editPrompt a));;
            setCoverImage (Some newImage);;
            setEditPrompt EmptyString)
           (fun e => alert (errorEdit t)))
        (setIsLoading false;;
         setStatusMessage (lit EmptyString))
  end.

(** [const handleCreateVideo = async () => ...] *)
Definition handleCreateVideo : M Session unit :=
  a <- gets app;;
  let t := TRANSLATIONS T (language a) in
  match coverImage a with
  | None => ret tt
  | Some image =>
    if String.eqb image EmptyString then ret tt
    else
      setIsLoading true;;
      setStatusMessage (lit (generatingVideo t));;
      try_finally
        (try_catch
           (url <- liftW (generateVeoVideo image (videoPrompt a));;
            setVideoUrl (Some url);;
            setStep VIDEO)
           (fun e => alert (errorVideo t)))
        (setIsLoading false;;
         setStatusMessage (lit EmptyString))
  end.

End App.

(* ===================================================================== *)
(** * Properties *)
(* ===================================================================== *)

(** ** Counting what a run did *)

Fixpoint count_events (p : Event -> bool) (t : list Event) : nat :=
  match t with
  | [] => 0
  | e :: t' => (if p e then 1 else 0) + count_events p t'
  end.

(** An entry into [ensureApiKey(true)]: a forced re-authorization. *)
Definition is_reauthorization (e : Event) : bool :=
  match e with
  | EnsureApiKeyCall true => true
  | _ => false
  end.

(** Any entry into [ensureApiKey]. *)
Definition is_ensureApiKey (e : Event) : bool :=
  match e with
  | EnsureApiKeyCall _ => true
  | _ => false
  end.

(** The key-selection dialog. *)
Definition is_dialog (e : Event) : bool :=
  match e with
  | OpenSelectKey => true
  | _ => false
  end.

(** A [generateContent] request, the remote call of image generation and
    of image editing. *)
Definition is_generateContent (e : Event) : bool :=
  match e with
  | GenerateContent _ _ => true
  | _ => false
  end.

(** A [generateVideos] request, which opens every attempt at a video. *)
Definition is_generateVideos (e : Event) : bool :=
  match e with
  | GenerateVideos _ _ _ => true
  | _ => false
  end.

(** Anything sent to the remote service. *)
Definition is_remote (e : Event) : bool :=
  match e with
  | GenerateContent _ _ | GenerateVideos _ _ _ | GetVideosOperation
  | Fetch _ | ReadBlob => true
  | _ => false
  end.

(** Every event a computation adds to the trace passes the test [p]. *)
Definition only_emits {A} (p : Event -> bool) (m : M World A) : Prop :=
  forall w r w', m w = (r, w') ->
    exists d, trace w' = (trace w ++ d)%list /\ forallb p d = true.

(** A computation that leaves [process.env.API_KEY] as it finds it. *)
Definition keeps_key {A} (m : M World A) : Prop :=
  forall w r w', m w = (r, w') -> API_KEY w' = API_KEY w.

(** Neither an entry into [ensureApiKey] nor the opening request of an
    attempt ([generateContent], [generateVideos]). *)
Definition is_follow_up (e : Event) : bool :=
  negb (is_ensureApiKey e) && negb (is_generateContent e) && negb (is_generateVideos e).

(** What the host page does for [ensureApiKey]. *)
Definition is_host (e : Event) : bool :=
  match e with
  | HasSelectedApiKey | OpenSelectKey => true
  | _ => false
  end.

(** [const hasKey = ...] as [ensureApiKey] computes it. *)
Definition no_key_selected (w : World) : bool :=
  match selectedKey w with
  | Some _ => false
  | None => true
  end.

(** The host page's surface and the service's coming answers are the
    same in both worlds. *)
Definition same_service (w w' : World) : Prop :=
  aistudio w' = aistudio w
  /\ API_KEY w' = API_KEY w
  /\ generateContent_replies w' = generateContent_replies w
  /\ generateVideos_replies w' = generateVideos_replies w
  /\ getVideosOperation_replies w' = getVideosOperation_replies w
  /\ fetch_replies w' = fetch_replies w
  /\ objectURLs w' = objectURLs w.

(** The host calls [ensureApiKey] makes: the question, when the surface
    has it, and the dialog, when the surface has it and the call is
    forced or no key is known to be selected. *)
Definition ensureApiKey_host_calls (force : bool) (w : World) : list Event :=
  match aistudio w with
  | Some studio =>
    ((if has_hasSelectedApiKey studio then [HasSelectedApiKey] else [])
     ++ (if has_openSelectKey studio
            && (force || negb (has_hasSelectedApiKey studio) || no_key_selected w)
         then [OpenSelectKey] else []))%list
  | None => []
  end.

(** The session once [startProcess] has passed its validation:
    [setStep(AppStep.RESEARCH); setIsLoading(true)]. *)
Definition entered (s : Session) : Session :=
  {| app := with_isLoading true (with_step RESEARCH (app s)); world := world s |}.

(** ** Well-formed research results *)

(** Modelled from the spec: [GroundingData], whose declaration is in
    [types.ts]: a research summary text, a list of reference entries
    (title, author, visual-hook text) and a list of source links (uri,
    title). The component reads the entries as [ref.title],
    [ref.author] and [ref.visualHook], and the links as [s.uri] and
    [s.title]. *)
Definition is_string (v : JsVal) : bool :=
  match v with JString _ => true | _ => false end.

Definition has_text (props : gmap string JsVal) (p : string) : bool :=
  match props !! p with
  | Some (JString _) => true
  | _ => false
  end.

Definition is_reference (v : JsVal) : bool :=
  match v with
  | JObject props =>
    has_text props "title" && has_text props "author" && has_text props "visualHook"
  | _ => false
  end.

Definition is_references (v : JsVal) : bool :=
  match v with
  | JArray entries => forallb is_reference entries
  | _ => false
  end.

Definition is_source (s : Source) : bool :=
  match source_uri s, source_title s with
  | Some _, Some _ => true
  | _, _ => false
  end.

Definition well_formed (g : GroundingData) : Prop :=
  is_string (trends g) = true
  /\ is_references (references g) = true
  /\ forallb is_source (sources g) = true.

(** [process.env.API_KEY] is set, so that [getAI] can build a client. *)
Definition has_API_KEY (w : World) : bool :=
  match API_KEY w with
  | Some _ => true
  | None => false
  end.

(** A property of the parsed answer that is absent or falsy, or passes
    the test [ok]. *)
Definition falsy_or (ok : JsVal -> bool) (v : option JsVal) : Prop :=
  truthy_opt v = false \/ exists x, v = Some x /\ ok x = true.

(** ** Sample data for the closed examples *)

Definition sample_translations : Translations :=
  {| analyzing := "Analyzing"; crafting := "Crafting text";
     painting := "Painting covers"; applyingEdits := "Applying edits";
     generatingVideo := "Generating video";
     errorKey := "Generation failed. Check your API key.";
     errorEdit := "Edit failed."; errorVideo := "Video failed." |}.

Definition sample_tables : Tables :=
  {| LANGUAGES := [ {| code := "it"; label := "Italiano" |};
                    {| code := "en"; label := "English" |} ];
     MARKETPLACES := [ {| id := "amazon.it"; name := "Amazon.it" |} ];
     TRANSLATIONS := fun _ => sample_translations |}.

(** The metadata of the spec's example. *)
Definition sample_metadata : gmap string JsVal :=
  <["amazonMarketplace" := JString "amazon.it"]>
  (<["category" := JString "Self-Help"]>
  (<["targetMarket" := JString EmptyString]>
  (<["topic" := JString "stoic philosophy for beginners"]>
  (<["author" := JString "J. Doe"]>
  (<["title" := JString EmptyString]>
  (<["subtitle" := JString EmptyString]>
  (<["description" := JString EmptyString]> ∅))))))).

Definition sample_app (m : gmap string JsVal) : AppState :=
  {| step := DETAILS; isLoading := false; statusMessage := lit EmptyString;
     language := "it"; metadata := m; groundingData := None;
     generatedImages := []; coverImage := None; videoUrl := None;
     editPrompt := EmptyString; videoPrompt := EmptyString |}.

(** A host page with the full authorization surface and no key selected
    yet, and a service that will give the answers [answers] to
    [generateContent]. *)
Definition sample_world (answers : list (Reply GenerateContentResponse)) : World :=
  {| API_KEY := Some "key-0";
     aistudio := Some {| has_hasSelectedApiKey := true; has_openSelectKey := true |};
     selectedKey := None; keyDialogs := [Some "key-1"; Some "key-2"];
     generateContent_replies := answers;
     generateVideos_replies := []; getVideosOperation_replies := [];
     fetch_replies := []; objectURLs := []; trace := [] |}.

(** An answer whose text is [s]. *)
Definition text_answer (s : option string) : GenerateContentResponse :=
  {| text := s; candidates := None |}.

(** An answer that carries one inline image. *)
Definition image_answer (d : string) : GenerateContentResponse :=
  {| text := None;
     candidates := Some [ {| content := Some {| parts := Some [ {| inlineData := Some {| data := Some d |} |} ] |};
                            groundingMetadata := None |} ] |}.

(** A permission failure as the service reports it. *)
Definition denied : JsError :=
  {| message := Some "PERMISSION_DENIED: the caller does not have permission";
     status := Some 403%Z |}.

(** A failure that is no permission failure. *)
Definition unavailable : JsError :=
  {| message := Some "The model is overloaded"; status := Some 503%Z |}.

(** An answer whose [trends] is a number. *)
Definition numeric_trends_text : string := "{" ++ quoted "trends" ++ ": 7}".

(** A service that will give the answers [answers] to [generateVideos]. *)
Definition sample_video_world (answers : list (Reply Operation)) : World :=
  {| API_KEY := Some "key-0";
     aistudio := Some {| has_hasSelectedApiKey := true; has_openSelectKey := true |};
     selectedKey := Some "key-0"; keyDialogs := [Some "key-1"];
     generateContent_replies := [];
     generateVideos_replies := answers; getVideosOperation_replies := [];
     fetch_replies := []; objectURLs := []; trace := [] |}.

Definition sample_prompt : Text := lit "A lighthouse at dusk".

Definition sample_image : string := "data:image/png;base64,AAAA".

(** An answer whose JSON object carries an author and no title. *)
Definition author_only_text : string :=
  "{" ++ quoted "author" ++ ": " ++ quoted "Ghost Writer" ++ "}".

(** A session of the spec's example in which research and the three
    images succeed and the text step answers [author_only_text]. *)
Definition overwritten_session : Session :=
  {| app := sample_app sample_metadata;
     world := sample_world
                [Resolves (text_answer None);
                 Resolves (text_answer (Some author_only_text));
                 Resolves (image_answer "AAAA");
                 Resolves (image_answer "BBBB");
                 Resolves (image_answer "CCCC")] |}.

(** An answer whose JSON object carries a title. *)
Definition titled_text : string :=
  "{" ++ quoted "title" ++ ": " ++ quoted "The Calm Mind" ++ "}".

(** A session of the spec's example in which every step succeeds. *)
Definition good_session : Session :=
  {| app := sample_app sample_metadata;
     world := sample_world
                [Resolves (text_answer None);
                 Resolves (text_answer (Some titled_text));
                 Resolves (image_answer "AAAA");
                 Resolves (image_answer "BBBB");
                 Resolves (image_answer "CCCC")] |}.

(** A session of the spec's example in which the text step is rejected. *)
Definition failing_session : Session :=
  {| app := sample_app sample_metadata;
     world := sample_world [Resolves (text_answer None); Rejects unavailable] |}.

(** A session that has a cover and an edit instruction. *)
Definition editing_app : AppState :=
  with_editPrompt "make the sky darker"
    (with_coverImage (Some sample_image)
       (with_generatedImages [sample_image] (with_step GENERATION (sample_app sample_metadata)))).

Definition editing_session (answers : list (Reply GenerateContentResponse)) : Session :=
  {| app := editing_app; world := sample_world answers |}.

(** The value a promise was fulfilled with, [d] if it was not. *)
Definition settled {A} (o : Outcome A) (d : A) : A :=
  match o with
  | Fulfilled a => a
  | _ => d
  end.

(** The three steps of the pipeline on the sample metadata, each run in
    the world its predecessor left. *)
Definition sample_research_run (w : World) : Outcome GroundingData * World :=
  researchTrends sample_tables (sample_metadata !! "category")
    (sample_metadata !! "topic") (sample_metadata !! "targetMarket")
    (sample_metadata !! "amazonMarketplace") "it" w.

Definition sample_text_run (w : World) : Outcome JsVal * World :=
  generateBookText sample_tables (sample_metadata !! "topic")
    (sample_metadata !! "category") (sample_metadata !! "author") "it"
    (snd (sample_research_run w)).

Definition sample_image_run (w : World) : Outcome (list string) * World :=
  generateCoverImages
    (imagePrompt_of sample_metadata
       (marketplaceName_of sample_tables (sample_metadata !! "amazonMarketplace"))
       (js_or (sample_metadata !! "targetMarket") (sample_metadata !! "category"))
       (settled (fst (sample_research_run w)) research_fallback))
    (snd (sample_text_run w)).

(** A finished video job with a result, and a [fetch] that the service
    refuses with status 403. *)
Definition finished_operation : Operation :=
  {| done := Some true;
     response := Some {| generatedVideos :=
                           Some [ {| video := Some {| uri := Some "https://video.example/v1?alt=media" |} |} ] |} |}.

Definition forbidden_fetch : FetchResponse :=
  {| ok := false; http_status := 403; statusText := "Forbidden"; blob := NeverSettles |}.

(* ===================================================================== *)
(** ** The rest of the component: inputs, selection and views *)
(* ===================================================================== *)

Definition with_language (v : Language) (a : AppState) : AppState :=
  {| step := step a; isLoading := isLoading a; statusMessage := statusMessage a;
     language := v; metadata := metadata a; groundingData := groundingData a;
     generatedImages := generatedImages a; coverImage := coverImage a;
     videoUrl := videoUrl a; editPrompt := editPrompt a; videoPrompt := videoPrompt a |}.

Definition with_videoPrompt (v : string) (a : AppState) : AppState :=
  {| step := step a; isLoading := isLoading a; statusMessage := statusMessage a;
     language := language a; metadata := metadata a; groundingData := groundingData a;
     generatedImages := generatedImages a; coverImage := coverImage a;
     videoUrl := videoUrl a; editPrompt := editPrompt a; videoPrompt := v |}.

Definition setLanguage (v : Language) : M Session unit := update (with_language v).

Definition setVideoPrompt (v : string) : M Session unit := update (with_videoPrompt v).

(** [const handleInputChange = (field, value) =>
      setMetadata(prev => ({ ...prev, [field]: value }))] *)
Definition handleInputChange (field value : string) : M Session unit :=
  setMetadata (fun prev => <[field := JString value]> prev).

(** The thumbnail of index [idx]:
    [generatedImages.map((img, idx) => ... onClick={() => setCoverImage(img)})].
    There is no thumbnail past the end of the list. *)
Definition selectThumbnail (idx : nat) : M Session unit :=
  a <- gets app;;
  match generatedImages a !! idx with
  | Some img => setCoverImage (Some img)
  | None => ret tt
  end.

(** The start-over button: [onClick={() => setStep(AppStep.DETAILS)}]. *)
Definition startOver : M Session unit := setStep DETAILS.

(** What the user can do to the component. *)
Inductive Action :=
| InputChange (field value : string)
| SelectLanguage (l : Language)
| SelectThumbnail (idx : nat)
| TypeEditPrompt (v : string)
| TypeVideoPrompt (v : string)
| StartProcess
| EditImage
| CreateVideo
| StartOver.

Definition perform (T : Tables) (action : Action) : M Session unit :=
  match action with
  | InputChange field value => handleInputChange field value
  | SelectLanguage l => setLanguage l
  | SelectThumbnail idx => selectThumbnail idx
  | TypeEditPrompt v => setEditPrompt v
  | TypeVideoPrompt v => setVideoPrompt v
  | StartProcess => startProcess T
  | EditImage => handleEditImage T
  | CreateVideo => handleCreateVideo T
  | StartOver => startOver
  end.

(** The conditions under which the panels are rendered:
    [step === AppStep.DETAILS && (...)] holds the form and its Generate
    button; [(step === AppStep.GENERATION || step === AppStep.VIDEO) &&
    (...)] holds the Edit, Animate and Start-over buttons. *)
Definition shows_details_form (a : AppState) : bool :=
  match step a with
  | DETAILS => true
  | _ => false
  end.

Definition shows_refine_panel (a : AppState) : bool :=
  match step a with
  | GENERATION | VIDEO => true
  | _ => false
  end.

(** [generatedImages.length > 0 && !isLoading && (...)] *)
Definition shows_thumbnails (a : AppState) : bool :=
  (0 <? length (generatedImages a))%nat && negb (isLoading a).

(** The start of every image the adapter returns. *)
Definition png_prefix : string := "data:image/png;base64,".

Definition is_png_data_url (s : string) : bool := String.prefix png_prefix s.

(** The images of a session hang together: every generated image is a
    PNG data URL; there are none and no cover is selected, or there are
    three and the selected cover is a PNG data URL. *)
Definition cover_consistent (a : AppState) : Prop :=
  Forall (fun img => is_png_data_url img = true) (generatedImages a)
  /\ ((generatedImages a = [] /\ coverImage a = None)
      \/ (length (generatedImages a) = 3
          /\ exists img, coverImage a = Some img /\ is_png_data_url img = true)).

(** ** More to count *)

Definition is_sleep (e : Event) : bool :=
  match e with
  | Sleep _ => true
  | _ => false
  end.

Definition is_getVideosOperation (e : Event) : bool :=
  match e with
  | GetVideosOperation => true
  | _ => false
  end.

Definition is_fetch (e : Event) : bool :=
  match e with
  | Fetch _ => true
  | _ => false
  end.

Definition is_console_error (e : Event) : bool :=
  match e with
  | ConsoleError _ _ => true
  | _ => false
  end.

Definition is_hasSelectedApiKey (e : Event) : bool :=
  match e with
  | HasSelectedApiKey => true
  | _ => false
  end.

(** [k] rounds of the polling loop: a pause, then a status request. *)
Fixpoint poll_rounds (k : nat) : list Event :=
  match k with
  | O => []
  | S k' => Sleep 5000 :: GetVideosOperation :: poll_rounds k'
  end.

(** What one attempt at an image makes of the answer to its request. *)
Definition image_outcome (r : Reply GenerateContentResponse) : Outcome string :=
  match r with
  | Resolves response =>
    match first_inline_image (response_parts response) with
    | Some image => Fulfilled image
    | None => Rejected (Error "No image generated in this attempt")
    end
  | Rejects e => Rejected e
  | NeverSettles => Pending
  end.

(** A rejection that the retry sites take for a permission failure. *)
Definition denied_rejection {A} (r : Reply A) : bool :=
  match r with
  | Rejects e => is_permission_denied e
  | _ => false
  end.

(** A status answer of a job that is still running. *)
Definition still_running (r : Reply Operation) : bool :=
  match r with
  | Resolves operation => negb (is_done operation)
  | _ => false
  end.

(** More sample data. *)

Definition running_operation : Operation := {| done := None; response := None |}.

Definition fetched_video : FetchResponse :=
  {| ok := true; http_status := 200; statusText := "OK"; blob := Resolves "video-bytes" |}.

(** A world in which a video job needs two status checks and its result
    can be fetched. *)
Definition slow_video_world : World :=
  {| API_KEY := Some "key-0";
     aistudio := None;
     selectedKey := None; keyDialogs := [];
     generateContent_replies := [];
     generateVideos_replies := [Resolves running_operation];
     getVideosOperation_replies := [Resolves running_operation; Resolves finished_operation];
     fetch_replies := [Resolves fetched_video]; objectURLs := []; trace := [] |}.

(** A session that shows a video. *)
Definition video_session (w : World) : Session :=
  {| app := with_videoUrl (Some "blob:0") (with_step VIDEO editing_app); world := w |}.

(** A host page whose surface can open the dialog but cannot tell
    whether a key is selected; a key is selected. *)
Definition unquestionable_world : World :=
  {| API_KEY := Some "key-0";
     aistudio := Some {| has_hasSelectedApiKey := false; has_openSelectKey := true |};
     selectedKey := Some "key-0"; keyDialogs := [];
     generateContent_replies := [];
     generateVideos_replies := []; getVideosOperation_replies := [];
     fetch_replies := []; objectURLs := []; trace := [] |}.

(** A host page whose surface can tell whether a key is selected but
    has no dialog to open; no key is selected. *)
Definition dialogless_world : World :=
  {| API_KEY := Some "key-0";
     aistudio := Some {| has_hasSelectedApiKey := true; has_openSelectKey := false |};
     selectedKey := None; keyDialogs := [Some "key-1"];
     generateContent_replies := [];
     generateVideos_replies := []; getVideosOperation_replies := [];
     fetch_replies := []; objectURLs := []; trace := [] |}.


(** The state a handler leaves when its [finally] has run:
    [setIsLoading(false); setStatusMessage('')]. *)
Definition after_finally (a : AppState) : AppState :=
  with_statusMessage (lit EmptyString) (with_isLoading false a).

(** The world after the [catch] of [startProcess] has logged [e] and
    shown [msg]. *)
Definition after_catch (w : World) (e : JsError) (msg : string) : World :=
  set_trace (set_trace w (trace w ++ [ConsoleError None (Some e)]))
    ((trace w ++ [ConsoleError None (Some e)]) ++ [Alert msg]).

(** The world after an alert. *)
Definition alerted (w : World) (msg : string) : World :=
  set_trace w (trace w ++ [Alert msg]).

(** The controls the component renders and lets the user operate. The
    five inputs of the form and its Generate button are on the details
    form; the title and subtitle inputs, the two prompt inputs and the
    Edit, Animate and Start-over buttons are on the refine panel; the
    three buttons that start a handler are [disabled={isLoading}]; the
    language select is always there. *)
Definition form_fields : list string :=
  ["amazonMarketplace"; "category"; "targetMarket"; "author"; "topic"].

Definition refine_fields : list string := ["title"; "subtitle"].

Definition offered (a : AppState) (action : Action) : bool :=
  match action with
  | InputChange field _ =>
    (existsb (String.eqb field) form_fields && shows_details_form a)
    || (existsb (String.eqb field) refine_fields && shows_refine_panel a)
  | SelectLanguage _ => true
  | SelectThumbnail idx =>
    shows_thumbnails a && (idx <? length (generatedImages a))%nat
  | TypeEditPrompt _ | TypeVideoPrompt _ | StartOver => shows_refine_panel a
  | EditImage | CreateVideo => shows_refine_panel a && negb (isLoading a)
  | StartProcess => shows_details_form a && negb (isLoading a)
  end.

(** A session of the spec's example in which the research request is
    refused and every later step succeeds. *)
Definition research_failing_session : Session :=
  {| app := sample_app sample_metadata;
     world := sample_world
                [Rejects unavailable;
                 Resolves (text_answer (Some titled_text));
                 Resolves (image_answer "AAAA");
                 Resolves (image_answer "BBBB");
                 Resolves (image_answer "CCCC")] |}.

(** A session of the spec's example in which research and the text step
    succeed and the first image request is refused. *)
Definition image_failing_session : Session :=
  {| app := sample_app sample_metadata;
     world := sample_world
                [Resolves (text_answer None);
                 Resolves (text_answer (Some titled_text));
                 Rejects unavailable;
                 Resolves (image_answer "BBBB");
                 Resolves (image_answer "CCCC")] |}.

(** A world in which a video job is finished at once and its result can
    be fetched. *)
Definition ready_video_world : World :=
  set_fetch_replies (sample_video_world [Resolves finished_operation])
    [Resolves fetched_video].

(** The user operating one control after the other, each once the
    handler of the one before has finished. *)
Fixpoint perform_all (T : Tables) (actions : list Action) : M Session unit :=
  match actions with
  | [] => ret tt
  | action :: rest => perform T action;; perform_all T rest
  end.

(** Every control is on the page when the user comes to operate it. *)
Fixpoint all_offered (T : Tables) (actions : list Action) (s : Session) : bool :=
  match actions with
  | [] => true
  | action :: rest =>
    offered (app s) action && all_offered T rest (snd (perform T action s))
  end.

(* ===================================================================== *)
(** * Theorems *)
(* ===================================================================== *)

(** ** The remote calls, one answer at a time *)

Lemma ai_generateContent_resolves w model contents r rest :
  generateContent_replies w = Resolves r :: rest ->
  ai_generateContent model contents w =
    (Fulfilled r,
     set_generateContent_replies
       (set_trace w (trace w ++ [GenerateContent model contents])) rest).
Proof.
  intros H. unfold ai_generateContent, bind, emit, modify, next_reply. simpl.
  rewrite H. reflexivity.
Qed.

Lemma ai_generateContent_rejects w model contents e rest :
  generateContent_replies w = Rejects e :: rest ->
  ai_generateContent model contents w =
    (Rejected e,
     set_generateContent_replies
       (set_trace w (trace w ++ [GenerateContent model contents])) rest).
Proof.
  intros H. unfold ai_generateContent, bind, emit, modify, next_reply. simpl.
  rewrite H. reflexivity.
Qed.

(** ** The client *)

Lemma getAI_builds w : has_API_KEY w = true -> getAI w = (Fulfilled tt, w).
Proof.
  unfold has_API_KEY, getAI, bind, gets. destruct (API_KEY w); [reflexivity | discriminate].
Qed.

Lemma getAI_throws w : has_API_KEY w = false -> getAI w = (Rejected missing_api_key, w).
Proof.
  unfold has_API_KEY, getAI, bind, gets. destruct (API_KEY w); [discriminate | reflexivity].
Qed.

(** With a key the client is built and the call goes on; without one
    the call is rejected on the spot. *)
Lemma with_client {A} (m : M World A) w :
  has_API_KEY w = true -> (getAI;; m) w = m w.
Proof. intros H. unfold bind. rewrite (getAI_builds _ H). reflexivity. Qed.

Lemma without_client {A} (m : M World A) w :
  has_API_KEY w = false -> (getAI;; m) w = (Rejected missing_api_key, w).
Proof. intros H. unfold bind. rewrite (getAI_throws _ H). reflexivity. Qed.

Lemma missing_api_key_is_not_denied : is_permission_denied missing_api_key = false.
Proof. vm_compute. reflexivity. Qed.

(** ** [JSON.parse] on the texts the adapter substitutes *)

Lemma JSON_parse_empty : JSON_parse EmptyString = None.
Proof. reflexivity. Qed.

Lemma JSON_parse_braces : JSON_parse "{}" = Some (JObject ∅).
Proof. reflexivity. Qed.

Example JSON_parse_null : JSON_parse " null " = Some JNull.
Proof. vm_compute. reflexivity. Qed.

Example JSON_parse_number : JSON_parse "-12.50e+3" = Some (JNumber (-1250) 1).
Proof. vm_compute. reflexivity. Qed.

Example JSON_parse_array :
  JSON_parse "[1, true, [], {}]"
  = Some (JArray [JNumber 1 0; JBool true; JArray []; JObject ∅]).
Proof. vm_compute. reflexivity. Qed.

Example JSON_parse_object :
  JSON_parse titled_text = Some (JObject (<["title" := JString "The Calm Mind"]> ∅)).
Proof. vm_compute. reflexivity. Qed.

Example JSON_parse_research_default :
  JSON_parse research_default_text
  = Some (JObject (<["trends" := JString EmptyString]> (<["references" := JArray []]> ∅))).
Proof. vm_compute. reflexivity. Qed.

Example JSON_parse_rejects :
  JSON_parse " " = None /\ JSON_parse "[1,]" = None /\ JSON_parse "01" = None
  /\ JSON_parse "{title: 1}" = None /\ JSON_parse "not json" = None
  /\ JSON_parse "{} {}" = None.
Proof. repeat split; vm_compute; reflexivity. Qed.

Example truthy_numbers :
  truthy (JNumber 0 3) = false /\ truthy (JNumber 7 0) = true
  /\ truthy (JNumber 1 (-2000)) = false.
Proof. repeat split; vm_compute; reflexivity. Qed.

Lemma placeholder_title : member placeholder "title" = Some (JString "Untitled").
Proof. reflexivity. Qed.

Lemma empty_object_not_placeholder : JObject ∅ <> placeholder.
Proof.
  intros H. apply (f_equal (fun v => member v "title")) in H.
  rewrite placeholder_title in H. discriminate H.
Qed.

Lemma string_or_absent (s : option string) (d : string) :
  s = None \/ s = Some EmptyString -> string_or s d = d.
Proof. intros [-> | ->]; reflexivity. Qed.

Lemma string_or_present (s d : string) :
  s <> EmptyString -> string_or (Some s) d = s.
Proof.
  intros H. unfold string_or.
  destruct (String.eqb s EmptyString) eqn:E; [|reflexivity].
  apply String.eqb_eq in E. contradiction.
Qed.

(** When the substituted text does not parse, the answer had a text of
    its own, and that text does not parse. *)
Lemma unparsable_text_is_present (s : option string) (d : string) :
  JSON_parse d <> None ->
  JSON_parse (string_or s d) = None ->
  exists txt, s = Some txt /\ txt <> EmptyString /\ JSON_parse txt = None.
Proof.
  intros Hd H. destruct s as [txt|].
  - destruct (String.eqb txt EmptyString) eqn:E.
    + apply String.eqb_eq in E. subst txt. simpl in H. contradiction.
    + apply String.eqb_neq in E. rewrite (string_or_present _ _ E) in H. eauto.
  - simpl in H. contradiction.
Qed.

Section BookText.

Variable T : Tables.
Variables topic category author : option JsVal.
Variable language : Language.

(** What [generateBookText] does once the service has answered. *)
Lemma generateBookText_resolves w response rest :
  has_API_KEY w = true ->
  generateContent_replies w = Resolves response :: rest ->
  generateBookText T topic category author language w =
    parse_book_text response
      (set_generateContent_replies
         (set_trace w (trace w ++ [GenerateContent "gemini-3-flash-preview"
            [TextPart (generateBookText_prompt topic category author
                         (langLabel_of T language))]])) rest).
Proof.
  intros Hk H. unfold generateBookText. rewrite (with_client _ _ Hk). unfold bind.
  rewrite (ai_generateContent_resolves _ _ _ _ _ H). reflexivity.
Qed.

(** C5, as amended: when the text of the answer is present, not empty,
    and does not parse as JSON, [generateBookText] returns the fixed
    placeholder (title [Untitled], empty subtitle and description) and
    does not fail its caller. The answer is one to a request that was
    sent, by a client that could be built. *)
Theorem generateBookText_unparsable_placeholder w response rest txt :
  has_API_KEY w = true ->
  generateContent_replies w = Resolves response :: rest ->
  text response = Some txt ->
  txt <> EmptyString ->
  JSON_parse txt = None ->
  exists w', generateBookText T topic category author language w
             = (Fulfilled placeholder, w').
Proof.
  intros Hk Hq Ht Hne Hp. rewrite (generateBookText_resolves _ _ _ Hk Hq).
  unfold parse_book_text, try_catch, parse_json.
  rewrite Ht, (string_or_present _ _ Hne), Hp. simpl. eauto.
Qed.

(** C10: when the text of the answer is absent or empty,
    [generateBookText] parses the substitute text of two braces and
    returns the empty object, which has no title, subtitle or
    description and is not the placeholder. In general
    [generateBookText] returns what the text (or its substitute)
    denotes whenever that text parses, and the placeholder of its
    [catch] when it does not; and it does not parse only when the text
    of the answer is present, not empty, and does not parse. Nothing is
    added to the world beyond the request. *)
Theorem generateBookText_empty_text :
  (forall w response rest,
      has_API_KEY w = true ->
      generateContent_replies w = Resolves response :: rest ->
      text response = None \/ text response = Some EmptyString ->
      exists w',
        generateBookText T topic category author language w = (Fulfilled (JObject ∅), w')
        /\ member (JObject ∅) "title" = None
        /\ member (JObject ∅) "subtitle" = None
        /\ member (JObject ∅) "description" = None
        /\ JObject ∅ <> placeholder)
  /\ (forall w response rest,
         has_API_KEY w = true ->
         generateContent_replies w = Resolves response :: rest ->
         exists w',
           trace w' = (trace w ++ [GenerateContent "gemini-3-flash-preview"
                         [TextPart (generateBookText_prompt topic category author
                                      (langLabel_of T language))]])%list
           /\ match JSON_parse (string_or (text response) "{}") with
              | Some v =>
                generateBookText T topic category author language w = (Fulfilled v, w')
              | None =>
                generateBookText T topic category author language w
                = (Fulfilled placeholder, w')
                /\ exists txt, text response = Some txt /\ txt <> EmptyString
                               /\ JSON_parse txt = None
              end).
Proof.
  split.
  - intros w response rest Hk Hq Ht. rewrite (generateBookText_resolves _ _ _ Hk Hq).
    unfold parse_book_text, try_catch, parse_json.
    rewrite (string_or_absent _ _ Ht), JSON_parse_braces. simpl.
    eexists. repeat split; try reflexivity. apply empty_object_not_placeholder.
  - intros w response rest Hk Hq. rewrite (generateBookText_resolves _ _ _ Hk Hq).
    unfold parse_book_text, try_catch, parse_json.
    exists (set_generateContent_replies
              (set_trace w (trace w ++ [GenerateContent "gemini-3-flash-preview"
                 [TextPart (generateBookText_prompt topic category author
                              (langLabel_of T language))]])) rest).
    split; [reflexivity|].
    destruct (JSON_parse (string_or (text response) "{}")) as [v|] eqn:E; simpl;
      [reflexivity|].
    split; [reflexivity|].
    apply (unparsable_text_is_present _ "{}"); [|exact E].
    rewrite JSON_parse_braces. discriminate.
Qed.

End BookText.

(** C5, witness: a text that is present and does not parse. *)
Lemma generateBookText_unparsable_placeholder_witness :
  exists w', generateBookText sample_tables None None None "it"
               (sample_world [Resolves (text_answer (Some "not json"))])
             = (Fulfilled placeholder, w').
Proof.
  apply (generateBookText_unparsable_placeholder sample_tables None None None "it"
           (sample_world [Resolves (text_answer (Some "not json"))])
           (text_answer (Some "not json")) [] "not json");
    [reflexivity | reflexivity | reflexivity | discriminate | reflexivity].
Defined.

(** C5, counterexample: the empty text does not parse as JSON, yet
    [generateBookText] returns the empty object, not the placeholder. *)
Lemma generateBookText_unparsable_counterexample :
  JSON_parse EmptyString = None
  /\ fst (generateBookText sample_tables None None None "it"
            (sample_world [Resolves (text_answer (Some EmptyString))]))
     = Fulfilled (JObject ∅)
  /\ JObject ∅ <> placeholder.
Proof.
  split; [reflexivity|]. split; [reflexivity|]. apply empty_object_not_placeholder.
Qed.

(** C10, witness: an answer without text, and one whose text spells
    out a title: the first gives the empty object, the second the
    object of the text. *)
Lemma generateBookText_empty_text_witness :
  (exists w',
      generateBookText sample_tables None None None "it"
        (sample_world [Resolves (text_answer None)]) = (Fulfilled (JObject ∅), w')
      /\ JObject ∅ <> placeholder)
  /\ fst (generateBookText sample_tables None None None "it"
            (sample_world [Resolves (text_answer (Some titled_text))]))
     = Fulfilled (JObject (<["title" := JString "The Calm Mind"]> ∅)).
Proof.
  split.
  - destruct (proj1 (generateBookText_empty_text sample_tables None None None "it")
                (sample_world [Resolves (text_answer None)]) (text_answer None) []
                eq_refl eq_refl (or_introl eq_refl))
      as (w' & Hrun & _ & _ & _ & Hne).
    exists w'. split; [exact Hrun | exact Hne].
  - destruct (proj2 (generateBookText_empty_text sample_tables None None None "it")
                (sample_world [Resolves (text_answer (Some titled_text))])
                (text_answer (Some titled_text)) [] eq_refl eq_refl)
      as (w' & _ & Hrun).
    change (string_or (text (text_answer (Some titled_text))) "{}") with titled_text in Hrun.
    rewrite JSON_parse_object in Hrun. rewrite Hrun. reflexivity.
Defined.

(** ** Research degrades and never fails *)

Lemma value_or_ok (ok : JsVal -> bool) (v : option JsVal) (d : JsVal) :
  falsy_or ok v -> ok d = true -> ok (value_or v d) = true.
Proof.
  intros [Hf | (x & -> & Hx)] Hd; unfold value_or.
  - rewrite Hf. exact Hd.
  - destruct (truthy_opt (Some x)); assumption.
Qed.

Lemma research_fallback_well_formed : well_formed research_fallback.
Proof. repeat split. Qed.

Section Research.

Variable T : Tables.
Variables category topic targetMarket marketplaceId : option JsVal.
Variable language : Language.

Let try_block := researchTrends_try T category topic targetMarket marketplaceId language.
Let research := researchTrends T category topic targetMarket marketplaceId language.

(** Once the client is built, [researchTrends] is its [try] statement. *)
Lemma researchTrends_keyed w :
  has_API_KEY w = true ->
  research w =
    try_catch try_block
      (fun error =>
         console_error (Some "Trend research failed") (Some error);;
         ret research_fallback) w.
Proof. intros Hk. unfold research, researchTrends. apply with_client. exact Hk. Qed.

(** The [catch] turns every failure of the [try] block into the
    fallback. *)
Lemma researchTrends_catches w e w1 :
  has_API_KEY w = true ->
  try_block w = (Rejected e, w1) ->
  research w =
    (Fulfilled research_fallback,
     set_trace w1 (trace w1 ++ [ConsoleError (Some "Trend research failed") (Some e)])).
Proof.
  intros Hk H. rewrite (researchTrends_keyed _ Hk). unfold try_catch. rewrite H.
  reflexivity.
Qed.

Lemma researchTrends_passes w g w1 :
  has_API_KEY w = true ->
  try_block w = (Fulfilled g, w1) -> research w = (Fulfilled g, w1).
Proof.
  intros Hk H. rewrite (researchTrends_keyed _ Hk). unfold try_catch. rewrite H.
  reflexivity.
Qed.

(** The [try] block on an answer: it fails when the text does not parse
    or denotes [null], and builds the result otherwise. *)
Lemma researchTrends_try_resolves w response rest :
  generateContent_replies w = Resolves response :: rest ->
  exists w1,
    match JSON_parse (string_or (text response) research_default_text) with
    | None => try_block w = (Rejected SyntaxError_JSON, w1)
    | Some JNull => try_block w = (Rejected (TypeError_null "trends"), w1)
    | Some data =>
      try_block w =
        (Fulfilled {| trends := value_or (member data "trends") (JString "Analysis complete.");
                      references := value_or (member data "references") (JArray []);
                      sources := grounding_sources response |}, w1)
    end.
Proof.
  intros H. unfold try_block, researchTrends_try, bind.
  rewrite (ai_generateContent_resolves _ _ _ _ _ H). unfold parse_json.
  destruct (JSON_parse (string_or (text response) research_default_text)) as [data|];
    [destruct data|]; simpl; eexists; reflexivity.
Qed.

Lemma researchTrends_try_rejects w e rest :
  generateContent_replies w = Rejects e :: rest ->
  exists w1, try_block w = (Rejected e, w1).
Proof.
  intros H. unfold try_block, researchTrends_try, bind.
  rewrite (ai_generateContent_rejects _ _ _ _ _ H). eexists; reflexivity.
Qed.

(** C4, as amended: once its client is built, which takes an API key,
    [researchTrends] never propagates a failure to its caller, and
    returns a value whenever the remote call settles. Every failure of
    its [try] block (a rejected call, a text that does not parse, an
    answer that is [null]) yields the fallback, which is well-formed,
    with empty references, empty sources and a non-empty generic trends
    text. On an answer that parses, the value is well-formed provided
    the answer's [trends] is a string or falsy, its [references] is
    falsy or an array of entries with a textual title, author and
    visual hook, and every web chunk of the grounding metadata has a
    uri and a title. *)
Theorem researchTrends_never_fails :
  (forall w e, has_API_KEY w = true -> fst (research w) <> Rejected e)
  /\ (forall w reply rest,
         has_API_KEY w = true ->
         generateContent_replies w = reply :: rest ->
         reply <> NeverSettles ->
         exists g w', research w = (Fulfilled g, w'))
  /\ (forall w e w1,
         has_API_KEY w = true ->
         try_block w = (Rejected e, w1) ->
         exists w', research w = (Fulfilled research_fallback, w'))
  /\ (forall w e rest,
         has_API_KEY w = true ->
         generateContent_replies w = Rejects e :: rest ->
         exists w', research w = (Fulfilled research_fallback, w'))
  /\ (well_formed research_fallback
      /\ references research_fallback = JArray []
      /\ sources research_fallback = []
      /\ exists s, trends research_fallback = JString s /\ s <> EmptyString)
  /\ (forall w response rest data g w',
         has_API_KEY w = true ->
         generateContent_replies w = Resolves response :: rest ->
         JSON_parse (string_or (text response) research_default_text) = Some data ->
         falsy_or is_string (member data "trends") ->
         falsy_or is_references (member data "references") ->
         forallb is_source (grounding_sources response) = true ->
         research w = (Fulfilled g, w') ->
         well_formed g).
Proof.
  assert (Hcatch : forall w e w1, has_API_KEY w = true ->
            try_block w = (Rejected e, w1) ->
            exists w', research w = (Fulfilled research_fallback, w')).
  { intros w e w1 Hk H. rewrite (researchTrends_catches _ _ _ Hk H). eauto. }
  assert (Hrej : forall w e rest, has_API_KEY w = true ->
            generateContent_replies w = Rejects e :: rest ->
            exists w', research w = (Fulfilled research_fallback, w')).
  { intros w e rest Hk H. destruct (researchTrends_try_rejects _ _ _ H) as [w1 H1]. eauto. }
  split; [|split; [|split; [|split; [|split]]]].
  - intros w e Hk. rewrite (researchTrends_keyed _ Hk). unfold try_catch.
    destruct (try_block w) as [[g | e' | ] w1]; simpl; discriminate.
  - intros w reply rest Hk Hq Hs. destruct reply as [response | e | ]; [| |contradiction].
    + destruct (researchTrends_try_resolves _ _ _ Hq) as [w1 H1].
      destruct (JSON_parse (string_or (text response) research_default_text)) as [data|].
      * destruct data;
          solve [ rewrite (researchTrends_passes _ _ _ Hk H1); eauto
                | rewrite (researchTrends_catches _ _ _ Hk H1); eauto ].
      * rewrite (researchTrends_catches _ _ _ Hk H1); eauto.
    + destruct (Hrej _ _ _ Hk Hq) as [w' H']. eauto.
  - exact Hcatch.
  - exact Hrej.
  - split; [apply research_fallback_well_formed|].
    split; [reflexivity|]. split; [reflexivity|].
    eexists. split; [reflexivity | discriminate].
  - intros w response rest data g w' Hk Hq Hp Ht Hr Hsrc Hrun.
    destruct (researchTrends_try_resolves _ _ _ Hq) as [w1 H1]. rewrite Hp in H1.
    assert (Hwf : well_formed
              {| trends := value_or (member data "trends") (JString "Analysis complete.");
                 references := value_or (member data "references") (JArray []);
                 sources := grounding_sources response |}).
    { split; [|split]; simpl; [apply value_or_ok; auto | apply value_or_ok; auto | exact Hsrc]. }
    destruct data;
      try (rewrite (researchTrends_passes _ _ _ Hk H1) in Hrun;
           injection Hrun as <- _; exact Hwf).
    rewrite (researchTrends_catches _ _ _ Hk H1) in Hrun. injection Hrun as <- _.
    apply research_fallback_well_formed.
Qed.

End Research.

(** C4, witness: the remote call is rejected and the fallback comes
    back. *)
Lemma researchTrends_never_fails_witness :
  exists w',
    researchTrends sample_tables (Some (JString "Self-Help")) None None None "it"
      (sample_world [Rejects unavailable])
    = (Fulfilled research_fallback, w').
Proof.
  apply (proj1 (proj2 (proj2 (proj2
           (researchTrends_never_fails sample_tables (Some (JString "Self-Help"))
              None None None "it"))))
           (sample_world [Rejects unavailable]) unavailable []);
    reflexivity.
Defined.

(** C4, counterexample: the service answers with a JSON object whose
    [trends] is the number 7; [researchTrends] returns it as the trends
    of its result, which is then no research summary text. *)
Lemma researchTrends_ill_formed_counterexample :
  exists g w',
    researchTrends sample_tables (Some (JString "Self-Help")) None None None "it"
      (sample_world [Resolves (text_answer (Some numeric_trends_text))])
    = (Fulfilled g, w')
    /\ trends g = JNumber 7 0
    /\ ~ well_formed g.
Proof.
  eexists. eexists. split; [reflexivity|]. split; [reflexivity|].
  intros [H _]. discriminate H.
Qed.

(** ** The monad *)

Lemma bind_assoc {S A B C} (m : M S A) (f : A -> M S B) (k : B -> M S C) s :
  bind m (fun a => bind (f a) k) s = bind (bind m f) k s.
Proof. unfold bind. destruct (m s) as [[a | e | ] s']; reflexivity. Qed.

Lemma bind_fulfilled {S A B} (m : M S A) (k : A -> M S B) s a s' :
  m s = (Fulfilled a, s') -> bind m k s = k a s'.
Proof. intros H. unfold bind. rewrite H. reflexivity. Qed.

Lemma bind_rejected {S A B} (m : M S A) (k : A -> M S B) s e s' :
  m s = (Rejected e, s') -> bind m k s = (Rejected e, s').
Proof. intros H. unfold bind. rewrite H. reflexivity. Qed.

Lemma bind_pending {S A B} (m : M S A) (k : A -> M S B) s s' :
  m s = (Pending, s') -> bind m k s = (Pending, s').
Proof. intros H. unfold bind. rewrite H. reflexivity. Qed.

Lemma try_catch_rejected {S A} (m : M S A) (h : JsError -> M S A) s e s' :
  m s = (Rejected e, s') -> try_catch m h s = h e s'.
Proof. intros H. unfold try_catch. rewrite H. reflexivity. Qed.

Lemma try_catch_fulfilled {S A} (m : M S A) (h : JsError -> M S A) s a s' :
  m s = (Fulfilled a, s') -> try_catch m h s = (Fulfilled a, s').
Proof. intros H. unfold try_catch. rewrite H. reflexivity. Qed.

Lemma try_catch_pending {S A} (m : M S A) (h : JsError -> M S A) s s' :
  m s = (Pending, s') -> try_catch m h s = (Pending, s').
Proof. intros H. unfold try_catch. rewrite H. reflexivity. Qed.

(** ** Traces *)

Lemma count_events_app p t1 t2 :
  count_events p (t1 ++ t2) = count_events p t1 + count_events p t2.
Proof. induction t1 as [|e t1 IH]; simpl; [reflexivity | rewrite IH; lia]. Qed.

Ltac count_trace := repeat first [rewrite count_events_app | progress simpl].

Lemma count_events_none p c d :
  forallb p d = true ->
  (forall e, p e = true -> c e = false) ->
  count_events c d = 0.
Proof.
  intros Hd Hpc. induction d as [|e d IH]; [reflexivity|].
  simpl in Hd. apply andb_true_iff in Hd as [He Hd].
  simpl. rewrite (Hpc _ He), (IH Hd). reflexivity.
Qed.

Lemma only_emits_ret {A} p (a : A) : only_emits p (ret a).
Proof.
  intros w r w' H. injection H as _ <-. exists []. rewrite app_nil_r. auto.
Qed.

Lemma only_emits_throw {A} p e : only_emits p (@throw World A e).
Proof.
  intros w r w' H. injection H as _ <-. exists []. rewrite app_nil_r. auto.
Qed.

Lemma only_emits_pending {A} p : only_emits p (fun w => (@Pending A, w)).
Proof.
  intros w r w' H. injection H as _ <-. exists []. rewrite app_nil_r. auto.
Qed.

Lemma only_emits_gets {A} p (f : World -> A) : only_emits p (gets f).
Proof.
  intros w r w' H. injection H as _ <-. exists []. rewrite app_nil_r. auto.
Qed.

Lemma only_emits_emit p e : p e = true -> only_emits p (emit e).
Proof.
  intros He w r w' H. injection H as _ <-. exists [e]. simpl. rewrite He. auto.
Qed.

(** A step that leaves the trace alone. *)
Lemma only_emits_modify p (f : World -> World) :
  (forall w, trace (f w) = trace w) -> only_emits p (modify f).
Proof.
  intros Hf w r w' H. injection H as _ <-. exists []. rewrite app_nil_r, Hf. auto.
Qed.

Lemma only_emits_bind {A B} p (m : M World A) (k : A -> M World B) :
  only_emits p m -> (forall a, only_emits p (k a)) -> only_emits p (bind m k).
Proof.
  intros Hm Hk w r w' H. unfold bind in H.
  destruct (m w) as [[a | e | ] w1] eqn:E; destruct (Hm _ _ _ E) as (d1 & Hd1 & Hp1).
  - destruct (Hk a _ _ _ H) as (d2 & Hd2 & Hp2).
    exists (d1 ++ d2)%list. rewrite Hd2, Hd1, <- app_assoc, forallb_app, Hp1, Hp2. auto.
  - injection H as _ <-. eauto.
  - injection H as _ <-. eauto.
Qed.

Lemma only_emits_try_catch {A} p (m : M World A) (h : JsError -> M World A) :
  only_emits p m -> (forall e, only_emits p (h e)) -> only_emits p (try_catch m h).
Proof.
  intros Hm Hh w r w' H. unfold try_catch in H.
  destruct (m w) as [[a | e | ] w1] eqn:E; destruct (Hm _ _ _ E) as (d1 & Hd1 & Hp1).
  - injection H as _ <-. eauto.
  - destruct (Hh e _ _ _ H) as (d2 & Hd2 & Hp2).
    exists (d1 ++ d2)%list. rewrite Hd2, Hd1, <- app_assoc, forallb_app, Hp1, Hp2. auto.
  - injection H as _ <-. eauto.
Qed.

Lemma only_emits_await {A} p (r : Reply A) : only_emits p (await r).
Proof.
  destruct r; [apply only_emits_ret | apply only_emits_throw | apply only_emits_pending].
Qed.

Lemma only_emits_next_reply {A} p (queue : World -> list (Reply A)) rest :
  (forall w q, trace (rest w q) = trace w) -> only_emits p (next_reply queue rest).
Proof.
  intros Hrest w r w' H. unfold next_reply in H. destruct (queue w) as [|x q].
  - injection H as _ <-. exists []. rewrite app_nil_r. auto.
  - destruct (only_emits_await p x _ _ _ H) as (d & Hd & Hp).
    exists d. rewrite Hd, Hrest. auto.
Qed.

Create HintDb emits.

#[local] Hint Resolve only_emits_ret only_emits_throw only_emits_pending only_emits_gets
  only_emits_await : emits.

Ltac emits :=
  repeat first
    [ apply only_emits_bind; [|intros ?]
    | apply only_emits_try_catch; [|intros ?]
    | apply only_emits_emit; reflexivity
    | apply only_emits_next_reply; intros; reflexivity
    | apply only_emits_modify; intros; reflexivity
    | solve [auto with emits] ].

Lemma only_emits_poll p fuel operation :
  p (Sleep 5000) = true -> p GetVideosOperation = true ->
  only_emits p (poll fuel operation).
Proof.
  intros Hs Hg. revert operation.
  induction fuel as [|fuel IH]; intros operation; simpl;
    destruct (is_done operation); auto with emits.
  unfold sleep, ai_getVideosOperation.
  apply only_emits_bind; [apply only_emits_emit; exact Hs | intros _].
  apply only_emits_bind; [|intros op'; apply IH].
  apply only_emits_bind; [apply only_emits_emit; exact Hg | intros _].
  apply only_emits_next_reply. reflexivity.
Qed.

(** ** The key *)

Lemma keeps_key_ret {A} (a : A) : keeps_key (ret a).
Proof. intros w r w' H. injection H as _ <-. reflexivity. Qed.

Lemma keeps_key_throw {A} e : keeps_key (@throw World A e).
Proof. intros w r w' H. injection H as _ <-. reflexivity. Qed.

Lemma keeps_key_pending {A} : keeps_key (fun w => (@Pending A, w)).
Proof. intros w r w' H. injection H as _ <-. reflexivity. Qed.

Lemma keeps_key_gets {A} (f : World -> A) : keeps_key (gets f).
Proof. intros w r w' H. injection H as _ <-. reflexivity. Qed.

Lemma keeps_key_modify (f : World -> World) :
  (forall w, API_KEY (f w) = API_KEY w) -> keeps_key (modify f).
Proof. intros Hf w r w' H. injection H as _ <-. apply Hf. Qed.

Lemma keeps_key_emit e : keeps_key (emit e).
Proof. apply keeps_key_modify. reflexivity. Qed.

Lemma keeps_key_bind {A B} (m : M World A) (k : A -> M World B) :
  keeps_key m -> (forall a, keeps_key (k a)) -> keeps_key (bind m k).
Proof.
  intros Hm Hk w r w' H. unfold bind in H.
  destruct (m w) as [[a | e | ] w1] eqn:E; pose proof (Hm _ _ _ E) as H1.
  - rewrite (Hk a _ _ _ H). exact H1.
  - injection H as _ <-. exact H1.
  - injection H as _ <-. exact H1.
Qed.

Lemma keeps_key_try_catch {A} (m : M World A) (h : JsError -> M World A) :
  keeps_key m -> (forall e, keeps_key (h e)) -> keeps_key (try_catch m h).
Proof.
  intros Hm Hh w r w' H. unfold try_catch in H.
  destruct (m w) as [[a | e | ] w1] eqn:E; pose proof (Hm _ _ _ E) as H1.
  - injection H as _ <-. exact H1.
  - rewrite (Hh e _ _ _ H). exact H1.
  - injection H as _ <-. exact H1.
Qed.

Lemma keeps_key_await {A} (r : Reply A) : keeps_key (await r).
Proof.
  destruct r; [apply keeps_key_ret | apply keeps_key_throw | apply keeps_key_pending].
Qed.

Lemma keeps_key_next_reply {A} (queue : World -> list (Reply A)) rest :
  (forall w q, API_KEY (rest w q) = API_KEY w) -> keeps_key (next_reply queue rest).
Proof.
  intros Hrest w r w' H. unfold next_reply in H. destruct (queue w) as [|x q].
  - injection H as _ <-. reflexivity.
  - rewrite (keeps_key_await x _ _ _ H). apply Hrest.
Qed.

Lemma keeps_key_take_reply {A} (queue : World -> list (Reply A)) rest :
  (forall w q, API_KEY (rest w q) = API_KEY w) -> keeps_key (take_reply queue rest).
Proof.
  intros Hrest w r w' H. unfold take_reply in H. destruct (queue w) as [|x q];
    injection H as _ <-; [reflexivity | apply Hrest].
Qed.

Lemma keeps_key_getAI : keeps_key getAI.
Proof.
  intros w r w' H. unfold getAI, bind, gets in H. simpl in H.
  destruct (API_KEY w) eqn:E; injection H as _ <-; exact E.
Qed.

Create HintDb keeps.

#[local] Hint Resolve keeps_key_ret keeps_key_throw keeps_key_pending keeps_key_gets
  keeps_key_await keeps_key_emit keeps_key_getAI : keeps.

Ltac keeps :=
  repeat first
    [ apply keeps_key_bind; [|intros ?]
    | apply keeps_key_try_catch; [|intros ?]
    | apply keeps_key_next_reply; intros; reflexivity
    | apply keeps_key_take_reply; intros; reflexivity
    | apply keeps_key_modify; intros; reflexivity
    | solve [auto with keeps] ].

Lemma keeps_key_poll fuel operation : keeps_key (poll fuel operation).
Proof.
  revert operation.
  induction fuel as [|fuel IH]; intros operation; simpl;
    destruct (is_done operation); auto with keeps.
  unfold sleep, ai_getVideosOperation.
  apply keeps_key_bind; [apply keeps_key_emit | intros _].
  apply keeps_key_bind; [|intros op'; apply IH].
  keeps.
Qed.

Lemma keeps_key_has {A} (m : M World A) w r w' :
  keeps_key m -> m w = (r, w') -> has_API_KEY w' = has_API_KEY w.
Proof. intros Hm H. unfold has_API_KEY. rewrite (Hm _ _ _ H). reflexivity. Qed.

(** The fuel [generate_try] hands to [poll] never runs out: with more
    fuel than the queue of [getVideosOperation] has answers, one unit
    more changes nothing, so the loop ends by an answer that is done,
    by a rejection, or by waiting for an answer that never comes. *)
Lemma poll_fuel_enough fuel operation w :
  length (getVideosOperation_replies w) < fuel ->
  poll (S fuel) operation w = poll fuel operation w.
Proof.
  revert operation w. induction fuel as [|fuel IH]; intros operation w Hlen; [lia|].
  change (poll (S (S fuel)) operation w)
    with ((if is_done operation then ret operation
           else sleep 5000;; operation' <- ai_getVideosOperation;;
                poll (S fuel) operation') w).
  change (poll (S fuel) operation w)
    with ((if is_done operation then ret operation
           else sleep 5000;; operation' <- ai_getVideosOperation;;
                poll fuel operation') w).
  destruct (is_done operation); [reflexivity|].
  unfold sleep, ai_getVideosOperation, bind, emit, modify, next_reply. simpl.
  destruct (getVideosOperation_replies w) as [|[operation' | e | ] q] eqn:E;
    simpl; try reflexivity.
  apply IH. simpl in *. lia.
Qed.

Lemma poll_fuel_irrelevant extra fuel operation w :
  length (getVideosOperation_replies w) < fuel ->
  poll (extra + fuel) operation w = poll fuel operation w.
Proof.
  intros Hlen. induction extra as [|extra IH]; [reflexivity|].
  simpl Nat.add. rewrite poll_fuel_enough; [exact IH | lia].
Qed.

(** ** The key-authorization guard *)

Lemma same_service_refl w : same_service w w.
Proof. repeat split. Qed.

Lemma same_service_trans w1 w2 w3 :
  same_service w1 w2 -> same_service w2 w3 -> same_service w1 w3.
Proof.
  unfold same_service. intros (?&?&?&?&?&?&?) (?&?&?&?&?&?&?).
  repeat split; congruence.
Qed.

Lemma same_service_key w w' : same_service w w' -> has_API_KEY w' = has_API_KEY w.
Proof. intros (_ & H & _). unfold has_API_KEY. rewrite H. reflexivity. Qed.

Arguments aistudio_hasSelectedApiKey : simpl never.
Arguments aistudio_openSelectKey : simpl never.

Lemma aistudio_hasSelectedApiKey_run w :
  aistudio_hasSelectedApiKey w =
    (Fulfilled (negb (no_key_selected w)), set_trace w (trace w ++ [HasSelectedApiKey])).
Proof.
  unfold aistudio_hasSelectedApiKey, bind, emit, modify, gets, no_key_selected. simpl.
  destruct (selectedKey w); reflexivity.
Qed.

Lemma aistudio_openSelectKey_run w :
  exists w',
    aistudio_openSelectKey w = (Fulfilled tt, w')
    /\ trace w' = (trace w ++ [OpenSelectKey])%list
    /\ same_service w w'.
Proof.
  unfold aistudio_openSelectKey, bind, emit, modify. simpl.
  destruct (keyDialogs w) as [|[k|] ds]; eexists; (split; [reflexivity|]);
    split; try reflexivity; repeat split.
Qed.

(** [ensureApiKey] always completes; it adds its own entry and then only
    calls of the host, and leaves the service as it was. *)
Lemma ensureApiKey_completes force w :
  exists w',
    ensureApiKey force w = (Fulfilled tt, w')
    /\ trace w' = (trace w ++ EnsureApiKeyCall force :: ensureApiKey_host_calls force w)%list
    /\ same_service w w'.
Proof.
  unfold ensureApiKey, ensureApiKey_host_calls, bind. simpl.
  destruct (aistudio w) as [[has open]|] eqn:Ea; simpl.
  - destruct has; simpl.
    + unfold no_key_selected.
      destruct (selectedKey w) as [key|] eqn:Ek, force, open; simpl;
        try (eexists; split; [reflexivity|]; simpl; rewrite <- app_assoc;
             split; [reflexivity | repeat split]);
        match goal with
        | |- context [aistudio_openSelectKey ?w0] =>
          destruct (aistudio_openSelectKey_run w0) as (w' & -> & Ht & Hs);
          exists w'; (split; [reflexivity|]); split;
          [ rewrite Ht; simpl; rewrite <- !app_assoc; reflexivity
          | destruct Hs as (?&?&?&?&?&?&?); repeat split; assumption ]
        end.
    + unfold ret at 1. simpl. rewrite orb_true_r. simpl. destruct open; simpl.
      * destruct (aistudio_openSelectKey_run
                    (set_trace w (trace w ++ [EnsureApiKeyCall force])))
          as (w' & -> & Ht & Hs).
        exists w'. split; [reflexivity|]. split.
        -- rewrite Ht. simpl. rewrite <- !app_assoc. reflexivity.
        -- destruct Hs as (?&?&?&?&?&?&?). repeat split; assumption.
      * eexists. split; [reflexivity|]. split; [reflexivity | repeat split].
  - eexists. split; [reflexivity|]. split; [reflexivity | repeat split].
Qed.

Lemma ensureApiKey_host_calls_are_host force w :
  forallb is_host (ensureApiKey_host_calls force w) = true.
Proof.
  unfold ensureApiKey_host_calls.
  destruct (aistudio w) as [[has open]|]; [|reflexivity].
  destruct has, open, force, (no_key_selected w); reflexivity.
Qed.

Lemma count_host_calls c force w :
  (forall e, is_host e = true -> c e = false) ->
  count_events c (ensureApiKey_host_calls force w) = 0.
Proof.
  intros H. apply (count_events_none is_host); [|exact H].
  apply ensureApiKey_host_calls_are_host.
Qed.

Lemma host_not_reauthorization e : is_host e = true -> is_reauthorization e = false.
Proof. destruct e; simpl; congruence. Qed.

Lemma host_not_generateContent e : is_host e = true -> is_generateContent e = false.
Proof. destruct e; simpl; congruence. Qed.

Lemma host_not_generateVideos e : is_host e = true -> is_generateVideos e = false.
Proof. destruct e; simpl; congruence. Qed.

Lemma follow_up_not_reauthorization e :
  is_follow_up e = true -> is_reauthorization e = false.
Proof. destruct e as [[|]| | | | | | | | | | | |]; cbv; congruence. Qed.

Lemma follow_up_not_generateVideos e :
  is_follow_up e = true -> is_generateVideos e = false.
Proof. destruct e; cbv; congruence. Qed.

(** C7, as amended: without a host authorization surface
    [ensureApiKey] completes and opens no key-selection dialog (its own
    entry is all the trace gains); with the surface, both of its
    operations present, it completes and opens the dialog once if
    [force] is true or no key is selected, and not at all otherwise. *)
Theorem ensureApiKey_opens_dialog_iff :
  (forall force w,
      aistudio w = None ->
      ensureApiKey force w
      = (Fulfilled tt, set_trace w (trace w ++ [EnsureApiKeyCall force])))
  /\ (forall force w studio,
         aistudio w = Some studio ->
         has_hasSelectedApiKey studio = true ->
         has_openSelectKey studio = true ->
         exists w',
           ensureApiKey force w = (Fulfilled tt, w')
           /\ count_events is_dialog (trace w') =
                count_events is_dialog (trace w)
                + (if force || no_key_selected w then 1 else 0)).
Proof.
  split.
  - intros force w Ha. unfold ensureApiKey, bind, emit, modify, gets. simpl.
    rewrite Ha. reflexivity.
  - intros force w studio Ha Hh Ho.
    destruct (ensureApiKey_completes force w) as (w' & Hrun & Ht & _).
    exists w'. split; [exact Hrun|].
    rewrite Ht, count_events_app. f_equal.
    unfold ensureApiKey_host_calls. rewrite Ha, Hh, Ho. simpl.
    rewrite orb_false_r. destruct (force || no_key_selected w); reflexivity.
Qed.

(** C7, witness: a page with the surface and no key selected; the call
    is not forced and the dialog opens once. *)
Lemma ensureApiKey_opens_dialog_iff_witness :
  exists w',
    ensureApiKey false (sample_world []) = (Fulfilled tt, w')
    /\ count_events is_dialog (trace w') = 1.
Proof.
  apply (proj2 ensureApiKey_opens_dialog_iff false (sample_world [])
           {| has_hasSelectedApiKey := true; has_openSelectKey := true |});
    reflexivity.
Defined.

(** C7, counterexample: the surface is present, the call is forced and
    no key is selected, and yet no dialog is opened: the surface has no
    [openSelectKey], which [ensureApiKey] tests before it calls it. *)
Lemma ensureApiKey_partial_surface_counterexample :
  aistudio dialogless_world
  = Some {| has_hasSelectedApiKey := true; has_openSelectKey := false |}
  /\ no_key_selected dialogless_world = true
  /\ fst (ensureApiKey true dialogless_world) = Fulfilled tt
  /\ count_events is_dialog (trace (snd (ensureApiKey true dialogless_world))) = 0.
Proof. repeat split. Qed.

(** ** Image editing: one shot *)

(** C8: when the remote edit call fails, with whatever error (a
    permission failure included), [editCoverImage] rejects with that
    very error; the trace gains the one request and the logged error:
    [ensureApiKey] is not entered, no dialog is opened, and no second
    request is sent. The remote call is made by a client that could be
    built. *)
Theorem editCoverImage_propagates imageBase64 instruction w e rest :
  has_API_KEY w = true ->
  generateContent_replies w = Rejects e :: rest ->
  exists w',
    editCoverImage imageBase64 instruction w = (Rejected e, w')
    /\ trace w' =
         (trace w ++
          [GenerateContent "gemini-2.5-flash-image"
             [InlinePart "image/png" (split_comma_1 imageBase64);
              TextPart (lit instruction)];
           ConsoleError (Some "Image editing failed") (Some e)])%list
    /\ generateContent_replies w' = rest
    /\ count_events is_ensureApiKey (trace w') = count_events is_ensureApiKey (trace w)
    /\ count_events is_dialog (trace w') = count_events is_dialog (trace w)
    /\ count_events is_generateContent (trace w')
       = count_events is_generateContent (trace w) + 1.
Proof.
  intros Hk H. unfold editCoverImage. rewrite (with_client _ _ Hk).
  unfold try_catch, bind at 1.
  rewrite (ai_generateContent_rejects _ _ _ _ _ H).
  eexists. split; [reflexivity|]. simpl. rewrite <- app_assoc. simpl.
  split; [reflexivity|]. split; [reflexivity|].
  rewrite !count_events_app. simpl. repeat split; lia.
Qed.

(** C8, witness: the edit call is denied with a 403. *)
Lemma editCoverImage_propagates_witness :
  exists w',
    editCoverImage "data:image/png;base64,AAAA" "make it blue"
      (sample_world [Rejects denied]) = (Rejected denied, w')
    /\ is_permission_denied denied = true
    /\ count_events is_ensureApiKey (trace w') = 0
    /\ count_events is_generateContent (trace w') = 1.
Proof.
  destruct (editCoverImage_propagates "data:image/png;base64,AAAA" "make it blue"
              (sample_world [Rejects denied]) denied [] eq_refl eq_refl)
    as (w' & Hrun & _ & _ & Hk & _ & Hg).
  exists w'. split; [exact Hrun|]. split; [reflexivity|]. split; assumption.
Defined.

(** ** Retry once on a permission failure *)

(** The definitions above satisfy the recursive equations of the
    source: the inner call is the function itself with [retry] false. *)
Lemma generateSingleImage_equation prompt retry :
  generateSingleImage prompt retry =
    (getAI;;
     try_catch (generateSingleImage_try prompt)
       (fun error =>
          if retry && is_permission_denied error then
            console_log "Permission denied, prompting for key selection again...";;
            ensureApiKey true;;
            generateSingleImage prompt false
          else throw error)).
Proof. reflexivity. Qed.

Lemma generate_equation imageBase64 prompt retry :
  generate imageBase64 prompt retry =
    (getAI;;
     try_catch (generate_try imageBase64 prompt)
       (fun error =>
          if retry && is_permission_denied error then
            console_log "Permission denied for Veo, prompting for key selection again...";;
            ensureApiKey true;;
            generate imageBase64 prompt false
          else throw error)).
Proof. reflexivity. Qed.

(** The two parts of [generateSingleImage] make up the function. *)
Lemma generateSingleImage_in_two_parts prompt retry w :
  generateSingleImage prompt retry w =
    (answer <- generateSingleImage_start prompt;;
     generateSingleImage_resume prompt retry answer) w.
Proof.
  unfold generateSingleImage, generateSingleImage_start, generateSingleImage_resume,
    generateSingleImage_try, ai_generateContent, next_reply, take_reply, getAI, try_catch,
    bind, emit, modify, gets.
  destruct (API_KEY w); simpl; [|reflexivity].
  destruct (generateContent_replies w) as [|[response | e | ] q]; reflexivity.
Qed.

(** What the test on a caught error accepts. *)
Lemma is_permission_denied_iff error :
  is_permission_denied error = true <->
  (exists m, message error = Some m
             /\ (includes m "403" = true \/ includes m "PERMISSION_DENIED" = true))
  \/ status error = Some 403%Z.
Proof.
  unfold is_permission_denied.
  destruct error as [[m|] [s|]]; simpl; rewrite ?orb_true_iff, ?Z.eqb_eq;
    naive_solver.
Qed.

(** One attempt at an image sends one request and nothing else. *)
Lemma generateSingleImage_try_trace prompt w r w' :
  generateSingleImage_try prompt w = (r, w') ->
  trace w' = (trace w ++ [GenerateContent "gemini-3-pro-image-preview" [TextPart prompt]])%list.
Proof.
  unfold generateSingleImage_try, ai_generateContent, bind, emit, modify, next_reply.
  simpl. destruct (generateContent_replies w) as [|[response | e | ] q]; simpl.
  - intros H. injection H as _ <-. reflexivity.
  - destruct (first_inline_image (response_parts response));
      intros H; injection H as _ <-; reflexivity.
  - intros H. injection H as _ <-. reflexivity.
  - intros H. injection H as _ <-. reflexivity.
Qed.

Lemma generateSingleImage_try_rejects prompt w e rest :
  generateContent_replies w = Rejects e :: rest ->
  generateSingleImage_try prompt w =
    (Rejected e,
     set_generateContent_replies
       (set_trace w (trace w ++ [GenerateContent "gemini-3-pro-image-preview"
                                   [TextPart prompt]])) rest).
Proof.
  intros H. unfold generateSingleImage_try, bind.
  rewrite (ai_generateContent_rejects _ _ _ _ _ H). reflexivity.
Qed.

Lemma keeps_key_generateSingleImage_try prompt : keeps_key (generateSingleImage_try prompt).
Proof.
  unfold generateSingleImage_try, ai_generateContent.
  apply keeps_key_bind; [keeps | intros response].
  destruct (first_inline_image (response_parts response)); auto with keeps.
Qed.

(** The call with [retry] false: one attempt, whose failure is final. *)
Lemma generateSingleImage_last_run prompt w :
  has_API_KEY w = true ->
  generateSingleImage prompt false w = generateSingleImage_try prompt w.
Proof.
  intros Hk. unfold generateSingleImage. rewrite (with_client _ _ Hk).
  unfold try_catch, generateSingleImage_catch. simpl.
  destruct (generateSingleImage_try prompt w) as [[a | e | ] w1]; reflexivity.
Qed.

(** One attempt at a video opens with one [generateVideos] request;
    whatever follows is polling, fetching and reading. *)
Lemma generate_try_trace imageBase64 prompt w r w' :
  generate_try imageBase64 prompt w = (r, w') ->
  exists model text bytes d,
    trace w' = (trace w ++ GenerateVideos model text bytes :: d)%list
    /\ forallb is_follow_up d = true.
Proof.
  unfold generate_try, ai_generateVideos. intros H.
  match type of H with
  | bind (bind (emit ?ev) (fun _ => ?m)) ?k w = _ =>
    assert (Hk : only_emits is_follow_up (bind m k));
      [| change (bind m k (set_trace w (trace w ++ [ev])) = (r, w')) in H;
         destruct (Hk _ _ _ H) as (d & Hd & Hp) ]
  end.
  - apply only_emits_bind; [emits | intros operation].
    apply only_emits_bind; [emits | intros fuel].
    apply only_emits_bind; [apply only_emits_poll; reflexivity | intros operation'].
    destruct (operation_videoUri operation') as [videoUri|]; [|emits].
    destruct (String.eqb videoUri EmptyString); [emits|].
    apply only_emits_bind; [emits | intros key].
    apply only_emits_bind; [unfold fetch; emits | intros videoResponse].
    destruct (negb (ok videoResponse)).
    + destruct (http_status videoResponse =? 403)%Z; emits.
    + unfold read_blob, createObjectURL. emits.
  - do 4 eexists. split; [|exact Hp]. rewrite Hd. simpl. rewrite <- app_assoc. reflexivity.
Qed.

Lemma keeps_key_generate_try imageBase64 prompt : keeps_key (generate_try imageBase64 prompt).
Proof.
  unfold generate_try, ai_generateVideos.
  apply keeps_key_bind; [keeps | intros operation].
  apply keeps_key_bind; [keeps | intros fuel].
  apply keeps_key_bind; [apply keeps_key_poll | intros operation'].
  destruct (operation_videoUri operation') as [videoUri|]; [|keeps].
  destruct (String.eqb videoUri EmptyString); [keeps|].
  apply keeps_key_bind; [keeps | intros key].
  apply keeps_key_bind; [unfold fetch; keeps | intros videoResponse].
  destruct (negb (ok videoResponse)).
  - destruct (http_status videoResponse =? 403)%Z; keeps.
  - unfold read_blob, createObjectURL. keeps.
Qed.

Lemma generate_last_run imageBase64 prompt w :
  has_API_KEY w = true ->
  generate imageBase64 prompt false w = generate_try imageBase64 prompt w.
Proof.
  intros Hk. unfold generate. rewrite (with_client _ _ Hk). unfold try_catch. simpl.
  destruct (generate_try imageBase64 prompt w) as [[a | e | ] w1]; reflexivity.
Qed.

Lemma console_log_run msg w :
  console_log msg w = (Fulfilled tt, set_trace w (trace w ++ [ConsoleLog msg])).
Proof. reflexivity. Qed.

(** What the [catch] of a retry site does on a permission failure: it
    logs, re-authorizes, and hands over to the world in which the one
    retry runs. *)
Lemma reauthorize msg w :
  exists w2,
    (console_log msg;; ensureApiKey true) w = (Fulfilled tt, w2)
    /\ trace w2 = (trace w ++ ConsoleLog msg :: EnsureApiKeyCall true
                     :: ensureApiKey_host_calls true w)%list
    /\ same_service w w2.
Proof.
  unfold bind. rewrite console_log_run.
  destruct (ensureApiKey_completes true (set_trace w (trace w ++ [ConsoleLog msg])))
    as (w2 & -> & Ht & Hs).
  exists w2. split; [reflexivity|]. split.
  - rewrite Ht. simpl. rewrite <- app_assoc. reflexivity.
  - exact Hs.
Qed.

Section RetryOnce.

Variable prompt : Text.
Variables imageBase64 videoPrompt : string.

(** The image half of C2. *)
Lemma generateSingleImage_retries_once w e rest :
  has_API_KEY w = true ->
  generateContent_replies w = Rejects e :: rest ->
  is_permission_denied e = true ->
  exists w2,
    generateSingleImage prompt true w = generateSingleImage prompt false w2
    /\ generateContent_replies w2 = rest
    /\ count_events is_reauthorization (trace w2)
       = count_events is_reauthorization (trace w) + 1
    /\ count_events is_generateContent (trace w2)
       = count_events is_generateContent (trace w) + 1
    /\ count_events is_reauthorization (trace (snd (generateSingleImage prompt true w)))
       = count_events is_reauthorization (trace w) + 1
    /\ count_events is_generateContent (trace (snd (generateSingleImage prompt true w)))
       = count_events is_generateContent (trace w) + 2
    /\ (forall e2 rest2,
           rest = Rejects e2 :: rest2 ->
           fst (generateSingleImage prompt true w) = Rejected e2
           /\ generateContent_replies (snd (generateSingleImage prompt true w)) = rest2).
Proof.
  intros Hk Hq Hd.
  pose proof (generateSingleImage_try_rejects prompt _ _ _ Hq) as Htry.
  set (w1 := set_generateContent_replies
               (set_trace w (trace w ++ [GenerateContent "gemini-3-pro-image-preview"
                                           [TextPart prompt]])) rest) in Htry.
  destruct (reauthorize "Permission denied, prompting for key selection again..." w1)
    as (w2 & Hre & Ht2 & Hs2).
  assert (Hk2 : has_API_KEY w2 = true).
  { rewrite (same_service_key _ _ Hs2). exact Hk. }
  assert (Hrun : generateSingleImage prompt true w = generateSingleImage prompt false w2).
  { unfold generateSingleImage at 1.
    rewrite (with_client _ _ Hk), (try_catch_rejected _ _ _ _ _ Htry).
    unfold generateSingleImage_catch. rewrite Hd. simpl.
    rewrite bind_assoc, (bind_fulfilled _ _ _ _ _ Hre). reflexivity. }
  assert (Hq2 : generateContent_replies w2 = rest).
  { destruct Hs2 as (_ & _ & -> & _). reflexivity. }
  assert (Hr2 : count_events is_reauthorization (trace w2)
                = count_events is_reauthorization (trace w) + 1).
  { rewrite Ht2. unfold w1. simpl. rewrite !count_events_app. simpl.
    rewrite (count_host_calls _ _ _ host_not_reauthorization). lia. }
  assert (Hg2 : count_events is_generateContent (trace w2)
                = count_events is_generateContent (trace w) + 1).
  { rewrite Ht2. unfold w1. simpl. rewrite !count_events_app. simpl.
    rewrite (count_host_calls _ _ _ host_not_generateContent). lia. }
  exists w2. rewrite Hrun, (generateSingleImage_last_run _ _ Hk2).
  destruct (generateSingleImage_try prompt w2) as [r w'] eqn:Elast.
  pose proof (generateSingleImage_try_trace _ _ _ _ Elast) as Ht'.
  split; [reflexivity|]. do 3 (split; [assumption|]). simpl.
  split; [rewrite Ht', count_events_app; simpl; lia|].
  split; [rewrite Ht', count_events_app; simpl; lia|].
  intros e2 rest2 Hrest. rewrite Hrest in Hq2.
  rewrite (generateSingleImage_try_rejects _ _ _ _ Hq2) in Elast.
  injection Elast as <- <-. split; reflexivity.
Qed.

(** The video half of C2; [w0] is the world the first attempt runs in,
    after the unforced [ensureApiKey] that opens [generateVeoVideo]. *)
Lemma generateVeoVideo_retries_once w e w1 :
  has_API_KEY w = true ->
  generate_try imageBase64 videoPrompt (snd (ensureApiKey false w)) = (Rejected e, w1) ->
  is_permission_denied e = true ->
  exists w2,
    same_service w1 w2
    /\ count_events is_reauthorization (trace w2)
       = count_events is_reauthorization (trace w) + 1
    /\ count_events is_generateVideos (trace w2)
       = count_events is_generateVideos (trace w) + 1
    /\ count_events is_reauthorization (trace (snd (generateVeoVideo imageBase64 videoPrompt w)))
       = count_events is_reauthorization (trace w) + 1
    /\ count_events is_generateVideos (trace (snd (generateVeoVideo imageBase64 videoPrompt w)))
       = count_events is_generateVideos (trace w) + 2
    /\ (forall e2 w3,
           generate_try imageBase64 videoPrompt w2 = (Rejected e2, w3) ->
           generateVeoVideo imageBase64 videoPrompt w =
             (Rejected e2,
              set_trace w3 (trace w3 ++ [ConsoleError (Some "Veo generation failed")
                                           (Some e2)])))
    /\ (forall url w3,
           generate_try imageBase64 videoPrompt w2 = (Fulfilled url, w3) ->
           generateVeoVideo imageBase64 videoPrompt w = (Fulfilled url, w3)).
Proof.
  intros Hk Htry Hd.
  destruct (ensureApiKey_completes false w) as (w0 & Hens & Ht0 & Hs0).
  rewrite Hens in Htry. simpl in Htry.
  destruct (generate_try_trace _ _ _ _ _ Htry) as (m1 & t1 & b1 & d1 & Ht1 & Hp1).
  destruct (reauthorize "Permission denied for Veo, prompting for key selection again..." w1)
    as (w2 & Hre & Ht2 & Hs2).
  assert (Hk0 : has_API_KEY w0 = true).
  { rewrite (same_service_key _ _ Hs0). exact Hk. }
  assert (Hk2 : has_API_KEY w2 = true).
  { rewrite (same_service_key _ _ Hs2),
      (keeps_key_has _ _ _ _ (keeps_key_generate_try _ _) Htry). exact Hk0. }
  assert (Hgen : generate imageBase64 videoPrompt true w0
                 = generate_try imageBase64 videoPrompt w2).
  { unfold generate at 1.
    rewrite (with_client _ _ Hk0), (try_catch_rejected _ _ _ _ _ Htry).
    rewrite Hd. simpl. rewrite bind_assoc, (bind_fulfilled _ _ _ _ _ Hre).
    unfold generate_last. rewrite (with_client _ _ Hk2). unfold try_catch.
    destruct (generate_try imageBase64 videoPrompt w2) as [[a | e' | ] w']; reflexivity. }
  assert (Hrun : generateVeoVideo imageBase64 videoPrompt w =
                 try_catch (generate_try imageBase64 videoPrompt)
                   (fun error =>
                      console_error (Some "Veo generation failed") (Some error);;
                      throw error) w2).
  { unfold generateVeoVideo. rewrite (bind_fulfilled _ _ _ _ _ Hens).
    unfold try_catch. rewrite Hgen. reflexivity. }
  assert (Hr2 : count_events is_reauthorization (trace w2)
                = count_events is_reauthorization (trace w) + 1).
  { rewrite Ht2, Ht1, Ht0. count_trace.
    rewrite !(count_host_calls _ _ _ host_not_reauthorization).
    rewrite (count_events_none _ _ _ Hp1 follow_up_not_reauthorization). lia. }
  assert (Hg2 : count_events is_generateVideos (trace w2)
                = count_events is_generateVideos (trace w) + 1).
  { rewrite Ht2, Ht1, Ht0. count_trace.
    rewrite !(count_host_calls _ _ _ host_not_generateVideos).
    rewrite (count_events_none _ _ _ Hp1 follow_up_not_generateVideos). lia. }
  exists w2. rewrite Hrun. unfold try_catch.
  destruct (generate_try imageBase64 videoPrompt w2) as [r w3] eqn:E2.
  destruct (generate_try_trace _ _ _ _ _ E2) as (m2 & t2 & b2 & d2 & Ht3 & Hp3).
  assert (Hr3 : count_events is_reauthorization (trace w3)
                = count_events is_reauthorization (trace w) + 1).
  { rewrite Ht3. count_trace.
    rewrite (count_events_none _ _ _ Hp3 follow_up_not_reauthorization). lia. }
  assert (Hg3 : count_events is_generateVideos (trace w3)
                = count_events is_generateVideos (trace w) + 2).
  { rewrite Ht3. count_trace.
    rewrite (count_events_none _ _ _ Hp3 follow_up_not_generateVideos). lia. }
  split; [exact Hs2|]. split; [exact Hr2|]. split; [exact Hg2|].
  destruct r as [url | e2 | ]; simpl.
  - repeat split; try assumption.
    + intros e2 w3' H. discriminate H.
    + intros url' w3' H. injection H as <- <-. reflexivity.
  - count_trace. repeat split; try lia.
    + intros e2' w3' H. injection H as <- <-. reflexivity.
    + intros url' w3' H. discriminate H.
  - repeat split; try assumption.
    + intros e2 w3' H. discriminate H.
    + intros url' w3' H. discriminate H.
Qed.

End RetryOnce.

(** C2: when the remote call of an image generation
    ([generateSingleImage] as [generateCoverImages] calls it) is
    rejected with a 403-classified error, and when the first attempt of
    a video generation fails with one, [ensureApiKey(true)] is entered
    exactly once and is followed by exactly one retry: the run
    continues as the same call with [retry] false, the whole call
    sends two opening requests and counts one forced re-authorization,
    and a failure of the retry, 403-classified or not, is the failure
    of the call. The remote call is made by a client that could be
    built: [process.env.API_KEY] is set. *)
Theorem permission_denied_retries_once :
  (forall prompt w e rest,
      has_API_KEY w = true ->
      generateContent_replies w = Rejects e :: rest ->
      is_permission_denied e = true ->
      exists w2,
        generateSingleImage prompt true w = generateSingleImage prompt false w2
        /\ generateContent_replies w2 = rest
        /\ count_events is_reauthorization (trace w2)
           = count_events is_reauthorization (trace w) + 1
        /\ count_events is_generateContent (trace w2)
           = count_events is_generateContent (trace w) + 1
        /\ count_events is_reauthorization (trace (snd (generateSingleImage prompt true w)))
           = count_events is_reauthorization (trace w) + 1
        /\ count_events is_generateContent (trace (snd (generateSingleImage prompt true w)))
           = count_events is_generateContent (trace w) + 2
        /\ (forall e2 rest2,
               rest = Rejects e2 :: rest2 ->
               fst (generateSingleImage prompt true w) = Rejected e2
               /\ generateContent_replies (snd (generateSingleImage prompt true w)) = rest2))
  /\ (forall imageBase64 videoPrompt w e w1,
         has_API_KEY w = true ->
         generate_try imageBase64 videoPrompt (snd (ensureApiKey false w)) = (Rejected e, w1) ->
         is_permission_denied e = true ->
         exists w2,
           same_service w1 w2
           /\ count_events is_reauthorization (trace w2)
              = count_events is_reauthorization (trace w) + 1
           /\ count_events is_generateVideos (trace w2)
              = count_events is_generateVideos (trace w) + 1
           /\ count_events is_reauthorization
                (trace (snd (generateVeoVideo imageBase64 videoPrompt w)))
              = count_events is_reauthorization (trace w) + 1
           /\ count_events is_generateVideos
                (trace (snd (generateVeoVideo imageBase64 videoPrompt w)))
              = count_events is_generateVideos (trace w) + 2
           /\ (forall e2 w3,
                  generate_try imageBase64 videoPrompt w2 = (Rejected e2, w3) ->
                  generateVeoVideo imageBase64 videoPrompt w =
                    (Rejected e2,
                     set_trace w3 (trace w3 ++ [ConsoleError (Some "Veo generation failed")
                                                  (Some e2)])))
           /\ (forall url w3,
                  generate_try imageBase64 videoPrompt w2 = (Fulfilled url, w3) ->
                  generateVeoVideo imageBase64 videoPrompt w = (Fulfilled url, w3))).
Proof.
  split.
  - intros. eapply generateSingleImage_retries_once; eassumption.
  - intros. eapply generateVeoVideo_retries_once; eassumption.
Qed.

(** C2, witness: an image call and a video call that are denied twice;
    each re-authorizes once, sends two requests, and fails with the
    second denial. *)
Lemma permission_denied_retries_once_witness :
  (fst (generateSingleImage sample_prompt true (sample_world [Rejects denied; Rejects denied]))
   = Rejected denied
   /\ count_events is_reauthorization
        (trace (snd (generateSingleImage sample_prompt true
                       (sample_world [Rejects denied; Rejects denied])))) = 1
   /\ count_events is_generateContent
        (trace (snd (generateSingleImage sample_prompt true
                       (sample_world [Rejects denied; Rejects denied])))) = 2)
  /\ (fst (generateVeoVideo sample_image EmptyString
             (sample_video_world [Rejects denied; Rejects denied]))
      = Rejected denied
      /\ count_events is_reauthorization
           (trace (snd (generateVeoVideo sample_image EmptyString
                          (sample_video_world [Rejects denied; Rejects denied])))) = 1
      /\ count_events is_generateVideos
           (trace (snd (generateVeoVideo sample_image EmptyString
                          (sample_video_world [Rejects denied; Rejects denied])))) = 2).
Proof.
  split.
  - destruct (proj1 permission_denied_retries_once sample_prompt
                (sample_world [Rejects denied; Rejects denied]) denied [Rejects denied]
                eq_refl eq_refl eq_refl)
      as (w2 & _ & _ & _ & _ & Hr & Hg & Hfail).
    destruct (Hfail denied [] eq_refl) as [Hf _].
    split; [exact Hf|]. split; [exact Hr | exact Hg].
  - destruct (proj2 permission_denied_retries_once sample_image EmptyString
                (sample_video_world [Rejects denied; Rejects denied]) denied
                (snd (generate_try sample_image EmptyString
                        (snd (ensureApiKey false
                                (sample_video_world [Rejects denied; Rejects denied])))))
                eq_refl eq_refl eq_refl)
      as (w2 & _ & _ & _ & Hr & Hg & _).
    split; [reflexivity|]. split; [exact Hr | exact Hg].
Defined.

(** The failures of the remote calls of a video attempt are failures of
    its [try] block: a rejected [generateVideos], and a [fetch] answered
    with status 403, which the block turns into the error
    [PERMISSION_DENIED]. *)
Lemma generate_try_rejected_request imageBase64 prompt w e rest :
  generateVideos_replies w = Rejects e :: rest ->
  exists w1, generate_try imageBase64 prompt w = (Rejected e, w1).
Proof.
  intros H. unfold generate_try, ai_generateVideos, bind, emit, modify, next_reply.
  simpl. rewrite H. simpl. eauto.
Qed.

Lemma generate_try_forbidden_fetch imageBase64 prompt w operation rest videoUri r rest' :
  generateVideos_replies w = Resolves operation :: rest ->
  is_done operation = true ->
  operation_videoUri operation = Some videoUri ->
  videoUri <> EmptyString ->
  fetch_replies w = Resolves r :: rest' ->
  ok r = false ->
  http_status r = 403%Z ->
  exists w1,
    generate_try imageBase64 prompt w = (Rejected (Error "PERMISSION_DENIED"), w1)
    /\ is_permission_denied (Error "PERMISSION_DENIED") = true.
Proof.
  intros Hq Hdone Huri Hne Hf Hok Hst.
  apply String.eqb_neq in Hne.
  unfold generate_try, ai_generateVideos, fetch, bind, emit, modify, next_reply, gets.
  simpl. rewrite Hq. simpl. rewrite Hdone. simpl. rewrite Huri, Hne. simpl.
  rewrite Hf. simpl. rewrite Hok, Hst. simpl. eauto.
Qed.

(** A batch of three images re-authorizes once per image that is
    denied: the count of C2 is per call of [generateSingleImage]. The
    three requests of the batch are sent, and answered, before the
    first retry. *)
Example generateCoverImages_reauthorizes_per_image :
  fst (generateCoverImages sample_prompt
         (sample_world [Rejects denied; Rejects denied; Rejects denied;
                        Resolves (image_answer "AAAA"); Resolves (image_answer "BBBB");
                        Resolves (image_answer "CCCC")]))
  = Fulfilled ["data:image/png;base64,AAAA"; "data:image/png;base64,BBBB";
               "data:image/png;base64,CCCC"]
  /\ count_events is_reauthorization
       (trace (snd (generateCoverImages sample_prompt
                      (sample_world [Rejects denied; Rejects denied; Rejects denied;
                                     Resolves (image_answer "AAAA");
                                     Resolves (image_answer "BBBB");
                                     Resolves (image_answer "CCCC")]))))
     = 3.
Proof. split; vm_compute; reflexivity. Qed.

(** A video attempt whose [fetch] is forbidden is retried once. *)
Example generateVeoVideo_forbidden_fetch :
  fst (generateVeoVideo sample_image EmptyString
         (set_fetch_replies
            (sample_video_world [Resolves finished_operation; Rejects unavailable])
            [Resolves forbidden_fetch]))
  = Rejected unavailable
  /\ count_events is_reauthorization
       (trace (snd (generateVeoVideo sample_image EmptyString
                      (set_fetch_replies
                         (sample_video_world [Resolves finished_operation; Rejects unavailable])
                         [Resolves forbidden_fetch]))))
     = 1.
Proof. split; vm_compute; reflexivity. Qed.

(** ** The orchestrator *)

Arguments researchTrends : simpl never.
Arguments generateBookText : simpl never.
Arguments generateCoverImages : simpl never.
Arguments editCoverImage : simpl never.
Arguments imagePrompt_of : simpl never.
Arguments marketplaceName_of : simpl never.

Lemma run_all_length {A} (ps : list (M World A)) w :
  length (fst (run_all ps w)) = length ps.
Proof.
  revert w. induction ps as [|p ps IH]; intros w; simpl; [reflexivity|].
  destruct (p w) as [r w1]. specialize (IH w1).
  destruct (run_all ps w1) as [rs w2]. simpl in *. rewrite IH. reflexivity.
Qed.

Lemma all_fulfilled_length {A} (rs : list (Outcome A)) l :
  all_fulfilled rs = Some l -> length l = length rs.
Proof.
  revert l. induction rs as [|r rs IH]; intros l H; simpl in H.
  - injection H as <-. reflexivity.
  - destruct r as [a | e | ]; try discriminate H.
    destruct (all_fulfilled rs) as [l'|]; [|discriminate H].
    injection H as <-. simpl. rewrite (IH l' eq_refl). reflexivity.
Qed.

(** What a batch that is fulfilled holds: one value per promise, each
    one what a call was fulfilled with. *)
Lemma resume_all_fulfilled {A B} (Q : B -> Prop) (resume : A -> M World B) promises w l :
  (forall a w0 b w1, resume a w0 = (Fulfilled b, w1) -> Q b) ->
  all_fulfilled (fst (resume_all resume promises w)) = Some l ->
  length l = length promises /\ Forall Q l.
Proof.
  intros HQ. revert w l. induction promises as [|promise promises IH]; intros w l; simpl.
  - intros H. injection H as <-. split; [reflexivity | constructor].
  - destruct (match promise with
              | Fulfilled a => resume a w
              | Rejected e => (Rejected e, w)
              | Pending => (Pending, w)
              end) as [r w1] eqn:E.
    destruct r as [b | e | ]; simpl.
    + specialize (IH w1). destruct (resume_all resume promises w1) as [rs w2]. simpl in *.
      destruct (all_fulfilled rs) as [l'|]; [|discriminate].
      intros H. injection H as <-. destruct (IH l' eq_refl) as [Hlen Hall].
      split; [simpl; rewrite Hlen; reflexivity|].
      constructor; [|exact Hall].
      destruct promise as [a | e | ]; [exact (HQ _ _ _ _ E) | discriminate E | discriminate E].
    + discriminate.
    + destruct (resume_all resume promises w1) as [rs w2]. simpl. discriminate.
Qed.

Lemma Promise_all_fulfilled {A B} (Q : B -> Prop) (resume : A -> M World B) promises w l w' :
  (forall a w0 b w1, resume a w0 = (Fulfilled b, w1) -> Q b) ->
  Promise_all resume promises w = (Fulfilled l, w') ->
  length l = length promises /\ Forall Q l.
Proof.
  intros HQ. unfold Promise_all.
  destruct (first_rejection promises); [discriminate|].
  pose proof (fun l => resume_all_fulfilled Q resume promises w l HQ) as Hall.
  destruct (resume_all resume promises w) as [rs w1]. simpl in Hall.
  unfold settle_all. destruct (first_rejection rs); [discriminate|].
  destruct (all_fulfilled rs) as [l'|]; [|discriminate].
  intros H. injection H as <- _. apply Hall. reflexivity.
Qed.

(** What a batch of images that is fulfilled holds, for any property
    [Q] of what a call is fulfilled with: three values with [Q]. *)
Lemma generateCoverImages_fulfilled (Q : string -> Prop) prompt w images w' :
  (forall answer w0 image w1,
      generateSingleImage_resume prompt true answer w0 = (Fulfilled image, w1) -> Q image) ->
  generateCoverImages prompt w = (Fulfilled images, w') ->
  length images = 3 /\ Forall Q images.
Proof.
  intros HQ. unfold generateCoverImages. intros H.
  destruct (ensureApiKey_completes false w) as (w0 & Hens & _).
  rewrite (bind_fulfilled _ _ _ _ _ Hens) in H. unfold try_catch, bind, start_all in H.
  match type of H with
  | context [run_all ?ps w0] =>
    pose proof (run_all_length ps w0) as Hlen; destruct (run_all ps w0) as [promises w1]
  end.
  simpl in Hlen.
  destruct (Promise_all _ promises w1) as [[l | e | ] w2] eqn:E; try discriminate H.
  injection H as <- _.
  destruct (Promise_all_fulfilled Q _ _ _ _ _ HQ E) as [Hl Hall].
  split; [rewrite Hl; exact Hlen | exact Hall].
Qed.

(** A batch that succeeds holds three images. *)
Lemma generateCoverImages_three prompt w images w' :
  generateCoverImages prompt w = (Fulfilled images, w') ->
  exists i1 i2 i3, images = [i1; i2; i3].
Proof.
  intros H.
  destruct (generateCoverImages_fulfilled (fun _ => True) _ _ _ _ (fun _ _ _ _ _ => I) H)
    as [Hlen _].
  destruct images as [|i1 [|i2 [|i3 [|i4 l]]]]; try discriminate Hlen. eauto.
Qed.

Section Orchestrator.

Variable T : Tables.

(** The validation of [startProcess] turns away every falsy topic or
    author: the empty string, and also a missing property or a
    [null] left by an earlier merge. *)
Lemma startProcess_validation_fails s :
  truthy_opt (metadata (app s) !! "topic") = false
  \/ truthy_opt (metadata (app s) !! "author") = false ->
  startProcess T s =
    (Fulfilled tt,
     {| app := app s;
        world := set_trace (world s)
                   (trace (world s) ++ [Alert "Please enter a topic and author name."]) |}).
Proof.
  intros H. unfold startProcess, bind, gets.
  replace (negb (truthy_opt (metadata (app s) !! "topic"))
           || negb (truthy_opt (metadata (app s) !! "author"))) with true;
    [reflexivity|].
  destruct H as [-> | ->]; simpl; [reflexivity | rewrite orb_true_r; reflexivity].
Qed.

(** C3: when [metadata.topic] or [metadata.author] is the empty string,
    [startProcess] shows its message and does nothing else: the
    component's state (stage, metadata, grounding data, images, loading
    flag) is the one it had, the world gains the alert alone, and
    nothing is sent to the remote service. *)
Theorem startProcess_requires_topic_and_author s :
  metadata (app s) !! "topic" = Some (JString EmptyString)
  \/ metadata (app s) !! "author" = Some (JString EmptyString) ->
  startProcess T s =
    (Fulfilled tt,
     {| app := app s;
        world := set_trace (world s)
                   (trace (world s) ++ [Alert "Please enter a topic and author name."]) |})
  /\ count_events is_remote (trace (world (snd (startProcess T s))))
     = count_events is_remote (trace (world s)).
Proof.
  intros H.
  assert (Hrun := startProcess_validation_fails s).
  rewrite Hrun.
  - split; [reflexivity|]. simpl. rewrite count_events_app. simpl. lia.
  - destruct H as [-> | ->]; [left | right]; reflexivity.
Qed.

End Orchestrator.

(** C3, witness: the author field is empty. *)
Lemma startProcess_requires_topic_and_author_witness :
  startProcess sample_tables
    {| app := sample_app (<["author" := JString EmptyString]> sample_metadata);
       world := sample_world [] |}
  = (Fulfilled tt,
     {| app := sample_app (<["author" := JString EmptyString]> sample_metadata);
        world := set_trace (sample_world [])
                   [Alert "Please enter a topic and author name."] |}).
Proof.
  apply (startProcess_requires_topic_and_author sample_tables
           {| app := sample_app (<["author" := JString EmptyString]> sample_metadata);
              world := sample_world [] |}).
  right. reflexivity.
Defined.

Section Pipeline.

Variable T : Tables.
Variable s : Session.

Let md := metadata (app s).
Let lang := language (app s).
Let t := TRANSLATIONS T lang.
Let marketplaceName := marketplaceName_of T (md !! "amazonMarketplace").
Let niche := js_or (md !! "targetMarket") (md !! "category").

Let research_step :=
  researchTrends T (md !! "category") (md !! "topic") (md !! "targetMarket")
    (md !! "amazonMarketplace") lang.
Let text_step :=
  generateBookText T (md !! "topic") (md !! "category") (md !! "author") lang.
Let image_step research :=
  generateCoverImages (imagePrompt_of md marketplaceName niche research).

(** The [catch] and the [finally] of [startProcess]. *)
Let on_error (error : JsError) : M Session unit :=
  liftW (console_error None (Some error));; alert (errorKey t).
Let cleanup : M Session unit :=
  setIsLoading false;; setStatusMessage (lit EmptyString).

Hypothesis topic_given : truthy_opt (md !! "topic") = true.
Hypothesis author_given : truthy_opt (md !! "author") = true.

(** Past the validation, [startProcess] is its [try] statement run in
    the session [entered s]. *)
Lemma startProcess_enters :
  startProcess T s =
    try_finally (try_catch (startProcess_try T md lang t) on_error) cleanup (entered s).
Proof.
  unfold startProcess, bind at 1, gets. fold md lang t.
  rewrite topic_given, author_given. reflexivity.
Qed.

(** The [try] block when its three steps succeed. *)
Lemma startProcess_try_succeeds s0 research w1 textData w2 images w3 :
  research_step (world s0) = (Fulfilled research, w1) ->
  text_step w1 = (Fulfilled textData, w2) ->
  image_step research w2 = (Fulfilled images, w3) ->
  exists a',
    startProcess_try T md lang t s0 = (Fulfilled tt, {| app := a'; world := w3 |})
    /\ step a' = GENERATION
    /\ isLoading a' = isLoading (app s0)
    /\ generatedImages a' = images
    /\ coverImage a' = head images
    /\ metadata a' = spread (metadata (app s0)) textData
    /\ groundingData a' = Some research.
Proof.
  intros H1 H2 H3.
  unfold startProcess_try, bind, setStatusMessage, setGroundingData, setMetadata,
    setGeneratedImages, setCoverImage, setStep, update, modify, liftW.
  fold marketplaceName niche. simpl.
  unfold research_step in H1. rewrite H1. simpl.
  unfold text_step in H2. rewrite H2. simpl.
  unfold image_step in H3. rewrite H3. simpl.
  eexists. split; [reflexivity|]. repeat split.
Qed.

(** The [try] block leaves the stage and the loading flag alone unless
    it runs to its end. *)
Lemma startProcess_try_keeps_stage s0 r s2 :
  startProcess_try T md lang t s0 = (r, s2) ->
  r <> Fulfilled tt ->
  step (app s2) = step (app s0) /\ isLoading (app s2) = isLoading (app s0).
Proof.
  unfold startProcess_try, bind, setStatusMessage, setGroundingData, setMetadata,
    setGeneratedImages, setCoverImage, setStep, update, modify, liftW.
  simpl.
  destruct (researchTrends _ _ _ _ _ _ _) as [[research | e | ] w1]; simpl;
    try (intros H _; injection H as _ <-; split; reflexivity).
  destruct (generateBookText _ _ _ _ _ _) as [[textData | e | ] w2]; simpl;
    try (intros H _; injection H as _ <-; split; reflexivity).
  destruct (generateCoverImages _ _) as [[images | e | ] w3]; simpl;
    try (intros H _; injection H as _ <-; split; reflexivity).
  intros H Hr. injection H as <- _. contradiction.
Qed.

(** How [startProcess] ends when its [try] block is rejected. *)
Lemma startProcess_catches e s2 :
  startProcess_try T md lang t (entered s) = (Rejected e, s2) ->
  startProcess T s =
    (Fulfilled tt,
     {| app := with_statusMessage (lit EmptyString) (with_isLoading false (app s2));
        world := set_trace (set_trace (world s2)
                              (trace (world s2) ++ [ConsoleError None (Some e)]))
                   ((trace (world s2) ++ [ConsoleError None (Some e)])
                      ++ [Alert (errorKey t)]) |}).
Proof.
  intros H. rewrite startProcess_enters. unfold try_finally, try_catch. rewrite H.
  reflexivity.
Qed.

(** How [startProcess] ends when its [try] block runs to its end. *)
Lemma startProcess_completes s2 :
  startProcess_try T md lang t (entered s) = (Fulfilled tt, s2) ->
  startProcess T s =
    (Fulfilled tt,
     {| app := with_statusMessage (lit EmptyString) (with_isLoading false (app s2));
        world := world s2 |}).
Proof.
  intros H. rewrite startProcess_enters. unfold try_finally, try_catch. rewrite H.
  reflexivity.
Qed.

(** C1, as amended: when the research, text-generation and
    image-generation steps of a run of [startProcess] all complete
    without throwing, the list of generated images has exactly three
    elements, the selected cover image is the first of them, the stage
    is Generation, and the metadata is the input metadata overwritten by
    the properties of the text-generation result: [author] is the input
    author when that result has no [author] property, and [title] is
    the result's title when it has one and the input title otherwise. *)
Theorem startProcess_success research w1 textData w2 images w3 :
  research_step (world s) = (Fulfilled research, w1) ->
  text_step w1 = (Fulfilled textData, w2) ->
  image_step research w2 = (Fulfilled images, w3) ->
  exists s',
    startProcess T s = (Fulfilled tt, s')
    /\ generatedImages (app s') = images
    /\ length (generatedImages (app s')) = 3
    /\ (exists first, head (generatedImages (app s')) = Some first
                      /\ coverImage (app s') = Some first)
    /\ step (app s') = GENERATION
    /\ isLoading (app s') = false
    /\ metadata (app s') = spread md textData
    /\ (own_properties textData !! "author" = None ->
        metadata (app s') !! "author" = md !! "author")
    /\ (forall v, own_properties textData !! "title" = Some v ->
                  metadata (app s') !! "title" = Some v)
    /\ (own_properties textData !! "title" = None ->
        metadata (app s') !! "title" = md !! "title").
Proof.
  intros H1 H2 H3.
  destruct (startProcess_try_succeeds (entered s) _ _ _ _ _ _ H1 H2 H3)
    as (a' & Htry & Hstep & _ & Himg & Hcover & Hmeta & _).
  destruct (generateCoverImages_three _ _ _ _ H3) as (i1 & i2 & i3 & Hthree).
  rewrite (startProcess_completes _ Htry). eexists. split; [reflexivity|]. simpl.
  rewrite Hcover, Himg, Hstep, Hmeta, Hthree. fold md. simpl.
  split; [reflexivity|]. split; [reflexivity|]. split; [eauto|].
  split; [reflexivity|]. split; [reflexivity|]. split; [reflexivity|].
  unfold spread. split; [|split].
  - intros Hn. apply lookup_union_r. exact Hn.
  - intros v Hv. apply lookup_union_Some_l. exact Hv.
  - intros Hn. apply lookup_union_r. exact Hn.
Qed.

(** C6: once the validation has passed, an error thrown by the chain of
    [startProcess] is caught: the handler logs it and shows the
    localized message [t.errorKey], the same for every error; the stage
    stays Research, where the entry put it; and the loading flag is
    cleared. The loading flag is cleared on the success path as well. *)
Theorem startProcess_failure_is_caught :
  (forall e s2,
      startProcess_try T md lang t (entered s) = (Rejected e, s2) ->
      exists s',
        startProcess T s = (Fulfilled tt, s')
        /\ step (app s') = RESEARCH
        /\ isLoading (app s') = false
        /\ trace (world s') =
             (trace (world s2) ++ [ConsoleError None (Some e); Alert (errorKey t)])%list)
  /\ (forall s2,
         startProcess_try T md lang t (entered s) = (Fulfilled tt, s2) ->
         exists s',
           startProcess T s = (Fulfilled tt, s')
           /\ isLoading (app s') = false).
Proof.
  split.
  - intros e s2 H. rewrite (startProcess_catches _ _ H).
    eexists. split; [reflexivity|]. simpl.
    destruct (startProcess_try_keeps_stage _ _ _ H) as [Hs _]; [discriminate|].
    rewrite Hs, <- app_assoc. repeat split.
  - intros s2 H. rewrite (startProcess_completes _ H).
    eexists. split; reflexivity.
Qed.

End Pipeline.

(** C1, witness: the spec's example; the text step answers with a
    title. *)
Lemma startProcess_success_witness :
  exists s',
    startProcess sample_tables good_session = (Fulfilled tt, s')
    /\ length (generatedImages (app s')) = 3
    /\ coverImage (app s') = Some "data:image/png;base64,AAAA"
    /\ step (app s') = GENERATION
    /\ metadata (app s') !! "author" = Some (JString "J. Doe")
    /\ metadata (app s') !! "title" = Some (JString "The Calm Mind").
Proof.
  destruct (startProcess_success sample_tables good_session eq_refl eq_refl
              (settled (fst (sample_research_run (world good_session))) research_fallback)
              (snd (sample_research_run (world good_session)))
              (settled (fst (sample_text_run (world good_session))) JNull)
              (snd (sample_text_run (world good_session)))
              (settled (fst (sample_image_run (world good_session))) [])
              (snd (sample_image_run (world good_session))))
    as (s' & Hrun & Himg & Hlen & (first & Hhead & Hcover) & Hstep & _ & _
        & Hauthor & Htitle & _);
    [vm_compute; reflexivity | vm_compute; reflexivity | vm_compute; reflexivity |].
  exists s'. split; [exact Hrun|]. split; [exact Hlen|].
  split; [rewrite Hcover, <- Hhead, Himg; vm_compute; reflexivity|].
  split; [exact Hstep|].
  split; [rewrite Hauthor; vm_compute; reflexivity|].
  apply Htitle. vm_compute. reflexivity.
Defined.

(** C1, counterexample: every step of the run completes, the stage is
    Generation and there are three images, but the text-generation
    result is an object with an author and without a title: the author
    of the metadata has changed, and its title, still the input title,
    comes from no text-generation result. *)
Lemma startProcess_author_counterexample :
  fst (startProcess sample_tables overwritten_session) = Fulfilled tt
  /\ step (app (snd (startProcess sample_tables overwritten_session))) = GENERATION
  /\ length (generatedImages (app (snd (startProcess sample_tables overwritten_session)))) = 3
  /\ metadata (app overwritten_session) !! "author" = Some (JString "J. Doe")
  /\ metadata (app (snd (startProcess sample_tables overwritten_session))) !! "author"
     = Some (JString "Ghost Writer")
  /\ (exists textData, JSON_parse author_only_text = Some textData
                       /\ member textData "title" = None)
  /\ metadata (app (snd (startProcess sample_tables overwritten_session))) !! "title"
     = metadata (app overwritten_session) !! "title".
Proof.
  repeat (split; [vm_compute; reflexivity|]).
  split; [eexists; split; vm_compute; reflexivity | vm_compute; reflexivity].
Qed.

(** C6, witness: the text-generation call is rejected. *)
Lemma startProcess_failure_is_caught_witness :
  exists s',
    startProcess sample_tables failing_session = (Fulfilled tt, s')
    /\ step (app s') = RESEARCH
    /\ isLoading (app s') = false
    /\ count_events (fun e => match e with Alert _ => true | _ => false end)
         (trace (world s')) = 1.
Proof.
  destruct (proj1 (startProcess_failure_is_caught sample_tables failing_session
                     eq_refl eq_refl)
              unavailable
              (snd (startProcess_try sample_tables sample_metadata "it"
                      sample_translations (entered failing_session))))
    as (s' & Hrun & Hstep & Hload & Htrace); [vm_compute; reflexivity|].
  exists s'. split; [exact Hrun|]. split; [exact Hstep|]. split; [exact Hload|].
  rewrite Htrace. vm_compute. reflexivity.
Defined.

(** ** Editing the cover *)

Section Editing.

Variable T : Tables.

(** C9: [handleEditImage] changes nothing when there is no current
    cover image or the instruction is empty; otherwise, when the edit
    succeeds the selected cover image becomes the edited one and the
    instruction is cleared, and when it fails both are as they were;
    and in every case the stage, the list of generated images and the
    metadata (and the grounding data, the video and the language) are
    as they were. *)
Theorem handleEditImage_frame s :
  (coverImage (app s) = None \/ coverImage (app s) = Some EmptyString
   \/ editPrompt (app s) = EmptyString ->
   handleEditImage T s = (Fulfilled tt, s))
  /\ (forall image,
         coverImage (app s) = Some image ->
         image <> EmptyString ->
         editPrompt (app s) <> EmptyString ->
         (forall newImage w',
             editCoverImage image (editPrompt (app s)) (world s) = (Fulfilled newImage, w') ->
             exists s',
               handleEditImage T s = (Fulfilled tt, s')
               /\ coverImage (app s') = Some newImage
               /\ editPrompt (app s') = EmptyString)
         /\ (forall e w',
                editCoverImage image (editPrompt (app s)) (world s) = (Rejected e, w') ->
                exists s',
                  handleEditImage T s = (Fulfilled tt, s')
                  /\ coverImage (app s') = coverImage (app s)
                  /\ editPrompt (app s') = editPrompt (app s)
                  /\ trace (world s') =
                       (trace w' ++ [Alert (errorEdit (TRANSLATIONS T (language (app s))))])%list))
  /\ (step (app (snd (handleEditImage T s))) = step (app s)
      /\ generatedImages (app (snd (handleEditImage T s))) = generatedImages (app s)
      /\ metadata (app (snd (handleEditImage T s))) = metadata (app s)
      /\ groundingData (app (snd (handleEditImage T s))) = groundingData (app s)
      /\ videoUrl (app (snd (handleEditImage T s))) = videoUrl (app s)
      /\ videoPrompt (app (snd (handleEditImage T s))) = videoPrompt (app s)
      /\ language (app (snd (handleEditImage T s))) = language (app s)).
Proof.
  destruct s as [a w]. simpl. unfold handleEditImage.
  rewrite (bind_fulfilled (gets app) _ {| app := a; world := w |} a
             {| app := a; world := w |} eq_refl).
  split; [|split].
  - intros [H | [H | H]]; rewrite ?H; try reflexivity.
    + destruct (coverImage a) as [image|]; [|reflexivity].
      simpl. rewrite orb_true_r. reflexivity.
  - intros image Hc Hi Hp. rewrite Hc.
    apply String.eqb_neq in Hi, Hp. rewrite Hi, Hp. simpl.
    unfold bind, try_finally, try_catch, setIsLoading, setStatusMessage, setCoverImage,
      setEditPrompt, alert, update, modify, liftW. simpl.
    split.
    + intros newImage w' H. rewrite H. simpl. eexists. repeat split.
    + intros e w' H. rewrite H. simpl. eexists. repeat split. exact Hc.
  - destruct (coverImage a) as [image|]; [|repeat split].
    destruct (String.eqb image EmptyString || String.eqb (editPrompt a) EmptyString);
      [repeat split|].
    unfold bind, try_finally, try_catch, setIsLoading, setStatusMessage, setCoverImage,
      setEditPrompt, alert, update, modify, liftW. simpl.
    destruct (editCoverImage image (editPrompt a) w) as [[newImage | e | ] w'];
      simpl; repeat split.
Qed.

End Editing.

(** C9, witness: a session with a cover and an instruction; the edit is
    denied, and the cover and the instruction stay. *)
Lemma handleEditImage_frame_witness :
  exists s',
    handleEditImage sample_tables (editing_session [Rejects denied]) = (Fulfilled tt, s')
    /\ coverImage (app s') = Some sample_image
    /\ editPrompt (app s') = "make the sky darker".
Proof.
  destruct (proj1 (proj2 (handleEditImage_frame sample_tables
                            (editing_session [Rejects denied])))
              sample_image eq_refl)
    as [_ Hfail]; [discriminate | discriminate |].
  destruct (Hfail denied
              (snd (editCoverImage sample_image "make the sky darker"
                      (sample_world [Rejects denied]))))
    as (s' & Hrun & Hc & Hp & _); [vm_compute; reflexivity|].
  exists s'. split; [exact Hrun|]. split; assumption.
Defined.

(* ===================================================================== *)
(** * Further properties of the adapter *)
(* ===================================================================== *)

(** ** Single images *)

Lemma first_inline_image_is_png ps image :
  first_inline_image ps = Some image -> exists d, image = png_prefix ++ d.
Proof.
  induction ps as [|part ps IH]; simpl; [discriminate|].
  destruct (inlineData part) as [d|]; [|exact IH].
  intros H. injection H as <-. eexists. reflexivity.
Qed.

Lemma png_prefix_is_png d : is_png_data_url (png_prefix ++ d) = true.
Proof. destruct d; vm_compute; reflexivity. Qed.

Lemma no_image_is_not_denied :
  is_permission_denied (Error "No image generated in this attempt") = false.
Proof. vm_compute. reflexivity. Qed.

Lemma host_not_ensureApiKey e : is_host e = true -> is_ensureApiKey e = false.
Proof. destruct e; simpl; congruence. Qed.


(** One attempt takes the next answer off the queue and makes of it
    what [image_outcome] says. *)
Lemma generateSingleImage_try_run prompt w r rest :
  generateContent_replies w = r :: rest ->
  generateSingleImage_try prompt w =
    (image_outcome r,
     set_generateContent_replies
       (set_trace w (trace w ++ [GenerateContent "gemini-3-pro-image-preview"
                                   [TextPart prompt]])) rest).
Proof.
  intros H. unfold generateSingleImage_try, ai_generateContent, bind, emit, modify,
    next_reply. simpl. rewrite H.
  destruct r as [response | e | ]; simpl; try reflexivity.
  destruct (first_inline_image (response_parts response)); reflexivity.
Qed.

(** Unless the answer is a rejection taken for a permission failure,
    the call is its one attempt. *)
Lemma generateSingleImage_plain prompt retry w r rest :
  has_API_KEY w = true ->
  generateContent_replies w = r :: rest ->
  retry && denied_rejection r = false ->
  generateSingleImage prompt retry w =
    (image_outcome r,
     set_generateContent_replies
       (set_trace w (trace w ++ [GenerateContent "gemini-3-pro-image-preview"
                                   [TextPart prompt]])) rest).
Proof.
  intros Hk Hq Hd. pose proof (generateSingleImage_try_run prompt _ _ _ Hq) as Htry.
  unfold generateSingleImage. rewrite (with_client _ _ Hk).
  unfold try_catch, generateSingleImage_catch. rewrite Htry.
  destruct r as [response | e | ]; simpl in *; try reflexivity.
  - destruct (first_inline_image (response_parts response)); [reflexivity|].
    rewrite no_image_is_not_denied, andb_false_r. reflexivity.
  - rewrite Hd. reflexivity.
Qed.

(** X1: a rejection of the image request that is not 403-classified
    (or any rejection when [retry] is false) is the rejection of
    [generateSingleImage]: the world has the one request in its trace
    and one answer less, so that [ensureApiKey] was not entered and
    nothing was retried. The request is one of a client that could be
    built. *)
Theorem generateSingleImage_other_failure_is_final prompt retry w e rest :
  has_API_KEY w = true ->
  generateContent_replies w = Rejects e :: rest ->
  retry && is_permission_denied e = false ->
  generateSingleImage prompt retry w =
    (Rejected e,
     set_generateContent_replies
       (set_trace w (trace w ++ [GenerateContent "gemini-3-pro-image-preview"
                                   [TextPart prompt]])) rest).
Proof.
  intros Hk Hq Hd.
  exact (generateSingleImage_plain prompt retry w (Rejects e) rest Hk Hq Hd).
Qed.

Lemma generateSingleImage_other_failure_is_final_witness :
  generateSingleImage sample_prompt true (sample_world [Rejects unavailable]) =
    (Rejected unavailable,
     set_generateContent_replies
       (set_trace (sample_world [Rejects unavailable])
          [GenerateContent "gemini-3-pro-image-preview" [TextPart sample_prompt]]) []).
Proof.
  apply (generateSingleImage_other_failure_is_final sample_prompt true
           (sample_world [Rejects unavailable]) unavailable []);
    vm_compute; reflexivity.
Defined.

(** X2: an answer without an inline image makes [generateSingleImage]
    reject with the error "No image generated in this attempt"; that
    error is not 403-classified, so even with [retry] true there is no
    re-authorization and no second request. The answer is one to a
    request of a client that could be built. *)
Theorem generateSingleImage_without_image prompt retry w response rest :
  has_API_KEY w = true ->
  generateContent_replies w = Resolves response :: rest ->
  first_inline_image (response_parts response) = None ->
  generateSingleImage prompt retry w =
    (Rejected (Error "No image generated in this attempt"),
     set_generateContent_replies
       (set_trace w (trace w ++ [GenerateContent "gemini-3-pro-image-preview"
                                   [TextPart prompt]])) rest).
Proof.
  intros Hk Hq Hn.
  rewrite (generateSingleImage_plain prompt retry w (Resolves response) rest Hk Hq
             (andb_false_r retry)).
  simpl. rewrite Hn. reflexivity.
Qed.

Lemma generateSingleImage_without_image_witness :
  generateSingleImage sample_prompt true
    (sample_world [Resolves (text_answer (Some "I cannot draw that."))]) =
    (Rejected (Error "No image generated in this attempt"),
     set_generateContent_replies
       (set_trace (sample_world [Resolves (text_answer (Some "I cannot draw that."))])
          [GenerateContent "gemini-3-pro-image-preview" [TextPart sample_prompt]]) []).
Proof.
  apply (generateSingleImage_without_image sample_prompt true
           (sample_world [Resolves (text_answer (Some "I cannot draw that."))])
           (text_answer (Some "I cannot draw that.")) []);
    reflexivity.
Defined.

(** Whatever a call is fulfilled with came out of one attempt: that of
    the inner call, that of the [catch] block, that of the whole. *)
Lemma generateSingleImage_last_fulfilled prompt w image w' :
  generateSingleImage_last prompt w = (Fulfilled image, w') ->
  exists w0, generateSingleImage_try prompt w0 = (Fulfilled image, w').
Proof.
  unfold generateSingleImage_last, bind, try_catch.
  destruct (getAI w) as [[[] | e | ] w0]; try discriminate.
  destruct (generateSingleImage_try prompt w0) as [[a | e | ] w1] eqn:E; intros H;
    try discriminate H.
  injection H as <- <-. eauto.
Qed.

Lemma generateSingleImage_catch_fulfilled prompt retry e w image w' :
  generateSingleImage_catch prompt retry e w = (Fulfilled image, w') ->
  exists w0, generateSingleImage_try prompt w0 = (Fulfilled image, w').
Proof.
  unfold generateSingleImage_catch. intros H.
  destruct (retry && is_permission_denied e); [|discriminate H].
  destruct (reauthorize "Permission denied, prompting for key selection again..." w)
    as (w2 & Hre & _).
  rewrite bind_assoc, (bind_fulfilled _ _ _ _ _ Hre) in H.
  exact (generateSingleImage_last_fulfilled _ _ _ _ H).
Qed.

Lemma generateSingleImage_fulfilled prompt retry w image w' :
  generateSingleImage prompt retry w = (Fulfilled image, w') ->
  exists w0, generateSingleImage_try prompt w0 = (Fulfilled image, w').
Proof.
  unfold generateSingleImage, bind, try_catch.
  destruct (getAI w) as [[[] | e | ] w0]; try discriminate.
  destruct (generateSingleImage_try prompt w0) as [[a | e | ] w1] eqn:E; intros H.
  - injection H as <- <-. eauto.
  - exact (generateSingleImage_catch_fulfilled _ _ _ _ _ _ H).
  - discriminate H.
Qed.

Lemma generateSingleImage_try_is_png prompt w image w' :
  generateSingleImage_try prompt w = (Fulfilled image, w') ->
  exists d, image = png_prefix ++ d.
Proof.
  unfold generateSingleImage_try, bind.
  destruct (ai_generateContent _ _ w) as [[response | e | ] w1]; try discriminate.
  destruct (first_inline_image (response_parts response)) as [img|] eqn:E;
    [|discriminate].
  intros H. injection H as <- _. exact (first_inline_image_is_png _ _ E).
Qed.

Lemma generateSingleImage_resume_is_png prompt retry answer w image w' :
  generateSingleImage_resume prompt retry answer w = (Fulfilled image, w') ->
  exists d, image = png_prefix ++ d.
Proof.
  unfold generateSingleImage_resume, try_catch, bind.
  destruct answer as [response | e | ]; simpl.
  - destruct (first_inline_image (response_parts response)) as [img|] eqn:E; simpl.
    + intros H. injection H as <- _. exact (first_inline_image_is_png _ _ E).
    + intros H. destruct (generateSingleImage_catch_fulfilled _ _ _ _ _ _ H) as (w0 & H0).
      exact (generateSingleImage_try_is_png _ _ _ _ H0).
  - intros H. destruct (generateSingleImage_catch_fulfilled _ _ _ _ _ _ H) as (w0 & H0).
    exact (generateSingleImage_try_is_png _ _ _ _ H0).
  - discriminate.
Qed.

Lemma editCoverImage_is_png imageBase64 instruction w image w' :
  editCoverImage imageBase64 instruction w = (Fulfilled image, w') ->
  exists d, image = png_prefix ++ d.
Proof.
  unfold editCoverImage, try_catch, bind.
  destruct (getAI w) as [[[] | e | ] w0]; try discriminate.
  destruct (ai_generateContent _ _ w0) as [[response | e | ] w1]; try discriminate.
  destruct (first_inline_image (response_parts response)) as [img|] eqn:E;
    [|discriminate].
  intros H. injection H as <- _. exact (first_inline_image_is_png _ _ E).
Qed.

Lemma generateCoverImages_are_png prompt w images w' :
  generateCoverImages prompt w = (Fulfilled images, w') ->
  Forall (fun image => exists d, image = png_prefix ++ d) images.
Proof.
  intros H.
  apply (generateCoverImages_fulfilled
           (fun image => exists d, image = png_prefix ++ d) _ _ _ _
           (generateSingleImage_resume_is_png prompt true) H).
Qed.

(** X3: every image the adapter returns is a PNG data URL: what
    [generateSingleImage] and [editCoverImage] are fulfilled with, and
    each image of a batch of [generateCoverImages], starts with
    [data:image/png;base64,], whatever MIME type the service gave. *)
Theorem adapter_images_are_png_data_urls :
  (forall prompt retry w image w',
      generateSingleImage prompt retry w = (Fulfilled image, w') ->
      is_png_data_url image = true)
  /\ (forall imageBase64 instruction w image w',
         editCoverImage imageBase64 instruction w = (Fulfilled image, w') ->
         is_png_data_url image = true)
  /\ (forall prompt w images w',
         generateCoverImages prompt w = (Fulfilled images, w') ->
         Forall (fun image => is_png_data_url image = true) images).
Proof.
  split; [|split].
  - intros prompt retry w image w' H.
    destruct (generateSingleImage_fulfilled _ _ _ _ _ H) as (w0 & H0).
    destruct (generateSingleImage_try_is_png _ _ _ _ H0) as (d & ->).
    apply png_prefix_is_png.
  - intros imageBase64 instruction w image w' H.
    destruct (editCoverImage_is_png _ _ _ _ _ H) as (d & ->). apply png_prefix_is_png.
  - intros prompt w images w' H.
    eapply Forall_impl; [apply (generateCoverImages_are_png _ _ _ _ H)|].
    intros image (d & ->). apply png_prefix_is_png.
Qed.

Lemma adapter_images_are_png_data_urls_witness :
  is_png_data_url "data:image/png;base64,AAAA" = true.
Proof.
  apply (proj1 adapter_images_are_png_data_urls sample_prompt true
           (sample_world [Resolves (image_answer "AAAA")])
           "data:image/png;base64,AAAA"
           (snd (generateSingleImage sample_prompt true
                   (sample_world [Resolves (image_answer "AAAA")])))).
  vm_compute. reflexivity.
Defined.

(** ** Batches of three images *)

Arguments generateSingleImage : simpl never.

(** A call that is started sends its request and holds the answer the
    request will get. *)
Lemma generateSingleImage_start_run prompt w r rest :
  has_API_KEY w = true ->
  generateContent_replies w = r :: rest ->
  generateSingleImage_start prompt w =
    (Fulfilled r,
     set_generateContent_replies
       (set_trace w (trace w ++ [GenerateContent "gemini-3-pro-image-preview"
                                   [TextPart prompt]])) rest).
Proof.
  intros Hk Hq. unfold generateSingleImage_start. rewrite (with_client _ _ Hk).
  unfold bind, emit, modify, take_reply. simpl. rewrite Hq. reflexivity.
Qed.

(** From an answer that is no rejection taken for a permission
    failure, a call ends at once, as [image_outcome] says. *)
Lemma generateSingleImage_resume_plain prompt retry r w :
  retry && denied_rejection r = false ->
  generateSingleImage_resume prompt retry r w = (image_outcome r, w).
Proof.
  intros Hd. unfold generateSingleImage_resume, try_catch, generateSingleImage_catch, bind.
  destruct r as [response | e | ]; simpl in *; try reflexivity.
  - destruct (first_inline_image (response_parts response)); simpl; [reflexivity|].
    rewrite no_image_is_not_denied, andb_false_r. reflexivity.
  - rewrite Hd. reflexivity.
Qed.

(** Cutting a list of outcomes after its first rejection does not
    change how [Promise.all] settles on it. *)
Lemma settle_all_cut {A} (r : Outcome A) rs rs' :
  (match r with Rejected _ => True | _ => settle_all rs' = settle_all rs end) ->
  settle_all (match r with Rejected e => [Rejected e] | _ => r :: rs' end)
  = settle_all (r :: rs).
Proof.
  unfold settle_all. destruct r as [a | e | ]; simpl; [| reflexivity |];
    destruct (first_rejection rs'), (first_rejection rs), (all_fulfilled rs'),
      (all_fulfilled rs); intros H; try reflexivity; try discriminate H;
      try (injection H as ->; reflexivity); congruence.
Qed.

Lemma resume_all_plain prompt rs w :
  forallb (fun r => negb (denied_rejection r)) rs = true ->
  settle_all (fst (resume_all (generateSingleImage_resume prompt true)
                     (map Fulfilled rs) w))
  = settle_all (map image_outcome rs)
  /\ snd (resume_all (generateSingleImage_resume prompt true) (map Fulfilled rs) w) = w.
Proof.
  induction rs as [|r rs IH]; simpl; [split; reflexivity|].
  intros H. apply andb_true_iff in H as [Hr Hrs]. apply negb_true_iff in Hr.
  rewrite (generateSingleImage_resume_plain prompt true r w Hr).
  destruct (IH Hrs) as [IH1 IH2].
  destruct (resume_all (generateSingleImage_resume prompt true) (map Fulfilled rs) w)
    as [os w1]. simpl in IH1, IH2. subst w1.
  pose proof (settle_all_cut (image_outcome r) (map image_outcome rs) os) as Hcut.
  destruct (image_outcome r) as [a | e | ]; simpl in *; split; auto.
Qed.

(** [generateCoverImages] when none of the three answers is taken for
    a permission failure. *)
Lemma generateCoverImages_plain prompt w r1 r2 r3 rest :
  has_API_KEY w = true ->
  generateContent_replies w = r1 :: r2 :: r3 :: rest ->
  denied_rejection r1 = false ->
  denied_rejection r2 = false ->
  denied_rejection r3 = false ->
  exists w3,
    generateContent_replies w3 = rest
    /\ generateCoverImages prompt w =
         match settle_all [image_outcome r1; image_outcome r2; image_outcome r3] with
         | Rejected e =>
           (Rejected e,
            set_trace w3 (trace w3 ++ [ConsoleError (Some "Image generation failed") (Some e)]))
         | r => (r, w3)
         end.
Proof.
  intros Hk Hq Hd1 Hd2 Hd3.
  destruct (ensureApiKey_completes false w) as (w0 & Hens & _ & Hs0).
  assert (Hk0 : has_API_KEY w0 = true) by (rewrite (same_service_key _ _ Hs0); exact Hk).
  assert (Hq0 : generateContent_replies w0 = r1 :: r2 :: r3 :: rest).
  { destruct Hs0 as (_ & _ & -> & _). exact Hq. }
  unfold generateCoverImages. rewrite (bind_fulfilled _ _ _ _ _ Hens).
  unfold try_catch, bind at 1, start_all. simpl map. simpl run_all.
  rewrite (generateSingleImage_start_run prompt w0 r1 _ Hk0 Hq0).
  match goal with
  | |- context [generateSingleImage_start prompt ?w1] =>
    rewrite (generateSingleImage_start_run prompt w1 r2 (r3 :: rest) Hk0 eq_refl)
  end.
  match goal with
  | |- context [generateSingleImage_start prompt ?w2] =>
    rewrite (generateSingleImage_start_run prompt w2 r3 rest Hk0 eq_refl)
  end.
  unfold Promise_all. simpl first_rejection. cbv iota.
  match goal with
  | |- context [resume_all ?f [Fulfilled r1; Fulfilled r2; Fulfilled r3] ?w3] =>
    destruct (resume_all_plain prompt [r1; r2; r3] w3) as [Hs Hw];
      [simpl; rewrite Hd1, Hd2, Hd3; reflexivity|];
      simpl map in Hs, Hw;
      destruct (resume_all f [Fulfilled r1; Fulfilled r2; Fulfilled r3] w3) as [os w4];
      simpl in Hs, Hw; subst w4; exists w3
  end.
  split; [reflexivity|]. rewrite Hs.
  destruct (settle_all [image_outcome r1; image_outcome r2; image_outcome r3]);
    reflexivity.
Qed.

(** What a call adds from its answer on: nothing, or one forced
    re-authorization followed by one request. *)
Lemma generateSingleImage_resume_counts prompt answer w r w' :
  has_API_KEY w = true ->
  generateSingleImage_resume prompt true answer w = (r, w') ->
  has_API_KEY w' = true
  /\ exists n,
       n <= 1
       /\ count_events is_generateContent (trace w')
          = count_events is_generateContent (trace w) + n
       /\ count_events is_reauthorization (trace w')
          = count_events is_reauthorization (trace w) + n
       /\ count_events is_ensureApiKey (trace w')
          = count_events is_ensureApiKey (trace w) + n.
Proof.
  intros Hk. unfold generateSingleImage_resume, try_catch, bind.
  assert (Hcatch : forall e,
             generateSingleImage_catch prompt true e w = (r, w') ->
             has_API_KEY w' = true
             /\ exists n,
                  n <= 1
                  /\ count_events is_generateContent (trace w')
                     = count_events is_generateContent (trace w) + n
                  /\ count_events is_reauthorization (trace w')
                     = count_events is_reauthorization (trace w) + n
                  /\ count_events is_ensureApiKey (trace w')
                     = count_events is_ensureApiKey (trace w) + n).
  { intros e. unfold generateSingleImage_catch. simpl.
    destruct (is_permission_denied e).
    - destruct (reauthorize "Permission denied, prompting for key selection again..." w)
        as (w2 & Hre & Ht2 & Hs2).
      assert (Hk2 : has_API_KEY w2 = true)
        by (rewrite (same_service_key _ _ Hs2); exact Hk).
      rewrite bind_assoc, (bind_fulfilled _ _ _ _ _ Hre).
      unfold generateSingleImage_last. rewrite (with_client _ _ Hk2). unfold try_catch.
      destruct (generateSingleImage_try prompt w2) as [r3 w3] eqn:E.
      pose proof (generateSingleImage_try_trace _ _ _ _ E) as Ht3.
      pose proof (keeps_key_has _ _ _ _ (keeps_key_generateSingleImage_try prompt) E) as Hk3.
      intros H.
      assert (Hw : w' = w3) by (destruct r3; injection H as _ <-; reflexivity).
      subst w'. split; [rewrite Hk3; exact Hk2|].
      exists 1. split; [lia|]. rewrite Ht3, Ht2. count_trace.
      rewrite (count_host_calls _ _ _ host_not_generateContent),
              (count_host_calls _ _ _ host_not_reauthorization),
              (count_host_calls _ _ _ host_not_ensureApiKey).
      repeat split; lia.
    - intros H. injection H as _ <-. split; [exact Hk|].
      exists 0. repeat split; lia. }
  destruct answer as [response | e | ]; simpl.
  - destruct (first_inline_image (response_parts response)); simpl.
    + intros H. injection H as _ <-. split; [exact Hk|]. exists 0. repeat split; lia.
    + apply Hcatch.
  - apply Hcatch.
  - intros H. injection H as _ <-. split; [exact Hk|]. exists 0. repeat split; lia.
Qed.

Lemma resume_all_counts prompt promises w :
  has_API_KEY w = true ->
  exists n,
    n <= length promises
    /\ count_events is_generateContent
         (trace (snd (resume_all (generateSingleImage_resume prompt true) promises w)))
       = count_events is_generateContent (trace w) + n
    /\ count_events is_reauthorization
         (trace (snd (resume_all (generateSingleImage_resume prompt true) promises w)))
       = count_events is_reauthorization (trace w) + n
    /\ count_events is_ensureApiKey
         (trace (snd (resume_all (generateSingleImage_resume prompt true) promises w)))
       = count_events is_ensureApiKey (trace w) + n.
Proof.
  revert w. induction promises as [|promise promises IH]; intros w Hk; simpl.
  - exists 0. repeat split; lia.
  - assert (Hstep : exists r w1,
               match promise with
               | Fulfilled a => generateSingleImage_resume prompt true a w
               | Rejected e => (Rejected e, w)
               | Pending => (Pending, w)
               end = (r, w1)
               /\ has_API_KEY w1 = true
               /\ exists n,
                    n <= 1
                    /\ count_events is_generateContent (trace w1)
                       = count_events is_generateContent (trace w) + n
                    /\ count_events is_reauthorization (trace w1)
                       = count_events is_reauthorization (trace w) + n
                    /\ count_events is_ensureApiKey (trace w1)
                       = count_events is_ensureApiKey (trace w) + n).
    { destruct promise as [a | e | ].
      - destruct (generateSingleImage_resume prompt true a w) as [r w1] eqn:E.
        exists r, w1. split; [reflexivity|].
        exact (generateSingleImage_resume_counts _ _ _ _ _ Hk E).
      - do 2 eexists. split; [reflexivity|]. split; [exact Hk|].
        exists 0. repeat split; lia.
      - do 2 eexists. split; [reflexivity|]. split; [exact Hk|].
        exists 0. repeat split; lia. }
    destruct Hstep as (r & w1 & -> & Hk1 & n1 & Hn1 & Hg1 & Hr1 & He1).
    destruct (IH w1 Hk1) as (n2 & Hn2 & Hg2 & Hr2 & He2).
    destruct (resume_all (generateSingleImage_resume prompt true) promises w1)
      as [rs w2]. simpl in *.
    destruct r as [b | e | ]; simpl.
    + exists (n1 + n2). repeat split; lia.
    + exists n1. repeat split; lia.
    + exists (n1 + n2). repeat split; lia.
Qed.

(** A call that is started has sent its request. *)
Lemma generateSingleImage_start_counts prompt w :
  has_API_KEY w = true ->
  exists r w',
    generateSingleImage_start prompt w = (Fulfilled r, w')
    /\ has_API_KEY w' = true
    /\ trace w' = (trace w ++ [GenerateContent "gemini-3-pro-image-preview"
                                  [TextPart prompt]])%list.
Proof.
  intros Hk. unfold generateSingleImage_start. rewrite (with_client _ _ Hk).
  unfold bind, emit, modify, take_reply. simpl.
  destruct (generateContent_replies w) as [|r q]; do 2 eexists;
    (split; [reflexivity|]); split; solve [exact Hk | reflexivity].
Qed.

(** X4: with [process.env.API_KEY] set, a batch of
    [generateCoverImages] enters [ensureApiKey] unforced once and sends
    its three image requests; beyond that it re-authorizes at most
    three times, by force, once for a call that was denied, and sends
    at most one more request for each re-authorization: never more
    than six requests. *)
Theorem generateCoverImages_request_bounds prompt w :
  has_API_KEY w = true ->
  exists n m,
    n <= m /\ m <= 3
    /\ count_events is_generateContent (trace (snd (generateCoverImages prompt w)))
       = count_events is_generateContent (trace w) + 3 + n
    /\ count_events is_reauthorization (trace (snd (generateCoverImages prompt w)))
       = count_events is_reauthorization (trace w) + m
    /\ count_events is_ensureApiKey (trace (snd (generateCoverImages prompt w)))
       = count_events is_ensureApiKey (trace w) + 1 + m.
Proof.
  intros Hk.
  destruct (ensureApiKey_completes false w) as (w0 & Hens & Ht0 & Hs0).
  assert (Hk0 : has_API_KEY w0 = true) by (rewrite (same_service_key _ _ Hs0); exact Hk).
  destruct (generateSingleImage_start_counts prompt w0 Hk0) as (r1 & w1 & H1 & Hk1 & Ht1).
  destruct (generateSingleImage_start_counts prompt w1 Hk1) as (r2 & w2 & H2 & Hk2 & Ht2).
  destruct (generateSingleImage_start_counts prompt w2 Hk2) as (r3 & w3 & H3 & Hk3 & Ht3).
  destruct (resume_all_counts prompt [Fulfilled r1; Fulfilled r2; Fulfilled r3] w3 Hk3)
    as (n & Hn & Hg & Hr & He).
  assert (Hrun : generateCoverImages prompt w =
            let (os, w4) := resume_all (generateSingleImage_resume prompt true)
                              [Fulfilled r1; Fulfilled r2; Fulfilled r3] w3 in
            match settle_all os with
            | Rejected e =>
              (Rejected e,
               set_trace w4 (trace w4 ++ [ConsoleError (Some "Image generation failed")
                                            (Some e)]))
            | r => (r, w4)
            end).
  { unfold generateCoverImages. rewrite (bind_fulfilled _ _ _ _ _ Hens).
    unfold try_catch, bind at 1, start_all. simpl map. simpl run_all.
    rewrite H1, H2, H3. unfold Promise_all. simpl first_rejection. cbv iota.
    destruct (resume_all (generateSingleImage_resume prompt true)
                [Fulfilled r1; Fulfilled r2; Fulfilled r3] w3) as [os w4].
    destruct (settle_all os); reflexivity. }
  rewrite Hrun.
  destruct (resume_all (generateSingleImage_resume prompt true)
              [Fulfilled r1; Fulfilled r2; Fulfilled r3] w3) as [os w4].
  simpl in Hn, Hg, Hr, He.
  assert (Hg0 : count_events is_generateContent (trace w3)
                = count_events is_generateContent (trace w) + 3).
  { rewrite Ht3, Ht2, Ht1, Ht0. count_trace.
    rewrite (count_host_calls _ _ _ host_not_generateContent). lia. }
  assert (Hr0 : count_events is_reauthorization (trace w3)
                = count_events is_reauthorization (trace w)).
  { rewrite Ht3, Ht2, Ht1, Ht0. count_trace.
    rewrite (count_host_calls _ _ _ host_not_reauthorization). lia. }
  assert (He0 : count_events is_ensureApiKey (trace w3)
                = count_events is_ensureApiKey (trace w) + 1).
  { rewrite Ht3, Ht2, Ht1, Ht0. count_trace.
    rewrite (count_host_calls _ _ _ host_not_ensureApiKey). lia. }
  exists n, n. split; [lia|]. split; [exact Hn|].
  destruct (settle_all os); simpl; count_trace; repeat split; lia.
Qed.

Lemma generateCoverImages_request_bounds_witness :
  exists n m,
    n <= m /\ m <= 3
    /\ count_events is_generateContent
         (trace (snd (generateCoverImages sample_prompt
                        (sample_world [Rejects denied; Rejects unavailable]))))
       = 3 + n.
Proof.
  destruct (generateCoverImages_request_bounds sample_prompt
              (sample_world [Rejects denied; Rejects unavailable]) eq_refl)
    as (n & m & Hnm & Hm & Hg & _).
  exists n, m. split; [exact Hnm|]. split; [exact Hm | exact Hg].
Defined.

(** X5: when none of the three answers is a rejection taken for a
    permission failure, [generateCoverImages] consumes all three, each
    by its own call, and settles as [Promise.all] over what the calls
    made of them: it is fulfilled with the three images in the order of
    the calls when all three carry an image, and rejected as soon as
    one of them is a rejection or carries no image, whatever the other
    two brought. The three requests are those of clients that could be
    built. *)
Theorem generateCoverImages_settles_together prompt w r1 r2 r3 rest :
  has_API_KEY w = true ->
  generateContent_replies w = r1 :: r2 :: r3 :: rest ->
  denied_rejection r1 = false ->
  denied_rejection r2 = false ->
  denied_rejection r3 = false ->
  exists w',
    generateCoverImages prompt w
    = (settle_all [image_outcome r1; image_outcome r2; image_outcome r3], w')
    /\ generateContent_replies w' = rest
    /\ (forall i1 i2 i3,
           image_outcome r1 = Fulfilled i1 ->
           image_outcome r2 = Fulfilled i2 ->
           image_outcome r3 = Fulfilled i3 ->
           fst (generateCoverImages prompt w) = Fulfilled [i1; i2; i3])
    /\ (forall e,
           image_outcome r1 = Rejected e \/ image_outcome r2 = Rejected e
           \/ image_outcome r3 = Rejected e ->
           exists e', fst (generateCoverImages prompt w) = Rejected e').
Proof.
  intros Hk Hq Hd1 Hd2 Hd3.
  destruct (generateCoverImages_plain prompt w r1 r2 r3 rest Hk Hq Hd1 Hd2 Hd3)
    as (w3 & Hq3 & Hrun).
  assert (Hout : exists w',
             generateCoverImages prompt w
             = (settle_all [image_outcome r1; image_outcome r2; image_outcome r3], w')
             /\ generateContent_replies w' = rest).
  { rewrite Hrun.
    destruct (settle_all [image_outcome r1; image_outcome r2; image_outcome r3]);
      eexists; (split; [reflexivity | exact Hq3]). }
  destruct Hout as (w' & Hout & Hrest). exists w'.
  split; [exact Hout|]. split; [exact Hrest|]. rewrite Hout. simpl. split.
  - intros i1 i2 i3 -> -> ->. reflexivity.
  - intros e. unfold settle_all.
    destruct (image_outcome r1) as [a1 | e1 | ]; simpl; eauto;
      destruct (image_outcome r2) as [a2 | e2 | ]; simpl; eauto;
        destruct (image_outcome r3) as [a3 | e3 | ]; simpl; eauto;
          intros [H | [H | H]]; discriminate H.
Qed.

Lemma generateCoverImages_settles_together_witness :
  exists e',
    fst (generateCoverImages sample_prompt
           (sample_world [Resolves (image_answer "AAAA"); Rejects unavailable;
                          Resolves (image_answer "CCCC")]))
    = Rejected e'.
Proof.
  destruct (generateCoverImages_settles_together sample_prompt
              (sample_world [Resolves (image_answer "AAAA"); Rejects unavailable;
                             Resolves (image_answer "CCCC")])
              (Resolves (image_answer "AAAA")) (Rejects unavailable)
              (Resolves (image_answer "CCCC")) [] eq_refl eq_refl eq_refl eq_refl eq_refl)
    as (w' & _ & _ & _ & Hrej).
  apply (Hrej unavailable). right. left. reflexivity.
Defined.

(** ** Image editing *)

Lemma prefix_empty s : String.prefix EmptyString s = true.
Proof. destruct s; reflexivity. Qed.

Lemma includes_comma_step c s :
  includes (String c s) "," = false ->
  Ascii.eqb c "," = false /\ includes s "," = false.
Proof.
  change (includes (String c s) ",")
    with (if (if ascii_dec "," c then String.prefix EmptyString s else false)
          then true else includes s ",").
  destruct (ascii_dec "," c) as [<- | Hne].
  - rewrite prefix_empty. discriminate.
  - intros H. split; [|exact H]. apply Ascii.eqb_neq. congruence.
Qed.

Lemma until_comma_no_comma d : includes d "," = false -> until_comma d = d.
Proof.
  induction d as [|c d IH]; [reflexivity|]. intros H.
  apply includes_comma_step in H as [Hc Hd]. simpl. rewrite Hc, (IH Hd). reflexivity.
Qed.

Lemma split_comma_1_no_comma s : includes s "," = false -> split_comma_1 s = None.
Proof.
  induction s as [|c s IH]; [reflexivity|]. intros H.
  apply includes_comma_step in H as [Hc Hs]. simpl. rewrite Hc. exact (IH Hs).
Qed.

(** The bytes cut out of a PNG data URL are its payload. *)
Lemma split_comma_1_png d :
  includes d "," = false -> split_comma_1 (png_prefix ++ d) = Some d.
Proof.
  intros H. change (split_comma_1 (png_prefix ++ d)) with (Some (until_comma d)).
  rewrite (until_comma_no_comma d H). reflexivity.
Qed.

(** The first thing [editCoverImage] does with its client is to send
    its request. *)
Lemma editCoverImage_trace imageBase64 instruction w :
  has_API_KEY w = true ->
  exists later,
    trace (snd (editCoverImage imageBase64 instruction w)) =
      (trace w ++ GenerateContent "gemini-2.5-flash-image"
                    [InlinePart "image/png" (split_comma_1 imageBase64);
                     TextPart (lit instruction)] :: later)%list.
Proof.
  intros Hk. unfold editCoverImage. rewrite (with_client _ _ Hk).
  unfold ai_generateContent, try_catch, bind, emit, modify, next_reply.
  simpl. destruct (generateContent_replies w) as [|[response | e | ] q]; simpl.
  - exists []. reflexivity.
  - destruct (first_inline_image (response_parts response)); simpl;
      eexists; rewrite <- ?app_assoc; reflexivity.
  - eexists. rewrite <- app_assoc. reflexivity.
  - exists []. reflexivity.
Qed.

(** X6: the image bytes of an edit request are the payload of the data
    URL it is given: for an image [data:image/png;base64,d], as the
    adapter returns them, with no comma in [d] (base64 has none), the
    request carries exactly [d]; and for a string without any comma it
    carries undefined bytes, and is sent all the same. The request is
    one of a client that could be built. *)
Theorem editCoverImage_sends_payload instruction w :
  has_API_KEY w = true ->
  (forall d,
      includes d "," = false ->
      exists later,
        trace (snd (editCoverImage (png_prefix ++ d) instruction w)) =
          (trace w ++ GenerateContent "gemini-2.5-flash-image"
                        [InlinePart "image/png" (Some d); TextPart (lit instruction)]
                      :: later)%list)
  /\ (forall imageBase64,
         includes imageBase64 "," = false ->
         exists later,
           trace (snd (editCoverImage imageBase64 instruction w)) =
             (trace w ++ GenerateContent "gemini-2.5-flash-image"
                           [InlinePart "image/png" None; TextPart (lit instruction)]
                         :: later)%list).
Proof.
  intros Hk. split.
  - intros d Hd. destruct (editCoverImage_trace (png_prefix ++ d) instruction w Hk)
      as (later & Ht).
    exists later. rewrite Ht, (split_comma_1_png d Hd). reflexivity.
  - intros imageBase64 Hn. destruct (editCoverImage_trace imageBase64 instruction w Hk)
      as (later & Ht).
    exists later. rewrite Ht, (split_comma_1_no_comma _ Hn). reflexivity.
Qed.

Lemma editCoverImage_sends_payload_witness :
  exists later,
    trace (snd (editCoverImage (png_prefix ++ "AAAA") "make it blue"
                  (sample_world [Resolves (image_answer "BBBB")]))) =
      ([] ++ GenerateContent "gemini-2.5-flash-image"
               [InlinePart "image/png" (Some "AAAA"); TextPart (lit "make it blue")]
             :: later)%list.
Proof.
  apply (proj1 (editCoverImage_sends_payload "make it blue"
                  (sample_world [Resolves (image_answer "BBBB")]) eq_refl) "AAAA").
  vm_compute. reflexivity.
Defined.

(** X7: on an answer with an inline image [editCoverImage] is fulfilled
    with the first one, as a PNG data URL, and logs nothing; on an
    answer without one it logs and rejects with the error "No edited
    image returned". Either way one answer is consumed. The answer is
    one to a request of a client that could be built. *)
Theorem editCoverImage_on_answer imageBase64 instruction w response rest :
  has_API_KEY w = true ->
  generateContent_replies w = Resolves response :: rest ->
  let sent :=
    set_generateContent_replies
      (set_trace w (trace w ++ [GenerateContent "gemini-2.5-flash-image"
                                  [InlinePart "image/png" (split_comma_1 imageBase64);
                                   TextPart (lit instruction)]])) rest in
  (forall image,
      first_inline_image (response_parts response) = Some image ->
      editCoverImage imageBase64 instruction w = (Fulfilled image, sent))
  /\ (first_inline_image (response_parts response) = None ->
      editCoverImage imageBase64 instruction w =
        (Rejected (Error "No edited image returned"),
         set_trace sent
           (trace sent ++ [ConsoleError (Some "Image editing failed")
                             (Some (Error "No edited image returned"))]))).
Proof.
  intros Hk Hq sent.
  assert (Hrun : editCoverImage imageBase64 instruction w =
            match first_inline_image (response_parts response) with
            | Some image => (Fulfilled image, sent)
            | None =>
              (Rejected (Error "No edited image returned"),
               set_trace sent
                 (trace sent ++ [ConsoleError (Some "Image editing failed")
                                   (Some (Error "No edited image returned"))]))
            end).
  { unfold editCoverImage. rewrite (with_client _ _ Hk). unfold try_catch.
    rewrite (bind_fulfilled _ _ _ _ _ (ai_generateContent_resolves _ _ _ _ _ Hq)).
    fold sent. destruct (first_inline_image (response_parts response)); reflexivity. }
  rewrite Hrun. split.
  - intros image ->. reflexivity.
  - intros ->. reflexivity.
Qed.

Lemma editCoverImage_on_answer_witness :
  fst (editCoverImage sample_image "make it blue"
         (sample_world [Resolves (image_answer "BBBB")]))
  = Fulfilled "data:image/png;base64,BBBB".
Proof.
  rewrite (proj1 (editCoverImage_on_answer sample_image "make it blue"
                    (sample_world [Resolves (image_answer "BBBB")])
                    (image_answer "BBBB") [] eq_refl eq_refl)
             "data:image/png;base64,BBBB" eq_refl).
  reflexivity.
Defined.

(** ** The guard on incomplete surfaces *)

(** X8: [ensureApiKey] tests each operation of the host surface before
    calling it. On a surface without [openSelectKey] no dialog is
    opened, even when the call is forced. On a surface that has
    [openSelectKey] but not [hasSelectedApiKey] the question is not
    asked and the dialog is opened on every call, forced or not, key
    selected or not. In no case does the guard send anything to the
    remote service. *)
Theorem ensureApiKey_on_incomplete_surface force w studio :
  aistudio w = Some studio ->
  (has_openSelectKey studio = false ->
   count_events is_dialog (trace (snd (ensureApiKey force w)))
   = count_events is_dialog (trace w))
  /\ (has_openSelectKey studio = true ->
      has_hasSelectedApiKey studio = false ->
      count_events is_dialog (trace (snd (ensureApiKey force w)))
      = count_events is_dialog (trace w) + 1
      /\ count_events is_hasSelectedApiKey (trace (snd (ensureApiKey force w)))
         = count_events is_hasSelectedApiKey (trace w))
  /\ count_events is_remote (trace (snd (ensureApiKey force w)))
     = count_events is_remote (trace w).
Proof.
  intros Ha. destruct (ensureApiKey_completes force w) as (w' & Hrun & Ht & _).
  rewrite Hrun. simpl. rewrite Ht. unfold ensureApiKey_host_calls. rewrite Ha.
  destruct studio as [has open]. simpl.
  split; [|split].
  - intros ->. destruct has; count_trace; lia.
  - intros -> ->. rewrite orb_true_r. count_trace. split; lia.
  - destruct has, open, force, (no_key_selected w); count_trace; lia.
Qed.

Lemma ensureApiKey_on_incomplete_surface_witness :
  count_events is_dialog (trace (snd (ensureApiKey false unquestionable_world)))
  = count_events is_dialog (trace unquestionable_world) + 1.
Proof.
  destruct (ensureApiKey_on_incomplete_surface false unquestionable_world
              {| has_hasSelectedApiKey := false; has_openSelectKey := true |} eq_refl)
    as (_ & Hopen & _).
  destruct (Hopen eq_refl eq_refl) as [Hd _]. exact Hd.
Defined.

(** ** The two text calls *)

Section TextCalls.

Variable T : Tables.
Variables category topic targetMarket marketplaceId author : option JsVal.
Variable language : Language.

(** X9: a rejection of the remote call makes [generateBookText] reject
    with the same error: its [await] stands before the [try], so the
    placeholder is not returned and nothing is logged; the trace gains
    the one request. The remote call is made by a client that could be
    built. *)
Theorem generateBookText_propagates_rejection w e rest :
  has_API_KEY w = true ->
  generateContent_replies w = Rejects e :: rest ->
  generateBookText T topic category author language w =
    (Rejected e,
     set_generateContent_replies
       (set_trace w (trace w ++ [GenerateContent "gemini-3-flash-preview"
          [TextPart (generateBookText_prompt topic category author
                       (langLabel_of T language))]])) rest).
Proof.
  intros Hk H. unfold generateBookText. rewrite (with_client _ _ Hk).
  rewrite (bind_rejected _ _ _ _ _ (ai_generateContent_rejects _ _ _ _ _ H)).
  reflexivity.
Qed.

(** X10: on an answer whose text is absent or empty [researchTrends]
    parses its substitute text and returns, without logging, the trends
    "Analysis complete.", no references, and the sources of the
    answer's grounding metadata: not the fallback of the failure case.
    The answer is one to a request of a client that could be built. *)
Theorem researchTrends_on_empty_answer w response rest :
  has_API_KEY w = true ->
  generateContent_replies w = Resolves response :: rest ->
  text response = None \/ text response = Some EmptyString ->
  exists w',
    researchTrends T category topic targetMarket marketplaceId language w =
      (Fulfilled {| trends := JString "Analysis complete.";
                    references := JArray [];
                    sources := grounding_sources response |}, w')
    /\ count_events is_console_error (trace w') = count_events is_console_error (trace w)
    /\ JString "Analysis complete." <> trends research_fallback.
Proof.
  intros Hk Hq Ht.
  assert (Htry : exists w1,
             researchTrends_try T category topic targetMarket marketplaceId language w =
               (Fulfilled {| trends := JString "Analysis complete.";
                             references := JArray [];
                             sources := grounding_sources response |}, w1)
             /\ trace w1 = (trace w ++ [GenerateContent "gemini-3-flash-preview"
                   [TextPart (researchTrends_prompt
                      (if truthy_opt targetMarket then [Splice targetMarket]
                       else [Splice category; Lit " books"])
                      (marketplaceName_of T marketplaceId) topic
                      (langLabel_of T language))]])%list).
  { unfold researchTrends_try.
    rewrite (bind_fulfilled _ _ _ _ _ (ai_generateContent_resolves _ _ _ _ _ Hq)).
    rewrite (string_or_absent _ _ Ht). unfold parse_json.
    replace (JSON_parse research_default_text)
      with (Some (JObject (<["trends" := JString EmptyString]>
                             (<["references" := JArray []]> ∅))))
      by (vm_compute; reflexivity).
    eexists. split; reflexivity. }
  destruct Htry as (w1 & Htry & Ht1).
  exists w1. unfold researchTrends.
  rewrite (with_client _ _ Hk), (try_catch_fulfilled _ _ _ _ _ Htry).
  split; [reflexivity|]. split; [|discriminate].
  rewrite Ht1. count_trace. lia.
Qed.

(** How the [try] block of [researchTrends] writes to the trace: its
    request and nothing else. *)
Lemma researchTrends_try_trace w r w' :
  researchTrends_try T category topic targetMarket marketplaceId language w = (r, w') ->
  exists model contents,
    trace w' = (trace w ++ [GenerateContent model contents])%list.
Proof.
  unfold researchTrends_try, ai_generateContent, bind, emit, modify, next_reply,
    parse_json, read_property.
  simpl. destruct (generateContent_replies w) as [|[response | e | ] q]; simpl;
    try (intros H; injection H as _ <-; do 2 eexists; reflexivity).
  destruct (JSON_parse _) as [data|]; simpl;
    [destruct data; simpl|];
    intros H; injection H as _ <-; do 2 eexists; reflexivity.
Qed.

(** X11: research and text generation run without the key guard: in
    no world does [researchTrends] or [generateBookText] enter
    [ensureApiKey] or open the key-selection dialog, and in a world
    where [process.env.API_KEY] is set each of them sends exactly one
    request. *)
Theorem text_calls_skip_the_guard w :
  (has_API_KEY w = true ->
   count_events is_generateContent
     (trace (snd (researchTrends T category topic targetMarket marketplaceId language w)))
   = count_events is_generateContent (trace w) + 1
   /\ count_events is_generateContent
        (trace (snd (generateBookText T topic category author language w)))
      = count_events is_generateContent (trace w) + 1)
  /\ (count_events is_ensureApiKey
        (trace (snd (researchTrends T category topic targetMarket marketplaceId language w)))
      = count_events is_ensureApiKey (trace w)
      /\ count_events is_dialog
           (trace (snd (researchTrends T category topic targetMarket marketplaceId
                          language w)))
         = count_events is_dialog (trace w)
      /\ count_events is_ensureApiKey
           (trace (snd (generateBookText T topic category author language w)))
         = count_events is_ensureApiKey (trace w)
      /\ count_events is_dialog
           (trace (snd (generateBookText T topic category author language w)))
         = count_events is_dialog (trace w)).
Proof.
  assert (Hr : forall w0,
             has_API_KEY w0 = true ->
             exists model contents,
               trace (snd (researchTrends T category topic targetMarket marketplaceId
                             language w0))
               = (trace w0 ++ GenerateContent model contents
                    :: match fst (researchTrends_try T category topic targetMarket
                                    marketplaceId language w0) with
                       | Rejected e => [ConsoleError (Some "Trend research failed") (Some e)]
                       | _ => []
                       end)%list).
  { intros w0 Hk. unfold researchTrends. rewrite (with_client _ _ Hk). unfold try_catch.
    destruct (researchTrends_try T category topic targetMarket marketplaceId language w0)
      as [[g | e | ] w1] eqn:E;
      destruct (researchTrends_try_trace _ _ _ E) as (model & contents & Ht);
      exists model, contents; simpl; rewrite Ht; rewrite <- ?app_assoc; reflexivity. }
  assert (Hb : forall w0,
             has_API_KEY w0 = true ->
             exists model contents,
               trace (snd (generateBookText T topic category author language w0))
               = (trace w0 ++ [GenerateContent model contents])%list).
  { intros w0 Hk. unfold generateBookText. rewrite (with_client _ _ Hk).
    unfold parse_book_text, try_catch, parse_json, ai_generateContent,
      bind, emit, modify, next_reply.
    simpl. destruct (generateContent_replies w0) as [|[response | e | ] q]; simpl;
      try (do 2 eexists; reflexivity).
    destruct (JSON_parse _); simpl; do 2 eexists; reflexivity. }
  split.
  - intros Hk. destruct (Hr w Hk) as (m1 & c1 & H1). destruct (Hb w Hk) as (m2 & c2 & H2).
    rewrite H1, H2.
    destruct (fst (researchTrends_try T category topic targetMarket marketplaceId
                     language w)); count_trace; split; lia.
  - destruct (has_API_KEY w) eqn:Hk.
    + destruct (Hr w Hk) as (m1 & c1 & H1). destruct (Hb w Hk) as (m2 & c2 & H2).
      rewrite H1, H2.
      destruct (fst (researchTrends_try T category topic targetMarket marketplaceId
                       language w)); count_trace; repeat split; lia.
    + unfold researchTrends, generateBookText. rewrite !(without_client _ _ Hk).
      repeat split.
Qed.

End TextCalls.

Lemma text_calls_skip_the_guard_witness :
  count_events is_generateContent
    (trace (snd (generateBookText sample_tables None None None "it"
                   (sample_world [Resolves (text_answer None)])))) = 1.
Proof.
  destruct (proj1 (text_calls_skip_the_guard sample_tables None None None None None "it"
                     (sample_world [Resolves (text_answer None)])) eq_refl) as [_ H].
  exact H.
Defined.

Lemma generateBookText_propagates_rejection_witness :
  fst (generateBookText sample_tables None None None "it"
         (sample_world [Rejects unavailable])) = Rejected unavailable.
Proof.
  rewrite (generateBookText_propagates_rejection sample_tables None None None "it"
             (sample_world [Rejects unavailable]) unavailable [] eq_refl eq_refl).
  reflexivity.
Defined.

Lemma researchTrends_on_empty_answer_witness :
  exists w',
    researchTrends sample_tables None None None None "it"
      (sample_world [Resolves (text_answer None)]) =
      (Fulfilled {| trends := JString "Analysis complete.";
                    references := JArray [];
                    sources := [] |}, w').
Proof.
  destruct (researchTrends_on_empty_answer sample_tables None None None None "it"
              (sample_world [Resolves (text_answer None)]) (text_answer None) []
              eq_refl eq_refl (or_introl eq_refl))
    as (w' & Hrun & _).
  exists w'. exact Hrun.
Defined.

(** ** The polling loop *)

Lemma count_poll_rounds k :
  count_events is_sleep (poll_rounds k) = k
  /\ count_events is_getVideosOperation (poll_rounds k) = k
  /\ count_events is_fetch (poll_rounds k) = 0
  /\ count_events is_reauthorization (poll_rounds k) = 0
  /\ count_events is_generateVideos (poll_rounds k) = 0.
Proof.
  induction k as [|k (Hs & Hg & Hf & Hr & Hv)]; simpl; [repeat split|].
  rewrite Hs, Hg, Hf, Hr, Hv. repeat split.
Qed.

Lemma host_not_getVideosOperation e : is_host e = true -> is_getVideosOperation e = false.
Proof. destruct e; simpl; congruence. Qed.

Lemma host_not_sleep e : is_host e = true -> is_sleep e = false.
Proof. destruct e; simpl; congruence. Qed.

Lemma host_not_fetch e : is_host e = true -> is_fetch e = false.
Proof. destruct e; simpl; congruence. Qed.

(** One round of the loop on a job that is not done. *)
Lemma poll_round fuel operation w :
  is_done operation = false ->
  poll (S fuel) operation w =
    match getVideosOperation_replies w with
    | [] => (Pending, set_trace w (trace w ++ poll_rounds 1))
    | r :: q =>
      let w1 := set_getVideosOperation_replies (set_trace w (trace w ++ poll_rounds 1)) q in
      match r with
      | Resolves operation' => poll fuel operation' w1
      | Rejects e => (Rejected e, w1)
      | NeverSettles => (Pending, w1)
      end
    end.
Proof.
  intros Hd.
  change (poll (S fuel) operation w)
    with ((if is_done operation then ret operation
           else sleep 5000;; operation' <- ai_getVideosOperation;;
                poll fuel operation') w).
  rewrite Hd. unfold sleep, ai_getVideosOperation, bind, emit, modify, next_reply. simpl.
  rewrite <- app_assoc. simpl.
  destruct (getVideosOperation_replies w) as [|[operation' | e | ] q]; reflexivity.
Qed.

Lemma poll_done fuel operation w :
  is_done operation = true -> poll fuel operation w = (Fulfilled operation, w).
Proof. intros Hd. destruct fuel; simpl; rewrite Hd; reflexivity. Qed.

(** X12: the polling loop hands on only a job that is done: whatever
    [poll] is fulfilled with has [done] true. What it adds to the trace
    is a number of rounds, each a pause of 5000 ms followed by one
    status request, and no round at all when the job is done at the
    start. *)
Theorem poll_stops_when_done fuel operation w :
  (forall operation',
      fst (poll fuel operation w) = Fulfilled operation' -> is_done operation' = true)
  /\ (exists k,
         k <= fuel
         /\ trace (snd (poll fuel operation w)) = (trace w ++ poll_rounds k)%list
         /\ (is_done operation = true -> k = 0)).
Proof.
  revert operation w. induction fuel as [|fuel IH]; intros operation w.
  - simpl. destruct (is_done operation) eqn:Hd; simpl.
    + split; [intros ? H; injection H as <-; exact Hd|].
      exists 0. rewrite app_nil_r. split; [lia|]. split; [reflexivity | reflexivity].
    + split; [discriminate|]. exists 0. rewrite app_nil_r. split; [lia|]. split; [reflexivity | reflexivity].
  - destruct (is_done operation) eqn:Hd.
    + rewrite (poll_done _ _ _ Hd). simpl.
      split; [intros ? H; injection H as <-; exact Hd|].
      exists 0. rewrite app_nil_r. split; [lia|]. split; [reflexivity | reflexivity].
    + rewrite (poll_round _ _ _ Hd).
      destruct (getVideosOperation_replies w) as [|[operation' | e | ] q]; simpl.
      * split; [discriminate|]. exists 1. split; [lia|]. split; [reflexivity | discriminate].
      * destruct (IH operation'
                    (set_getVideosOperation_replies
                       (set_trace w (trace w ++ [Sleep 5000; GetVideosOperation])) q))
          as (Hdone & k & Hk & Ht & _).
        split; [exact Hdone|]. exists (S k). split; [lia|]. split; [|discriminate].
        rewrite Ht. simpl. rewrite <- app_assoc. reflexivity.
      * split; [discriminate|]. exists 1. split; [lia|]. split; [reflexivity | discriminate].
      * split; [discriminate|]. exists 1. split; [lia|]. split; [reflexivity | discriminate].
Qed.

Lemma poll_stops_when_done_witness :
  is_done finished_operation = true.
Proof.
  apply (proj1 (poll_stops_when_done 3 running_operation slow_video_world)
           finished_operation).
  vm_compute. reflexivity.
Defined.

(** A job whose every status answer says it is still running. *)
Lemma poll_waits fuel operation w :
  is_done operation = false ->
  forallb still_running (getVideosOperation_replies w) = true ->
  length (getVideosOperation_replies w) < fuel ->
  exists w',
    poll fuel operation w = (Pending, w')
    /\ getVideosOperation_replies w' = []
    /\ trace w' = (trace w ++ poll_rounds (S (length (getVideosOperation_replies w))))%list
    /\ generateVideos_replies w' = generateVideos_replies w
    /\ fetch_replies w' = fetch_replies w.
Proof.
  revert operation w. induction fuel as [|fuel IH]; intros operation w Hd Hall Hlen; [lia|].
  rewrite (poll_round _ _ _ Hd).
  destruct (getVideosOperation_replies w) as [|r q] eqn:Eq.
  - eexists. split; [reflexivity|]. simpl. rewrite Eq. repeat split.
  - simpl in Hall. apply andb_true_iff in Hall as [Hr Hq].
    destruct r as [operation' | e | ]; try discriminate Hr. simpl in Hr.
    apply negb_true_iff in Hr.
    destruct (IH operation'
                (set_getVideosOperation_replies
                   (set_trace w (trace w ++ poll_rounds 1)) q) Hr Hq)
      as (w' & Hrun & Hempty & Ht & Hgv & Hf); [simpl in *; lia|].
    exists w'. simpl in *. split; [exact Hrun|]. split; [exact Hempty|].
    split; [|split; assumption].
    rewrite Ht. rewrite <- app_assoc. reflexivity.
Qed.

(** ** Video generation *)

Lemma ai_generateVideos_resolves w model prompt bytes operation rest :
  generateVideos_replies w = Resolves operation :: rest ->
  ai_generateVideos model prompt bytes w =
    (Fulfilled operation,
     set_generateVideos_replies
       (set_trace w (trace w ++ [GenerateVideos model prompt bytes])) rest).
Proof.
  intros H. unfold ai_generateVideos, bind, emit, modify, next_reply. simpl.
  rewrite H. reflexivity.
Qed.

(** [generateVeoVideo] when its first attempt does not end in a
    403-classified failure: the attempt is the call. *)
Lemma generateVeoVideo_first_attempt imageBase64 prompt w :
  has_API_KEY w = true ->
  exists w0,
    ensureApiKey false w = (Fulfilled tt, w0)
    /\ trace w0 = (trace w ++ EnsureApiKeyCall false :: ensureApiKey_host_calls false w)%list
    /\ same_service w w0
    /\ forall r w1,
         generate_try imageBase64 prompt w0 = (r, w1) ->
         match r with Rejected e => is_permission_denied e = false | _ => True end ->
         generateVeoVideo imageBase64 prompt w =
           match r with
           | Rejected e =>
             (Rejected e,
              set_trace w1 (trace w1 ++ [ConsoleError (Some "Veo generation failed") (Some e)]))
           | _ => (r, w1)
           end.
Proof.
  intros Hk. destruct (ensureApiKey_completes false w) as (w0 & Hens & Ht0 & Hs0).
  assert (Hk0 : has_API_KEY w0 = true) by (rewrite (same_service_key _ _ Hs0); exact Hk).
  exists w0. repeat (split; [assumption|]). intros r w1 Htry Hr.
  unfold generateVeoVideo. rewrite (bind_fulfilled _ _ _ _ _ Hens).
  unfold try_catch at 1, generate. rewrite (with_client _ _ Hk0).
  unfold try_catch. rewrite Htry.
  destruct r as [url | e | ]; try reflexivity.
  rewrite Hr. reflexivity.
Qed.

(** X13: a video job that never finishes: when the job is not done at
    the start and every status answer says it is still running,
    [generateVeoVideo] stays pending for ever; it has asked for the
    status once per answer and once more, pausing before every request,
    and has fetched nothing. The job is one that a client, built with
    the key that is set, has asked for. *)
Theorem generateVeoVideo_waits_for_ever imageBase64 prompt w operation rest :
  has_API_KEY w = true ->
  generateVideos_replies w = Resolves operation :: rest ->
  is_done operation = false ->
  forallb still_running (getVideosOperation_replies w) = true ->
  exists w',
    generateVeoVideo imageBase64 prompt w = (Pending, w')
    /\ count_events is_getVideosOperation (trace w')
       = count_events is_getVideosOperation (trace w)
         + S (length (getVideosOperation_replies w))
    /\ count_events is_sleep (trace w')
       = count_events is_sleep (trace w) + S (length (getVideosOperation_replies w))
    /\ count_events is_fetch (trace w') = count_events is_fetch (trace w).
Proof.
  intros Hk Hq Hd Hall.
  destruct (generateVeoVideo_first_attempt imageBase64 prompt w Hk)
    as (w0 & _ & Ht0 & Hs0 & Hrun).
  destruct Hs0 as (_ & _ & _ & Hgv & Hgo & _).
  rewrite <- Hgv in Hq. rewrite <- Hgo in Hall.
  set (w1 := set_generateVideos_replies
               (set_trace w0 (trace w0 ++ [GenerateVideos "veo-3.1-fast-generate-preview"
                  (string_or (Some prompt)
                     "Cinematic camera movement bringing this book cover to life.")
                  (split_comma_1 imageBase64)])) rest).
  destruct (poll_waits (S (length (getVideosOperation_replies w1))) operation w1 Hd)
    as (w2 & Hpoll & _ & Ht2 & _); [exact Hall | lia |].
  assert (Htry : generate_try imageBase64 prompt w0 = (Pending, w2)).
  { unfold generate_try.
    rewrite (bind_fulfilled _ _ _ _ _ (ai_generateVideos_resolves _ _ _ _ _ _ Hq)).
    fold w1. unfold bind at 1, gets.
    rewrite (bind_pending _ _ _ _ Hpoll). reflexivity. }
  exists w2. rewrite (Hrun _ _ Htry I). split; [reflexivity|].
  destruct (count_poll_rounds (S (length (getVideosOperation_replies w1))))
    as (Hcs & Hcg & Hcf & _).
  rewrite Ht2. unfold w1 at 1 3 5. simpl trace. rewrite Ht0.
  rewrite !count_events_app, Hcs, Hcg, Hcf. simpl count_events at 1.
  replace (getVideosOperation_replies w1) with (getVideosOperation_replies w)
    by (unfold w1; simpl; symmetry; exact Hgo).
  count_trace.
  rewrite (count_host_calls is_getVideosOperation false w host_not_getVideosOperation),
          (count_host_calls is_sleep false w host_not_sleep),
          (count_host_calls is_fetch false w host_not_fetch).
  repeat split; lia.
Qed.

Lemma generateVeoVideo_waits_for_ever_witness :
  exists w',
    generateVeoVideo sample_image EmptyString
      (set_getVideosOperation_replies slow_video_world
         [Resolves running_operation; Resolves running_operation]) = (Pending, w')
    /\ count_events is_getVideosOperation (trace w') = 3.
Proof.
  destruct (generateVeoVideo_waits_for_ever sample_image EmptyString
              (set_getVideosOperation_replies slow_video_world
                 [Resolves running_operation; Resolves running_operation])
              running_operation [] eq_refl eq_refl eq_refl eq_refl)
    as (w' & Hrun & Hg & _).
  exists w'. split; [exact Hrun | exact Hg].
Defined.

Lemma missing_uri_is_not_denied :
  is_permission_denied (Error "Video generation failed to return URI") = false.
Proof. vm_compute. reflexivity. Qed.

(** X14: a failure of the first attempt at a video that is not
    403-classified is the failure of [generateVeoVideo]: it is logged
    and rethrown, with no forced re-authorization and no second
    [generateVideos] request. The attempt is one of a client that could
    be built. *)
Theorem generateVeoVideo_other_failure_is_final imageBase64 prompt w e w1 :
  has_API_KEY w = true ->
  generate_try imageBase64 prompt (snd (ensureApiKey false w)) = (Rejected e, w1) ->
  is_permission_denied e = false ->
  generateVeoVideo imageBase64 prompt w =
    (Rejected e,
     set_trace w1 (trace w1 ++ [ConsoleError (Some "Veo generation failed") (Some e)]))
  /\ count_events is_reauthorization (trace w1) = count_events is_reauthorization (trace w)
  /\ count_events is_generateVideos (trace w1)
     = count_events is_generateVideos (trace w) + 1.
Proof.
  intros Hk Htry Hd.
  destruct (generateVeoVideo_first_attempt imageBase64 prompt w Hk)
    as (w0 & Hens & Ht0 & _ & Hrun).
  rewrite Hens in Htry. simpl in Htry.
  split; [exact (Hrun _ _ Htry Hd)|].
  destruct (generate_try_trace _ _ _ _ _ Htry) as (m1 & t1 & b1 & d1 & Ht1 & Hp1).
  rewrite Ht1, Ht0. count_trace.
  rewrite (count_host_calls _ _ _ host_not_reauthorization),
          (count_host_calls _ _ _ host_not_generateVideos),
          (count_events_none _ _ _ Hp1 follow_up_not_reauthorization),
          (count_events_none _ _ _ Hp1 follow_up_not_generateVideos).
  split; lia.
Qed.

Lemma generateVeoVideo_other_failure_is_final_witness :
  fst (generateVeoVideo sample_image EmptyString (sample_video_world [Rejects unavailable]))
  = Rejected unavailable.
Proof.
  destruct (generateVeoVideo_other_failure_is_final sample_image EmptyString
              (sample_video_world [Rejects unavailable]) unavailable
              (snd (generate_try sample_image EmptyString
                      (snd (ensureApiKey false (sample_video_world [Rejects unavailable])))))
              eq_refl eq_refl eq_refl) as (Hrun & _).
  rewrite Hrun. reflexivity.
Defined.

Section VideoResult.

Variables imageBase64 prompt : string.
Variable w : World.
Variable operation : Operation.
Variable rest : list (Reply Operation).

Hypothesis client_built : has_API_KEY w = true.
Hypothesis job_answered : generateVideos_replies w = Resolves operation :: rest.
Hypothesis job_done : is_done operation = true.

Let request : Event :=
  GenerateVideos "veo-3.1-fast-generate-preview"
    (string_or (Some prompt) "Cinematic camera movement bringing this book cover to life.")
    (split_comma_1 imageBase64).

(** The attempt up to the reading of the URI, in the world [w0] left by
    the guard. *)
Lemma generate_try_after_job w0 :
  generateVideos_replies w0 = Resolves operation :: rest ->
  generate_try imageBase64 prompt w0 =
    (let w1 := set_generateVideos_replies (set_trace w0 (trace w0 ++ [request])) rest in
     match operation_videoUri operation with
     | None => (Rejected (Error "Video generation failed to return URI"), w1)
     | Some videoUri =>
       if String.eqb videoUri EmptyString
       then (Rejected (Error "Video generation failed to return URI"), w1)
       else
         (videoResponse <- fetch (videoUri ++ "&key=" ++ string_or_undefined (API_KEY w0));;
          if negb (ok videoResponse) then
            if (http_status videoResponse =? 403)%Z then throw (Error "PERMISSION_DENIED")
            else throw (Error ("Video fetch failed: " ++ statusText videoResponse))
          else
            videoBlob <- read_blob videoResponse;;
            createObjectURL videoBlob) w1
     end).
Proof.
  intros Hq. unfold generate_try.
  rewrite (bind_fulfilled _ _ _ _ _ (ai_generateVideos_resolves _ _ _ _ _ _ Hq)).
  fold request. unfold bind at 1, gets.
  rewrite (bind_fulfilled _ _ _ _ _ (poll_done _ _ _ job_done)).
  destruct (operation_videoUri operation) as [videoUri|]; [|reflexivity].
  destruct (String.eqb videoUri EmptyString); reflexivity.
Qed.

(** X15: a finished job without a video URI (absent, or empty) makes
    [generateVeoVideo] reject with the error "Video generation failed
    to return URI": nothing is fetched, and as that error is not
    403-classified, nothing is retried. The job is one that a client
    that could be built has asked for. *)
Theorem generateVeoVideo_without_uri :
  operation_videoUri operation = None \/ operation_videoUri operation = Some EmptyString ->
  exists w',
    generateVeoVideo imageBase64 prompt w
    = (Rejected (Error "Video generation failed to return URI"), w')
    /\ generateVideos_replies w' = rest
    /\ fetch_replies w' = fetch_replies w
    /\ count_events is_fetch (trace w') = count_events is_fetch (trace w)
    /\ count_events is_reauthorization (trace w')
       = count_events is_reauthorization (trace w)
    /\ count_events is_generateVideos (trace w')
       = count_events is_generateVideos (trace w) + 1.
Proof.
  intros Huri.
  destruct (generateVeoVideo_first_attempt imageBase64 prompt w client_built)
    as (w0 & _ & Ht0 & Hs0 & Hrun).
  destruct Hs0 as (_ & _ & _ & Hgv & _ & Hf & _).
  assert (Hq0 : generateVideos_replies w0 = Resolves operation :: rest)
    by (rewrite Hgv; exact job_answered).
  pose proof (generate_try_after_job w0 Hq0) as Htry.
  assert (Htry' : generate_try imageBase64 prompt w0 =
            (Rejected (Error "Video generation failed to return URI"),
             set_generateVideos_replies (set_trace w0 (trace w0 ++ [request])) rest)).
  { rewrite Htry. destruct Huri as [-> | ->]; reflexivity. }
  eexists. rewrite (Hrun _ _ Htry' missing_uri_is_not_denied).
  split; [reflexivity|]. simpl. split; [reflexivity|]. split; [exact Hf|].
  rewrite Ht0. count_trace.
  rewrite (count_host_calls _ _ _ host_not_fetch),
          (count_host_calls _ _ _ host_not_reauthorization),
          (count_host_calls _ _ _ host_not_generateVideos).
  repeat split; lia.
Qed.

(** X16: a finished job with a video URI, a fetch that succeeds and a
    body that can be read, in a world where [process.env.API_KEY] is
    [key] and the guard has no dialog to open: [generateVeoVideo] is
    fulfilled with the object URL of the body after exactly the guard,
    the job request (with the default prompt when the given one is
    empty), one fetch of the URI with [&key=] and [key] appended, the
    reading of the body and the creation of the URL: no pause, no
    status request. *)
Theorem generateVeoVideo_fetches_result key videoUri r rest' b :
  API_KEY w = Some key ->
  count_events is_dialog (ensureApiKey_host_calls false w) = 0 ->
  operation_videoUri operation = Some videoUri ->
  videoUri <> EmptyString ->
  fetch_replies w = Resolves r :: rest' ->
  ok r = true ->
  blob r = Resolves b ->
  exists url w',
    generateVeoVideo imageBase64 prompt w = (Fulfilled url, w')
    /\ trace w' =
         (trace w ++ EnsureApiKeyCall false :: ensureApiKey_host_calls false w
          ++ [request;
              Fetch (videoUri ++ "&key=" ++ key);
              ReadBlob;
              CreateObjectURL b])%list
    /\ objectURLs w' = (objectURLs w ++ [b])%list.
Proof.
  intros Hkeyed _ Huri Hne Hfq Hok Hblob. apply String.eqb_neq in Hne.
  destruct (generateVeoVideo_first_attempt imageBase64 prompt w client_built)
    as (w0 & _ & Ht0 & Hs0 & Hrun).
  destruct Hs0 as (_ & Hkey & _ & Hgv & _ & Hf & Hurls).
  assert (Hq0 : generateVideos_replies w0 = Resolves operation :: rest)
    by (rewrite Hgv; exact job_answered).
  pose proof (generate_try_after_job w0 Hq0) as Htry.
  rewrite Huri, Hne in Htry. simpl in Htry.
  unfold fetch, read_blob, createObjectURL, bind, emit, modify, next_reply, gets
    in Htry.
  simpl in Htry. rewrite Hf, Hfq in Htry. simpl in Htry.
  rewrite Hok, Hblob in Htry. simpl in Htry.
  do 2 eexists. rewrite (Hrun _ _ Htry I). split; [reflexivity|]. simpl.
  rewrite Ht0, Hkey, Hkeyed, Hurls. split; [|reflexivity].
  rewrite <- !app_assoc. simpl. reflexivity.
Qed.

End VideoResult.

Lemma generateVeoVideo_without_uri_witness :
  exists w',
    generateVeoVideo sample_image EmptyString
      (sample_video_world [Resolves {| done := Some true; response := None |}])
    = (Rejected (Error "Video generation failed to return URI"), w').
Proof.
  destruct (generateVeoVideo_without_uri sample_image EmptyString
              (sample_video_world [Resolves {| done := Some true; response := None |}])
              {| done := Some true; response := None |} [] eq_refl eq_refl eq_refl
              (or_introl eq_refl))
    as (w' & Hrun & _).
  exists w'. exact Hrun.
Defined.

Lemma generateVeoVideo_fetches_result_witness :
  exists url w',
    generateVeoVideo sample_image EmptyString
      (set_fetch_replies (sample_video_world [Resolves finished_operation])
         [Resolves fetched_video])
    = (Fulfilled url, w')
    /\ objectURLs w' = ["video-bytes"].
Proof.
  destruct (generateVeoVideo_fetches_result sample_image EmptyString
              (set_fetch_replies (sample_video_world [Resolves finished_operation])
                 [Resolves fetched_video])
              finished_operation [] eq_refl eq_refl eq_refl
              "key-0" "https://video.example/v1?alt=media" fetched_video [] "video-bytes"
              eq_refl eq_refl eq_refl ltac:(discriminate) eq_refl eq_refl eq_refl)
    as (url & w' & Hrun & _ & Hurls).
  exists url, w'. split; [exact Hrun | exact Hurls].
Defined.

(** ** Without a key *)



(* ===================================================================== *)
(** * Further properties of the component *)
(* ===================================================================== *)

Arguments generateVeoVideo : simpl never.

(** ** [startProcess], step by step *)

Section Steps.

Variable T : Tables.
Variable md : gmap string JsVal.
Variable lang : Language.
Variable t : Translations.

Let marketplaceName := marketplaceName_of T (md !! "amazonMarketplace").
Let niche := js_or (md !! "targetMarket") (md !! "category").
Let research_step :=
  researchTrends T (md !! "category") (md !! "topic") (md !! "targetMarket")
    (md !! "amazonMarketplace") lang.
Let text_step :=
  generateBookText T (md !! "topic") (md !! "category") (md !! "author") lang.
Let image_step research :=
  generateCoverImages (imagePrompt_of md marketplaceName niche research).

(** The component's state as the [try] block has it when research
    starts, when text generation starts and when image generation
    starts. *)
Let at_research (a : AppState) : AppState :=
  with_statusMessage [Lit (analyzing t); Lit " "; Lit marketplaceName; Lit " (";
                      Splice niche; Lit ")..."] a.
Let at_text (a : AppState) research : AppState :=
  with_statusMessage (lit (crafting t))
    (with_groundingData (Some research) (at_research a)).
Let at_images (a : AppState) research textData : AppState :=
  with_statusMessage (lit (painting t))
    (with_metadata (spread (metadata a) textData) (at_text a research)).

(** The [try] block of [startProcess] in terms of its three steps. *)
Lemma startProcess_try_run s0 :
  startProcess_try T md lang t s0 =
    match research_step (world s0) with
    | (Fulfilled research, w1) =>
      match text_step w1 with
      | (Fulfilled textData, w2) =>
        match image_step research w2 with
        | (Fulfilled images, w3) =>
          (Fulfilled tt,
           {| app := with_step GENERATION
                       (with_coverImage (head images)
                          (with_generatedImages images
                             (at_images (app s0) research textData)));
              world := w3 |})
        | (Rejected e, w3) =>
          (Rejected e, {| app := at_images (app s0) research textData; world := w3 |})
        | (Pending, w3) =>
          (Pending, {| app := at_images (app s0) research textData; world := w3 |})
        end
      | (Rejected e, w2) => (Rejected e, {| app := at_text (app s0) research; world := w2 |})
      | (Pending, w2) => (Pending, {| app := at_text (app s0) research; world := w2 |})
      end
    | (Rejected e, w1) => (Rejected e, {| app := at_research (app s0); world := w1 |})
    | (Pending, w1) => (Pending, {| app := at_research (app s0); world := w1 |})
    end.
Proof.
  unfold startProcess_try, bind, setStatusMessage, setGroundingData, setMetadata,
    setGeneratedImages, setCoverImage, setStep, update, modify, liftW.
  fold marketplaceName niche. simpl. fold research_step.
  destruct (research_step (world s0)) as [[research | e | ] w1]; simpl; try reflexivity.
  fold text_step.
  destruct (text_step w1) as [[textData | e | ] w2]; simpl; try reflexivity.
  fold (image_step research).
  destruct (image_step research w2) as [[images | e | ] w3]; reflexivity.
Qed.

End Steps.

(** [startProcess] as a whole. *)
Lemma startProcess_run T s :
  startProcess T s =
    if negb (truthy_opt (metadata (app s) !! "topic"))
       || negb (truthy_opt (metadata (app s) !! "author"))
    then (Fulfilled tt,
          {| app := app s;
             world := alerted (world s) "Please enter a topic and author name." |})
    else
      match startProcess_try T (metadata (app s)) (language (app s))
              (TRANSLATIONS T (language (app s))) (entered s) with
      | (Fulfilled _, s2) =>
        (Fulfilled tt, {| app := after_finally (app s2); world := world s2 |})
      | (Rejected e, s2) =>
        (Fulfilled tt,
         {| app := after_finally (app s2);
            world := after_catch (world s2) e
                       (errorKey (TRANSLATIONS T (language (app s)))) |})
      | (Pending, s2) => (Pending, s2)
      end.
Proof.
  unfold startProcess, bind at 1, gets.
  destruct (negb (truthy_opt (metadata (app s) !! "topic"))
            || negb (truthy_opt (metadata (app s) !! "author"))); [reflexivity|].
  change ((setStep RESEARCH;; setIsLoading true;;
           try_finally
             (try_catch
                (startProcess_try T (metadata (app s)) (language (app s))
                   (TRANSLATIONS T (language (app s))))
                (fun error => liftW (console_error None (Some error));;
                              alert (errorKey (TRANSLATIONS T (language (app s))))))
             (setIsLoading false;; setStatusMessage (lit EmptyString))) s)
    with (try_finally
            (try_catch
               (startProcess_try T (metadata (app s)) (language (app s))
                  (TRANSLATIONS T (language (app s))))
               (fun error => liftW (console_error None (Some error));;
                             alert (errorKey (TRANSLATIONS T (language (app s))))))
            (setIsLoading false;; setStatusMessage (lit EmptyString)) (entered s)).
  unfold try_finally, try_catch.
  destruct (startProcess_try _ _ _ _ (entered s)) as [[[] | e | ] s2]; reflexivity.
Qed.

(** ** The other two handlers, step by step *)

Lemma handleEditImage_run T s :
  handleEditImage T s =
    match coverImage (app s) with
    | None => (Fulfilled tt, s)
    | Some image =>
      if String.eqb image EmptyString || String.eqb (editPrompt (app s)) EmptyString
      then (Fulfilled tt, s)
      else
        match editCoverImage image (editPrompt (app s)) (world s) with
        | (Fulfilled newImage, w') =>
          (Fulfilled tt,
           {| app := after_finally
                       (with_editPrompt EmptyString
                          (with_coverImage (Some newImage) (app s)));
              world := w' |})
        | (Rejected e, w') =>
          (Fulfilled tt,
           {| app := after_finally (app s);
              world := alerted w' (errorEdit (TRANSLATIONS T (language (app s)))) |})
        | (Pending, w') =>
          (Pending,
           {| app := with_statusMessage
                       (lit (applyingEdits (TRANSLATIONS T (language (app s)))))
                       (with_isLoading true (app s));
              world := w' |})
        end
    end.
Proof.
  unfold handleEditImage, bind at 1, gets.
  destruct (coverImage (app s)) as [image|]; [|reflexivity].
  destruct (String.eqb image EmptyString || String.eqb (editPrompt (app s)) EmptyString);
    [reflexivity|].
  unfold try_finally, try_catch, bind, setIsLoading, setStatusMessage, setCoverImage,
    setEditPrompt, update, modify, liftW, alert. simpl.
  destruct (editCoverImage image (editPrompt (app s)) (world s)) as [[newImage | e | ] w'];
    reflexivity.
Qed.

Lemma handleCreateVideo_run T s :
  handleCreateVideo T s =
    match coverImage (app s) with
    | None => (Fulfilled tt, s)
    | Some image =>
      if String.eqb image EmptyString then (Fulfilled tt, s)
      else
        match generateVeoVideo image (videoPrompt (app s)) (world s) with
        | (Fulfilled url, w') =>
          (Fulfilled tt,
           {| app := after_finally (with_step VIDEO (with_videoUrl (Some url) (app s)));
              world := w' |})
        | (Rejected e, w') =>
          (Fulfilled tt,
           {| app := after_finally (app s);
              world := alerted w' (errorVideo (TRANSLATIONS T (language (app s)))) |})
        | (Pending, w') =>
          (Pending,
           {| app := with_statusMessage
                       (lit (generatingVideo (TRANSLATIONS T (language (app s)))))
                       (with_isLoading true (app s));
              world := w' |})
        end
    end.
Proof.
  unfold handleCreateVideo, bind at 1, gets.
  destruct (coverImage (app s)) as [image|]; [|reflexivity].
  destruct (String.eqb image EmptyString); [reflexivity|].
  unfold try_finally, try_catch, bind, setIsLoading, setStatusMessage, setVideoUrl,
    setStep, update, modify, liftW, alert. simpl.
  destruct (generateVeoVideo image (videoPrompt (app s)) (world s)) as [[url | e | ] w'];
    reflexivity.
Qed.

(** ** What the handlers guarantee *)

(** X17: no action of the user ends in a rejected promise or a thrown
    error: the setters cannot fail, and the three handlers catch
    whatever their calls throw. An action finishes, or it waits for a
    call that never settles. *)
Theorem perform_never_rejects T action s :
  fst (perform T action s) = Fulfilled tt \/ fst (perform T action s) = Pending.
Proof.
  destruct action; simpl perform; try (left; reflexivity).
  - unfold selectThumbnail, bind, gets.
    destruct (generatedImages (app s) !! idx); left; reflexivity.
  - rewrite startProcess_run.
    destruct (negb _ || negb _); [left; reflexivity|].
    destruct (startProcess_try _ _ _ _ _) as [[[] | e' | ] s2];
      solve [left; reflexivity | right; reflexivity].
  - rewrite handleEditImage_run.
    destruct (coverImage (app s)) as [image|]; [|left; reflexivity].
    destruct (_ || _); [left; reflexivity|].
    destruct (editCoverImage _ _ _) as [[newImage | e' | ] w'];
      solve [left; reflexivity | right; reflexivity].
  - rewrite handleCreateVideo_run.
    destruct (coverImage (app s)) as [image|]; [|left; reflexivity].
    destruct (String.eqb _ _); [left; reflexivity|].
    destruct (generateVeoVideo _ _ _) as [[url | e' | ] w'];
      solve [left; reflexivity | right; reflexivity].
Qed.

(** ** What a run of [startProcess] leaves behind *)

Section Run.

Variable T : Tables.
Variable s : Session.

Let md := metadata (app s).
Let lang := language (app s).
Let t := TRANSLATIONS T lang.
Let marketplaceName := marketplaceName_of T (md !! "amazonMarketplace").
Let niche := js_or (md !! "targetMarket") (md !! "category").
Let research_step :=
  researchTrends T (md !! "category") (md !! "topic") (md !! "targetMarket")
    (md !! "amazonMarketplace") lang.
Let text_step :=
  generateBookText T (md !! "topic") (md !! "category") (md !! "author") lang.
Let image_step research :=
  generateCoverImages (imagePrompt_of md marketplaceName niche research).

Hypothesis topic_given : truthy_opt (md !! "topic") = true.
Hypothesis author_given : truthy_opt (md !! "author") = true.

(** The run from the outcomes of its three steps. *)
Lemma startProcess_steps :
  startProcess T s =
    match startProcess_try T md lang t (entered s) with
    | (Fulfilled _, s2) =>
      (Fulfilled tt, {| app := after_finally (app s2); world := world s2 |})
    | (Rejected e, s2) =>
      (Fulfilled tt,
       {| app := after_finally (app s2); world := after_catch (world s2) e (errorKey t) |})
    | (Pending, s2) => (Pending, s2)
    end.
Proof.
  rewrite startProcess_run. fold md. rewrite topic_given, author_given. reflexivity.
Qed.

(** X18: a refused research request does not stop the run. The adapter
    answers with its fallback result and takes the refused request off
    the service; when the text step and the image step then succeed,
    the run ends in stage Generation like any other, with the fallback
    stored as grounding data; the handler itself writes nothing: the
    world is as the image step left it. The refused request is one of
    a client that could be built. *)
Theorem startProcess_survives_research_failure e rest :
  has_API_KEY (world s) = true ->
  generateContent_replies (world s) = Rejects e :: rest ->
  fst (research_step (world s)) = Fulfilled research_fallback
  /\ generateContent_replies (snd (research_step (world s))) = rest
  /\ forall textData w2 images w3,
       text_step (snd (research_step (world s))) = (Fulfilled textData, w2) ->
       image_step research_fallback w2 = (Fulfilled images, w3) ->
       exists a',
         startProcess T s = (Fulfilled tt, {| app := a'; world := w3 |})
         /\ step a' = GENERATION
         /\ isLoading a' = false
         /\ groundingData a' = Some research_fallback
         /\ generatedImages a' = images
         /\ coverImage a' = head images
         /\ metadata a' = spread md textData.
Proof.
  intros Hk Hq.
  destruct (researchTrends_try_rejects T (md !! "category") (md !! "topic")
              (md !! "targetMarket") (md !! "amazonMarketplace") lang _ _ _ Hq)
    as (w1 & Htry).
  assert (Hw1 : generateContent_replies w1 = rest).
  { revert Htry. unfold researchTrends_try, bind.
    rewrite (ai_generateContent_rejects _ _ _ _ _ Hq).
    intros H. injection H as <-. reflexivity. }
  pose proof (researchTrends_catches T _ _ _ _ lang _ _ _ Hk Htry) as Hr.
  fold research_step in Hr. rewrite Hr. simpl fst. simpl snd.
  split; [reflexivity|]. split; [exact Hw1|].
  intros textData w2 images w3 Htext Himages.
  rewrite startProcess_steps, startProcess_try_run.
  fold marketplaceName niche research_step text_step.
  change (world (entered s)) with (world s). rewrite Hr, Htext.
  fold (image_step research_fallback). rewrite Himages.
  eexists. split; [reflexivity|]. repeat split.
Qed.

(** X19: a run whose text step fails keeps the research result and
    nothing else: the grounding data is the research result; the
    metadata, the generated images and the selected cover are those of
    before the run; the stage is Research and the loading flag and the
    status message are cleared; and the failure is logged and shown as
    [t.errorKey]. *)
Theorem startProcess_text_failure research w1 e w2 :
  research_step (world s) = (Fulfilled research, w1) ->
  text_step w1 = (Rejected e, w2) ->
  exists a',
    startProcess T s = (Fulfilled tt, {| app := a'; world := after_catch w2 e (errorKey t) |})
    /\ groundingData a' = Some research
    /\ metadata a' = md
    /\ generatedImages a' = generatedImages (app s)
    /\ coverImage a' = coverImage (app s)
    /\ step a' = RESEARCH
    /\ isLoading a' = false
    /\ statusMessage a' = lit EmptyString.
Proof.
  intros Hr Htext.
  rewrite startProcess_steps, startProcess_try_run.
  fold marketplaceName niche research_step text_step.
  change (world (entered s)) with (world s). rewrite Hr, Htext.
  eexists. split; [reflexivity|]. repeat split.
Qed.

(** X20: a run whose image step fails has already merged the generated
    text into the metadata: the metadata is the merge, the grounding
    data is the research result, and the generated images and the
    selected cover are those of before the run; the stage is Research
    and the loading flag is cleared. *)
Theorem startProcess_image_failure research w1 textData w2 e w3 :
  research_step (world s) = (Fulfilled research, w1) ->
  text_step w1 = (Fulfilled textData, w2) ->
  image_step research w2 = (Rejected e, w3) ->
  exists a',
    startProcess T s = (Fulfilled tt, {| app := a'; world := after_catch w3 e (errorKey t) |})
    /\ metadata a' = spread md textData
    /\ groundingData a' = Some research
    /\ generatedImages a' = generatedImages (app s)
    /\ coverImage a' = coverImage (app s)
    /\ step a' = RESEARCH
    /\ isLoading a' = false.
Proof.
  intros Hr Htext Himages.
  rewrite startProcess_steps, startProcess_try_run.
  fold marketplaceName niche research_step text_step.
  change (world (entered s)) with (world s). rewrite Hr, Htext.
  fold (image_step research). rewrite Himages.
  eexists. split; [reflexivity|]. repeat split.
Qed.

End Run.

(** X18, witness: the spec's example with a service that refuses the
    research request and answers the four others. *)
Lemma startProcess_survives_research_failure_witness :
  exists a' w3,
    startProcess sample_tables research_failing_session
    = (Fulfilled tt, {| app := a'; world := w3 |})
    /\ step a' = GENERATION
    /\ groundingData a' = Some research_fallback
    /\ length (generatedImages a') = 3.
Proof.
  destruct (startProcess_survives_research_failure sample_tables research_failing_session
              eq_refl eq_refl unavailable _ eq_refl eq_refl) as (_ & _ & Hrun).
  destruct (Hrun (settled (fst (sample_text_run (world research_failing_session))) JNull)
              (snd (sample_text_run (world research_failing_session)))
              (settled (fst (sample_image_run (world research_failing_session))) [])
              (snd (sample_image_run (world research_failing_session))))
    as (a' & H & Hstep & _ & Hg & Himg & _);
    [vm_compute; reflexivity | vm_compute; reflexivity |].
  exists a', (snd (sample_image_run (world research_failing_session))).
  split; [exact H|]. split; [exact Hstep|]. split; [exact Hg|].
  rewrite Himg. vm_compute. reflexivity.
Defined.

(** X19, witness: the spec's example with a service that answers the
    research request and refuses the text request. *)
Lemma startProcess_text_failure_witness :
  exists a' w',
    startProcess sample_tables failing_session = (Fulfilled tt, {| app := a'; world := w' |})
    /\ metadata a' = sample_metadata
    /\ generatedImages a' = []
    /\ step a' = RESEARCH.
Proof.
  destruct (startProcess_text_failure sample_tables failing_session eq_refl eq_refl
              (settled (fst (sample_research_run (world failing_session))) research_fallback)
              (snd (sample_research_run (world failing_session)))
              unavailable
              (snd (sample_text_run (world failing_session))))
    as (a' & H & _ & Hmd & Himg & _ & Hstep & _);
    [vm_compute; reflexivity | vm_compute; reflexivity |].
  eexists a', _. split; [exact H|]. split; [exact Hmd|]. split; [exact Himg | exact Hstep].
Defined.

(** X20, witness: the spec's example with a service that refuses the
    first image request: the title of the text step is in the metadata
    although the run has failed. *)
Lemma startProcess_image_failure_witness :
  exists a' w',
    startProcess sample_tables image_failing_session
    = (Fulfilled tt, {| app := a'; world := w' |})
    /\ metadata a' !! "title" = Some (JString "The Calm Mind")
    /\ generatedImages a' = []
    /\ step a' = RESEARCH.
Proof.
  destruct (startProcess_image_failure sample_tables image_failing_session eq_refl eq_refl
              (settled (fst (sample_research_run (world image_failing_session)))
                 research_fallback)
              (snd (sample_research_run (world image_failing_session)))
              (settled (fst (sample_text_run (world image_failing_session))) JNull)
              (snd (sample_text_run (world image_failing_session)))
              unavailable
              (snd (sample_image_run (world image_failing_session))))
    as (a' & H & Hmd & _ & Himg & _ & Hstep & _);
    [vm_compute; reflexivity | vm_compute; reflexivity | vm_compute; reflexivity |].
  eexists a', _. split; [exact H|].
  split; [rewrite Hmd; vm_compute; reflexivity|]. split; [exact Himg | exact Hstep].
Defined.

(** A run in any outcome, as far as the fields go that the [try] block
    does not write. *)
Lemma startProcess_try_frame T md lang t s0 :
  let s2 := snd (startProcess_try T md lang t s0) in
  language (app s2) = language (app s0)
  /\ videoUrl (app s2) = videoUrl (app s0)
  /\ editPrompt (app s2) = editPrompt (app s0)
  /\ videoPrompt (app s2) = videoPrompt (app s0)
  /\ isLoading (app s2) = isLoading (app s0)
  /\ (step (app s2) = step (app s0) \/ step (app s2) = GENERATION).
Proof.
  rewrite startProcess_try_run.
  destruct (researchTrends _ _ _ _ _ _ _) as [[research | e | ] w1];
    [|simpl; repeat split; left; reflexivity ..].
  destruct (generateBookText _ _ _ _ _ _) as [[textData | e | ] w2];
    [|simpl; repeat split; left; reflexivity ..].
  destruct (generateCoverImages _ _) as [[images | e | ] w3]; simpl; repeat split;
    solve [left; reflexivity | right; reflexivity].
Qed.

(** X21: [startProcess] never touches the language, the video, the edit
    instruction or the video prompt, whatever becomes of the run; and
    it leaves the stage as it was, or at Research, or at Generation:
    it moves the component to no other stage. *)
Theorem startProcess_frame T s :
  language (app (snd (startProcess T s))) = language (app s)
  /\ videoUrl (app (snd (startProcess T s))) = videoUrl (app s)
  /\ editPrompt (app (snd (startProcess T s))) = editPrompt (app s)
  /\ videoPrompt (app (snd (startProcess T s))) = videoPrompt (app s)
  /\ (step (app (snd (startProcess T s))) = step (app s)
      \/ step (app (snd (startProcess T s))) = RESEARCH
      \/ step (app (snd (startProcess T s))) = GENERATION).
Proof.
  rewrite startProcess_run.
  destruct (negb _ || negb _); [simpl; repeat split; left; reflexivity|].
  pose proof (startProcess_try_frame T (metadata (app s)) (language (app s))
                (TRANSLATIONS T (language (app s))) (entered s)) as H.
  simpl in H. destruct H as (Hl & Hv & He & Hp & _ & Hs).
  destruct (startProcess_try _ _ _ _ _) as [[[] | e | ] s2]; simpl in *;
    (split; [exact Hl|]; split; [exact Hv|]; split; [exact He|]; split; [exact Hp|];
     right; destruct Hs as [Hs | Hs]; [left | right]; exact Hs).
Qed.

(** ** [handleCreateVideo] *)

(** X22: with a cover image, [handleCreateVideo] hands the cover and the
    video prompt to the adapter. When the adapter returns a URL, the
    URL becomes the video, the stage becomes Video and the video prompt
    stays as typed; when the adapter fails, [t.errorVideo] is shown and
    nothing but the loading flag and the status message is written. In
    both cases the loading flag is cleared. *)
Theorem handleCreateVideo_outcome T s image :
  coverImage (app s) = Some image ->
  image <> EmptyString ->
  (forall url w',
      generateVeoVideo image (videoPrompt (app s)) (world s) = (Fulfilled url, w') ->
      handleCreateVideo T s =
        (Fulfilled tt,
         {| app := after_finally (with_step VIDEO (with_videoUrl (Some url) (app s)));
            world := w' |}))
  /\ (forall e w',
         generateVeoVideo image (videoPrompt (app s)) (world s) = (Rejected e, w') ->
         handleCreateVideo T s =
           (Fulfilled tt,
            {| app := after_finally (app s);
               world := alerted w' (errorVideo (TRANSLATIONS T (language (app s)))) |})).
Proof.
  intros Hc Hne. rewrite handleCreateVideo_run, Hc.
  destruct (String.eqb_spec image EmptyString) as [Heq | _]; [contradiction|].
  split; intros ? w' H; rewrite H; reflexivity.
Qed.

(** X22, witness: a finished job whose result can be fetched. *)
Lemma handleCreateVideo_outcome_witness :
  exists s',
    handleCreateVideo sample_tables {| app := editing_app; world := ready_video_world |}
    = (Fulfilled tt, s')
    /\ step (app s') = VIDEO
    /\ isLoading (app s') = false.
Proof.
  pose proof (proj1 (handleCreateVideo_outcome sample_tables
                       {| app := editing_app; world := ready_video_world |}
                       sample_image eq_refl ltac:(discriminate))
                (settled (fst (generateVeoVideo sample_image EmptyString ready_video_world))
                   EmptyString)
                (snd (generateVeoVideo sample_image EmptyString ready_video_world))) as H.
  eexists. split; [apply H; vm_compute; reflexivity|]. split; reflexivity.
Defined.

(** X23: [handleCreateVideo] does nothing without a cover image, and in
    every case leaves the cover, the generated images, the metadata,
    the grounding data, the language and the two prompts as they were;
    the stage is as it was or Video, and when it has become Video there
    is a video to show. *)
Theorem handleCreateVideo_frame T s :
  (coverImage (app s) = None \/ coverImage (app s) = Some EmptyString ->
   handleCreateVideo T s = (Fulfilled tt, s))
  /\ (coverImage (app (snd (handleCreateVideo T s))) = coverImage (app s)
      /\ generatedImages (app (snd (handleCreateVideo T s))) = generatedImages (app s)
      /\ metadata (app (snd (handleCreateVideo T s))) = metadata (app s)
      /\ groundingData (app (snd (handleCreateVideo T s))) = groundingData (app s)
      /\ language (app (snd (handleCreateVideo T s))) = language (app s)
      /\ editPrompt (app (snd (handleCreateVideo T s))) = editPrompt (app s)
      /\ videoPrompt (app (snd (handleCreateVideo T s))) = videoPrompt (app s))
  /\ ((step (app (snd (handleCreateVideo T s))) = step (app s)
       /\ videoUrl (app (snd (handleCreateVideo T s))) = videoUrl (app s))
      \/ (step (app (snd (handleCreateVideo T s))) = VIDEO
          /\ exists url, videoUrl (app (snd (handleCreateVideo T s))) = Some url)).
Proof.
  rewrite handleCreateVideo_run. split.
  - intros [H | H]; rewrite H; reflexivity.
  - destruct (coverImage (app s)) as [image|] eqn:Hc;
      [|simpl; rewrite Hc; repeat split; left; split; reflexivity].
    destruct (String.eqb image EmptyString);
      [simpl; rewrite Hc; repeat split; left; split; reflexivity|].
    destruct (generateVeoVideo _ _ _) as [[url | e | ] w']; simpl; rewrite Hc;
      (split; [repeat split|]);
      solve [left; split; reflexivity | right; split; [reflexivity | eexists; reflexivity]].
Qed.

(** X23, witness: a session without a cover. *)
Lemma handleCreateVideo_frame_witness :
  handleCreateVideo sample_tables good_session = (Fulfilled tt, good_session).
Proof.
  apply (proj1 (handleCreateVideo_frame sample_tables good_session)).
  left. reflexivity.
Defined.

(** ** The form and the Generate button *)

Lemma startProcess_leaves_form T s :
  truthy_opt (metadata (app s) !! "topic") = true ->
  truthy_opt (metadata (app s) !! "author") = true ->
  step (app (snd (startProcess T s))) = RESEARCH
  \/ step (app (snd (startProcess T s))) = GENERATION.
Proof.
  intros Ht Ha. rewrite startProcess_run, Ht, Ha. simpl negb. simpl orb. cbv iota.
  pose proof (startProcess_try_frame T (metadata (app s)) (language (app s))
                (TRANSLATIONS T (language (app s))) (entered s)) as H.
  simpl in H. destruct H as (_ & _ & _ & _ & _ & Hs).
  destruct (startProcess_try _ _ _ _ _) as [[[] | e | ] s2]; simpl in *;
    (destruct Hs as [Hs | Hs]; [left | right]; exact Hs).
Qed.

Lemma truthy_string v : v <> EmptyString -> truthy_opt (Some (JString v)) = true.
Proof.
  intros H. simpl. destruct (String.eqb_spec v EmptyString); [contradiction | reflexivity].
Qed.

(** X24: the form decides what the Generate button does. Once the topic
    or the author has been cleared, the button shows the validation
    message and changes nothing else, so the form stays; once both have
    been given any text at all, be it blanks, the form is left for
    stage Research or Generation. *)
Theorem generate_after_input T s :
  step (app s) = DETAILS ->
  (forall field,
      field = "topic" \/ field = "author" ->
      (handleInputChange field EmptyString;; startProcess T) s =
        (Fulfilled tt,
         {| app := with_metadata (<[field := JString EmptyString]> (metadata (app s))) (app s);
            world := alerted (world s) "Please enter a topic and author name." |}))
  /\ (forall topic author,
         topic <> EmptyString ->
         author <> EmptyString ->
         shows_details_form
           (app (snd ((handleInputChange "topic" topic;;
                       handleInputChange "author" author;;
                       startProcess T) s))) = false).
Proof.
  intros Hstep. split.
  - intros field Hf. unfold bind, handleInputChange, setMetadata, update, modify.
    rewrite startProcess_run. simpl app.
    change (metadata (with_metadata ?m _)) with m.
    destruct Hf as [-> | ->].
    + rewrite lookup_insert_eq. reflexivity.
    + rewrite lookup_insert_eq. simpl. rewrite orb_true_r. reflexivity.
  - intros topic author Ht Ha.
    unfold bind at 1 2, handleInputChange, setMetadata, update, modify.
    match goal with
    | |- shows_details_form (app (snd (startProcess T ?s1))) = false =>
      destruct (startProcess_leaves_form T s1) as [H | H]
    end.
    + simpl. rewrite lookup_insert_ne by discriminate. rewrite lookup_insert_eq.
      apply truthy_string. exact Ht.
    + simpl. rewrite lookup_insert_eq. apply truthy_string. exact Ha.
    + unfold shows_details_form. rewrite H. reflexivity.
    + unfold shows_details_form. rewrite H. reflexivity.
Qed.

(** X24, witness: blanks for a topic start a run. *)
Lemma generate_after_input_witness :
  shows_details_form
    (app (snd ((handleInputChange "topic" " ";;
                handleInputChange "author" "J. Doe";;
                startProcess sample_tables) good_session))) = false.
Proof.
  apply (proj2 (generate_after_input sample_tables good_session eq_refl));
    discriminate.
Defined.

(** ** The images of a session *)

Lemma is_png_of_prefix image : (exists d, image = png_prefix ++ d) -> is_png_data_url image = true.
Proof. intros [d ->]. apply png_prefix_is_png. Qed.

(** X25: the images of a session hang together whatever the user does
    and whatever the service answers: every action keeps
    [cover_consistent], which holds of the component as it is mounted.
    So a generated image is always a PNG data URL, and a cover is
    selected exactly when there are images to select from. *)
Theorem perform_keeps_cover_consistent T action s :
  cover_consistent (app s) ->
  cover_consistent (app (snd (perform T action s))).
Proof.
  intros H. destruct action; simpl perform; try exact H.
  - (* a thumbnail *)
    unfold selectThumbnail, bind, gets.
    destruct (generatedImages (app s) !! idx) as [img|] eqn:E; [|exact H].
    destruct H as [Hall H]. split; [exact Hall|]. simpl.
    pose proof (proj1 (Forall_lookup _ _) Hall _ _ E) as Himg.
    destruct H as [[Hnil _] | [Hlen _]].
    + rewrite Hnil in E. discriminate E.
    + right. split; [exact Hlen|]. exists img. split; [reflexivity | exact Himg].
  - (* startProcess *)
    rewrite startProcess_run. destruct (negb _ || negb _); [exact H|].
    rewrite startProcess_try_run. change (world (entered s)) with (world s).
    destruct (researchTrends _ _ _ _ _ _ _) as [[research | e | ] w1]; try exact H.
    destruct (generateBookText _ _ _ _ _ _) as [[textData | e | ] w2]; try exact H.
    destruct (generateCoverImages _ _) as [[images | e | ] w3] eqn:E; try exact H.
    destruct (generateCoverImages_three _ _ _ _ E) as (i1 & i2 & i3 & ->).
    pose proof (generateCoverImages_are_png _ _ _ _ E) as Hpng.
    split; simpl.
    + eapply Forall_impl; [exact Hpng|]. intros image. apply is_png_of_prefix.
    + right. split; [reflexivity|]. exists i1. split; [reflexivity|].
      apply is_png_of_prefix. exact (Forall_inv Hpng).
  - (* handleEditImage *)
    rewrite handleEditImage_run.
    destruct (coverImage (app s)) as [image|] eqn:Hc; [|exact H].
    destruct (_ || _); [exact H|].
    destruct (editCoverImage _ _ _) as [[newImage | e | ] w'] eqn:E; try exact H.
    destruct H as [Hall H]. split; [exact Hall|]. simpl.
    destruct H as [[_ Hnone] | [Hlen _]]; [rewrite Hc in Hnone; discriminate Hnone|].
    right. split; [exact Hlen|]. exists newImage. split; [reflexivity|].
    apply is_png_of_prefix. exact (editCoverImage_is_png _ _ _ _ _ E).
  - (* handleCreateVideo *)
    rewrite handleCreateVideo_run.
    destruct (coverImage (app s)) as [image|] eqn:Hc; [|exact H].
    destruct (String.eqb _ _); [exact H|].
    destruct (generateVeoVideo _ _ _) as [[url | e | ] w']; exact H.
Qed.

(** X25, witness: the component as mounted, and a run that succeeds. *)
Lemma perform_keeps_cover_consistent_witness :
  cover_consistent (app (snd (perform sample_tables StartProcess good_session))).
Proof.
  apply (perform_keeps_cover_consistent sample_tables StartProcess good_session).
  split; [constructor|]. left. split; reflexivity.
Defined.

(** X26: an edited cover is never put among the variations, so
    selecting a variation after an edit discards the edit: once
    [handleEditImage] has finished, whatever it did, the thumbnail of
    index [idx] makes the cover the image generated at that index, and
    the list of generated images is the one of before the edit. *)
Theorem selection_discards_edit T s idx img :
  generatedImages (app s) !! idx = Some img ->
  fst (handleEditImage T s) = Fulfilled tt ->
  fst ((handleEditImage T;; selectThumbnail idx) s) = Fulfilled tt
  /\ coverImage (app (snd ((handleEditImage T;; selectThumbnail idx) s))) = Some img
  /\ generatedImages (app (snd ((handleEditImage T;; selectThumbnail idx) s)))
     = generatedImages (app s).
Proof.
  intros Hidx. unfold bind at 1 2 3. rewrite handleEditImage_run.
  assert (Hsel : forall s1,
             generatedImages (app s1) = generatedImages (app s) ->
             fst (selectThumbnail idx s1) = Fulfilled tt
             /\ coverImage (app (snd (selectThumbnail idx s1))) = Some img
             /\ generatedImages (app (snd (selectThumbnail idx s1)))
                = generatedImages (app s)).
  { intros s1 Hs1. unfold selectThumbnail, bind, gets. rewrite Hs1, Hidx. simpl.
    repeat split. exact Hs1. }
  destruct (coverImage (app s)) as [image|]; [|intros _; apply Hsel; reflexivity].
  destruct (_ || _); [intros _; apply Hsel; reflexivity|].
  destruct (editCoverImage _ _ _) as [[newImage | e | ] w']; intros Hf;
    [apply Hsel; reflexivity | apply Hsel; reflexivity | discriminate Hf].
Qed.

(** X26, witness: an edit that succeeds, then the first thumbnail. *)
Lemma selection_discards_edit_witness :
  coverImage
    (app (snd ((handleEditImage sample_tables;; selectThumbnail 0)
                 (editing_session [Resolves (image_answer "EDIT")]))))
  = Some sample_image.
Proof.
  apply (selection_discards_edit sample_tables
           (editing_session [Resolves (image_answer "EDIT")]) 0 sample_image eq_refl).
  vm_compute. reflexivity.
Defined.

(** ** The stage Research *)

Lemma research_stage_step T s action :
  step (app s) = RESEARCH ->
  offered (app s) action = true ->
  fst (perform T action s) = Fulfilled tt
  /\ step (app (snd (perform T action s))) = RESEARCH.
Proof.
  intros Hstep. unfold offered, shows_details_form, shows_refine_panel. rewrite Hstep.
  destruct action; simpl; rewrite ?andb_false_r; try (intros H; discriminate H); intros _.
  - split; [reflexivity | exact Hstep].
  - unfold selectThumbnail, bind, gets.
    destruct (generatedImages (app s) !! idx); simpl; split;
      solve [reflexivity | exact Hstep].
Qed.

(** X27: stage Research has no way out for the user. In that stage,
    which is where a failed run leaves the component, neither the form
    nor the refine panel is on the page, and whatever controls the user
    operates one after the other, each of them on the page at its
    time, every one finishes and the stage is Research after the last
    one. *)
Theorem research_stage_has_no_way_out T actions s :
  step (app s) = RESEARCH ->
  all_offered T actions s = true ->
  fst (perform_all T actions s) = Fulfilled tt
  /\ step (app (snd (perform_all T actions s))) = RESEARCH
  /\ shows_details_form (app (snd (perform_all T actions s))) = false
  /\ shows_refine_panel (app (snd (perform_all T actions s))) = false.
Proof.
  revert s. induction actions as [|action rest IH]; intros s Hstep Hall.
  - simpl. unfold shows_details_form, shows_refine_panel. rewrite Hstep. repeat split.
  - simpl in Hall. apply andb_prop in Hall. destruct Hall as [Hoff Hrest].
    destruct (research_stage_step T s action Hstep Hoff) as [Hf Hs].
    simpl perform_all. unfold bind.
    destruct (perform T action s) as [[[] | e | ] s1]; try discriminate Hf.
    simpl in Hs, Hrest. exact (IH s1 Hs Hrest).
Qed.

(** X27, witness: after the failed run of the spec's example the user
    changes the language twice. *)
Lemma research_stage_has_no_way_out_witness :
  step (app (snd (perform_all sample_tables [SelectLanguage "en"; SelectLanguage "it"]
                    (snd (startProcess sample_tables failing_session))))) = RESEARCH.
Proof.
  apply (research_stage_has_no_way_out sample_tables
           [SelectLanguage "en"; SelectLanguage "it"]
           (snd (startProcess sample_tables failing_session)));
    vm_compute; reflexivity.
Defined.
